(** * VideoMancer background service worker: stream acquisition engine

    A shallow embedding of the manifest parsers, the captured-header store,
    the batch retrieval loops and the file-name sanitiser of the background
    script, of its registry of detected videos with the listeners and
    message handlers that work on it, and of the options page, with the
    properties of the engine stated over it.

    Conventions of the embedding:
    - a JavaScript string is a [string] of 8-bit characters; the whitespace
      class of [trim] and of the regular expression [\s] is its ASCII part;
    - a JavaScript number that the code obtains from [parseInt] over decimal
      digits is an [N]; where the code divides or reads a decimal fraction the
      value is a [number]: a rational, a signed zero or one of the IEEE
      special values. A quotient is rounded to the nearest binary64 number,
      ties to even, with gradual underflow and overflow to an infinity;
      what is read from decimal digits, and the sum of integers, is taken
      exactly, as binary64 holds integers below [2^53];
    - platform services ([URL], [fetch], [crypto.subtle], [DOMParser],
      [chrome.downloads], [chrome.cookies], [JSON.stringify]) are variables
      of the section that uses them; the values of [generateId()] and
      [Date.now()] are arguments of the function that calls them;
    - the [Map] of the videos of a tab is the list of its entries in
      insertion order; what the registry tells the browser is a list of
      effects;
    - [ensureAuthHeaders] is taken as it runs when no listener is called
      while it awaits. *)

From Stdlib Require Import ZArith QArith Qround Qabs Qpower Ascii String List Permutation
  Sorted Lia Lqa.
From Stdlib Require Import DecimalString.
From stdpp Require Import base option list gmap strings.

Local Open Scope string_scope.
Local Open Scope list_scope.

(** ** JavaScript strings *)

Module JsString.

Definition is_space (c : ascii) : bool :=
  let n := nat_of_ascii c in
  ((9 <=? n)%nat && (n <=? 13)%nat) || (n =? 32)%nat.

Definition is_digit (c : ascii) : bool :=
  let n := nat_of_ascii c in (48 <=? n)%nat && (n <=? 57)%nat.

Definition is_hex (c : ascii) : bool :=
  let n := nat_of_ascii c in
  is_digit c || ((65 <=? n)%nat && (n <=? 70)%nat) || ((97 <=? n)%nat && (n <=? 102)%nat).

Definition is_empty (s : string) : bool :=
  match s with EmptyString => true | String _ _ => false end.

(** [s.startsWith(p)] *)
Definition startsWith (p s : string) : bool := String.prefix p s.

(** [s.substring(n)] *)
Fixpoint substring_from (n : nat) (s : string) : string :=
  match n, s with
  | O, _ => s
  | S _, EmptyString => EmptyString
  | S k, String _ r => substring_from k r
  end.

(** [s.substring(0, n)] *)
Fixpoint substring_to (n : nat) (s : string) : string :=
  match n, s with
  | O, _ => EmptyString
  | S _, EmptyString => EmptyString
  | S k, String c r => String c (substring_to k r)
  end.

Fixpoint trimStart (s : string) : string :=
  match s with
  | EmptyString => EmptyString
  | String c r => if is_space c then trimStart r else s
  end.

Fixpoint trimEnd (s : string) : string :=
  match s with
  | EmptyString => EmptyString
  | String c r =>
      let r' := trimEnd r in
      if is_space c && is_empty r' then EmptyString else String c r'
  end.

(** [s.trim()] *)
Definition trim (s : string) : string := trimEnd (trimStart s).

(** [s.split(c)] for a one-character separator; the result is never empty. *)
Fixpoint split (c : ascii) (s : string) : list string :=
  match s with
  | EmptyString => [EmptyString]
  | String a r =>
      if Ascii.eqb a c then EmptyString :: split c r
      else match split c r with
           | p :: ps => String a p :: ps
           | [] => [String a EmptyString]
           end
  end.

(** The longest prefix of [s] whose characters satisfy [p], and the rest. *)
Fixpoint span (p : ascii -> bool) (s : string) : string * string :=
  match s with
  | EmptyString => (EmptyString, EmptyString)
  | String c r =>
      if p c then let '(a, b) := span p r in (String c a, b) else (EmptyString, s)
  end.

(** Leftmost match of an anchored matcher, as [RegExp.prototype.exec] scans
    the start positions from left to right. *)
Fixpoint first_match {A : Type} (m : string -> option A) (s : string) : option A :=
  match m s with
  | Some a => Some a
  | None => match s with
            | EmptyString => None
            | String _ r => first_match m r
            end
  end.

(** The text that [String.prototype.replace] puts in place of a match of
    a string pattern, for the replacement string [by_]: a doubled dollar
    sign stands for one dollar sign, a dollar sign with an ampersand for
    the matched text, with a backquote for the text before the match and
    with an apostrophe for the text after it. Without capture groups every
    other dollar sign stands for itself. *)
Fixpoint substitution (matched before after by_ : string) : string :=
  match by_ with
  | EmptyString => EmptyString
  | String a t =>
      if Ascii.eqb a "$" then
        match t with
        | String c r =>
            if Ascii.eqb c "$" then String "$" (substitution matched before after r)
            else if Ascii.eqb c "&" then matched +:+ substitution matched before after r
            else if Ascii.eqb c "`" then before +:+ substitution matched before after r
            else if Ascii.eqb c "'" then after +:+ substitution matched before after r
            else String "$" (substitution matched before after t)
        | EmptyString => String "$" EmptyString
        end
      else String a (substitution matched before after t)
  end.

(** [replace] from the position that follows the text [before]. *)
Fixpoint replace_from (pat by_ before s : string) : string :=
  if startsWith pat s then
    let after := substring_from (String.length pat) s in
    substitution pat before after by_ +:+ after
  else match s with
       | EmptyString => EmptyString
       | String c r => String c (replace_from pat by_ (before +:+ String c EmptyString) r)
       end.

(** [s.replace(pat, by)] with a string pattern: the first occurrence only. *)
Definition replace (pat by_ s : string) : string := replace_from pat by_ EmptyString s.

Definition lower (c : ascii) : ascii :=
  let n := nat_of_ascii c in
  if (65 <=? n)%nat && (n <=? 90)%nat then ascii_of_nat (n + 32) else c.

(** [s.toLowerCase()] *)
Fixpoint toLowerCase (s : string) : string :=
  match s with
  | EmptyString => EmptyString
  | String c r => String (lower c) (toLowerCase r)
  end.

(** [String(n)] for a non-negative integer. *)
Definition ofN (n : N) : string := NilEmpty.string_of_uint (N.to_uint n).

(** Value of a string of decimal digits, as [parseInt(ds, 10)] reads it. *)
Fixpoint digits_acc (acc : N) (s : string) : N :=
  match s with
  | EmptyString => acc
  | String c r => digits_acc (10 * acc + N.of_nat (nat_of_ascii c - 48))%N r
  end.

Definition digits (s : string) : N := digits_acc 0 s.

(** [lines.join("\n")], the inverse of [split] on lines without newlines. *)
Fixpoint join (c : ascii) (l : list string) : string :=
  match l with
  | [] => EmptyString
  | [x] => x
  | x :: r => x +:+ String c (join c r)
  end.

Definition all (p : ascii -> bool) (s : string) : bool :=
  forallb p (list_ascii_of_string s).

End JsString.

(** ** JavaScript numbers with their special values *)

Module JsNumber.
Import JsString.

(** [Finite q] is the value [q], with [Finite 0] the positive zero;
    [NegZero] is the negative zero. *)
Inductive number : Type :=
| Finite (q : Q)
| NegZero
| PosInfinity
| NegInfinity
| NaN.

Definition ofN (n : N) : number := Finite (inject_Z (Z.of_N n)).
Definition ofZ (z : Z) : number := Finite (inject_Z z).

Definition zero (negative : bool) : number := if negative then NegZero else Finite 0.
Definition infinity (negative : bool) : number :=
  if negative then NegInfinity else PosInfinity.

(** The sign bit. *)
Definition negative (a : number) : bool :=
  match a with
  | Finite q => (Qnum q <? 0)%Z
  | NegZero | NegInfinity => true
  | PosInfinity | NaN => false
  end.

Definition is_zero (a : number) : bool :=
  match a with
  | Finite q => (Qnum q =? 0)%Z
  | NegZero => true
  | _ => false
  end.

Definition is_infinite (a : number) : bool :=
  match a with PosInfinity | NegInfinity => true | _ => false end.

(** The rational value of a finite number. *)
Definition value (a : number) : Q :=
  match a with Finite q => q | _ => 0 end.

(** The integer nearest to [q], the even one of two that are equally
    near. *)
Definition roundEven (q : Q) : Z :=
  let f := Qfloor q in
  match Qcompare (q - inject_Z f) (1 # 2) with
  | Lt => f
  | Gt => (f + 1)%Z
  | Eq => if Z.even f then f else (f + 1)%Z
  end.

(** The binary exponent [e] of a positive rational: [2^e <= q < 2^(e+1)]. *)
Definition exponent2 (q : Q) : Z :=
  let e := (Z.log2 (Qnum q) - Z.log2 (Zpos (Qden q)))%Z in
  if Qle_bool (2 ^ e) q then e else (e - 1)%Z.

(** The multiple of the unit in the last place nearest to a positive
    rational, where the significand has 53 bits and the exponent is not
    below that of the subnormal numbers. *)
Definition nearest (q : Q) : Q :=
  let e := Z.max (exponent2 q) (-1022) in
  let ulp := (2 ^ (e - 52))%Q in
  Qred (inject_Z (roundEven (q / ulp)) * ulp).

(** The binary64 number nearest to the real number of magnitude [q],
    a positive rational, and of the given sign, ties to even: an infinity
    from [2^1024] on. *)
Definition binary64 (negative : bool) (q : Q) : number :=
  let v := nearest q in
  if Qle_bool (2 ^ 1024) v then infinity negative
  else if (Qnum v =? 0)%Z then zero negative
  else Finite (if negative then Qred (- v) else v).

(** [a / b] *)
Definition div (a b : number) : number :=
  match a, b with
  | NaN, _ | _, NaN => NaN
  | _, _ =>
      let s := xorb (negative a) (negative b) in
      if is_infinite a then (if is_infinite b then NaN else infinity s)
      else if is_infinite b then zero s
      else if is_zero b then (if is_zero a then NaN else infinity s)
      else if is_zero a then zero s
      else binary64 s (Qabs (value a / value b))
  end.

(** [a + b] on numbers whose sum binary64 holds exactly, as it does for
    integers below [2^53]. *)
Definition add (a b : number) : number :=
  match a, b with
  | NaN, _ | _, NaN => NaN
  | PosInfinity, NegInfinity | NegInfinity, PosInfinity => NaN
  | PosInfinity, _ | _, PosInfinity => PosInfinity
  | NegInfinity, _ | _, NegInfinity => NegInfinity
  | NegZero, NegZero => NegZero
  | NegZero, Finite y => Finite y
  | Finite x, NegZero => Finite x
  | Finite x, Finite y => Finite (x + y)
  end.

(** [Math.ceil(a)] *)
Definition ceil (a : number) : number :=
  match a with
  | Finite x =>
      let c := Qceiling x in
      if (c =? 0)%Z && (Qnum x <? 0)%Z then NegZero else Finite (inject_Z c)
  | _ => a
  end.

(** [a < b]; any comparison with NaN is false, the two zeros are equal. *)
Definition lt (a b : number) : bool :=
  match a, b with
  | NaN, _ | _, NaN => false
  | _, NegInfinity | PosInfinity, _ => false
  | NegInfinity, _ | _, PosInfinity => true
  | _, _ => match Qcompare (value a) (value b) with Lt => true | _ => false end
  end.

(** A decimal mantissa scaled by a power of ten. *)
Definition scale (neg : bool) (m : N) (e : Z) : number :=
  if (m =? 0)%N then zero neg
  else
    let z := if neg then Z.opp (Z.of_N m) else Z.of_N m in
    match e with
    | Z0 => Finite (inject_Z z)
    | Zpos p => Finite (inject_Z (z * Z.pow 10 (Zpos p)))
    | Zneg p => Finite (Qmake z (Pos.pow 10 p))
    end.

Definition sign_of (s : string) : bool * string :=
  match s with
  | String "-" r => (true, r)
  | String "+" r => (false, r)
  | _ => (false, s)
  end.

(** The exponent part [e[+-]ddd] of a decimal literal, 0 when absent. *)
Definition exponent (s : string) : Z :=
  match s with
  | String c r =>
      if Ascii.eqb c "e" || Ascii.eqb c "E" then
        let '(eneg, r') := sign_of r in
        let '(ed, _) := span is_digit r' in
        if is_empty ed then 0%Z
        else if eneg then Z.opp (Z.of_N (digits ed)) else Z.of_N (digits ed)
      else 0%Z
  | EmptyString => 0%Z
  end.

(** [parseFloat(s)]: the longest prefix of [s], after leading whitespace,
    that is a decimal literal; NaN when there is none. *)
Definition parseFloat (s : string) : number :=
  let '(neg, s1) := sign_of (trimStart s) in
  if startsWith "Infinity" s1 then infinity neg
  else
    let '(ip, r1) := span is_digit s1 in
    let '(fp, r2) := match r1 with
                     | String "." r => span is_digit r
                     | _ => (EmptyString, r1)
                     end in
    if is_empty ip && is_empty fp then NaN
    else scale neg (digits (ip +:+ fp)) (exponent r2 - Z.of_nat (String.length fp)).

(** The results of [parseInt]: an integer, the negative zero of ["-0"], or
    NaN. *)
Inductive integer : Type :=
| Int (z : Z)
| MinusZero
| NotANumber.

(** [parseInt(s, 10)] *)
Definition parseInt (s : string) : integer :=
  let '(neg, s1) := sign_of (trimStart s) in
  let '(ds, _) := span is_digit s1 in
  if is_empty ds then NotANumber
  else if neg then (if (digits ds =? 0)%N then MinusZero else Int (Z.opp (Z.of_N (digits ds))))
  else Int (Z.of_N (digits ds)).

Definition ofInteger (v : integer) : number :=
  match v with
  | Int z => ofZ z
  | MinusZero => NegZero
  | NotANumber => NaN
  end.

(** [String(v)] *)
Definition integerToString (v : integer) : string :=
  match v with
  | Int z => NilEmpty.string_of_int (Z.to_int z)
  | MinusZero => "0"
  | NotANumber => "NaN"
  end.

(** Truthiness: neither a zero nor NaN. *)
Definition truthy (v : integer) : bool :=
  match v with Int z => negb (z =? 0)%Z | _ => false end.

End JsNumber.

(** ** HLS playlists *)

Module Hls.
Import JsString JsNumber.

(** An entry of [qualities] as [parseM3U8Master] pushes it. *)
Record Quality : Type := mkQuality {
  q_url : string;
  q_bandwidth : N;
  q_resolution : option string;
  q_height : N;
  q_label : string
}.

(** An entry of [segments] as [parseM3U8Segments] pushes it. *)
Record Segment : Type := mkSegment {
  seg_url : string;
  seg_duration : number
}.

(** The object [parseM3U8Key] returns. *)
Record KeyInfo : Type := mkKeyInfo {
  key_method : string;
  key_uri : string;
  key_iv : option string
}.

(** [/BANDWIDTH=(\d+)/] anchored at the start of [s]. *)
Definition bandwidth_at (s : string) : option string :=
  if startsWith "BANDWIDTH=" s then
    let '(ds, _) := span is_digit (substring_from 10 s) in
    if is_empty ds then None else Some ds
  else None.

(** [/RESOLUTION=(\d+x\d+)/] anchored at the start of [s]: width and height. *)
Definition resolution_at (s : string) : option (string * string) :=
  if startsWith "RESOLUTION=" s then
    let '(w, r) := span is_digit (substring_from 11 s) in
    match r with
    | String "x" r' =>
        let '(h, _) := span is_digit r' in
        if is_empty w || is_empty h then None else Some (w, h)
    | _ => None
    end
  else None.

Definition quote : ascii := "034".
Definition not_quote (c : ascii) : bool := negb (Ascii.eqb c quote).

(** The pattern NAME= followed by a quoted, non-empty run of non-quote
    characters, anchored at the start of [s]. *)
Definition name_at (s : string) : option string :=
  if startsWith ("NAME=" +:+ String quote "") s then
    let '(nm, r) := span not_quote (substring_from 6 s) in
    match r with
    | String _ _ => if is_empty nm then None else Some nm
    | EmptyString => None
    end
  else None.

(** [Math.round(bandwidth / 1000)] *)
Definition round_kbps (bandwidth : N) : N := ((bandwidth + 500) / 1000)%N.

(** [Array.prototype.sort] with the comparator [(a, b) => b.bandwidth -
    a.bandwidth]: the sort is stable, so it is the insertion of each entry
    [x], the last one first, into the sorted entries that follow it in the
    array: [x] passes the entries of strictly greater bandwidth and stands
    before the first one whose bandwidth is not greater, an equal one
    included. *)
Fixpoint insert_desc {A : Type} (bw : A -> N) (x : A) (l : list A) : list A :=
  match l with
  | [] => [x]
  | y :: r => if (bw x <? bw y)%N then y :: insert_desc bw x r else x :: l
  end.

Definition sort_desc {A : Type} (bw : A -> N) (l : list A) : list A :=
  foldr (insert_desc bw) [] l.

Section WithUrl.
(** [new URL(relative, base).href], or [relative] when the constructor
    throws. *)
Variable resolveUrl : string -> string -> string.

(** The inner loop of [parseM3U8Master]: the next line that is neither
    empty nor a comment, [''] when there is none. *)
Fixpoint next_uri (rest : list string) : string :=
  match rest with
  | [] => EmptyString
  | l :: r => if negb (is_empty l) && negb (startsWith "#" l) then l else next_uri r
  end.

Definition quality_of (baseUrl attrs urlLine : string) : Quality :=
  let bwMatch := first_match bandwidth_at attrs in
  let resMatch := first_match resolution_at attrs in
  let nameMatch := first_match name_at attrs in
  let bandwidth := match bwMatch with Some ds => digits ds | None => 0%N end in
  let resolution := match resMatch with
                    | Some (w, h) => Some (w +:+ "x" +:+ h)
                    | None => None
                    end in
  let height := match resMatch with Some (_, h) => digits h | None => 0%N end in
  let label :=
    match nameMatch with
    | Some nm => nm
    | None => if (height =? 0)%N then JsString.ofN (round_kbps bandwidth) +:+ "kbps"
              else JsString.ofN height +:+ "p"
    end in
  mkQuality (resolveUrl baseUrl urlLine) bandwidth resolution height label.

(** The outer loop of [parseM3U8Master], in push order. *)
Fixpoint stream_infs (baseUrl : string) (lines : list string) : list Quality :=
  match lines with
  | [] => []
  | line :: rest =>
      if startsWith "#EXT-X-STREAM-INF:" line then
        let attrs := substring_from 18 line in
        let urlLine := next_uri rest in
        if is_empty urlLine then stream_infs baseUrl rest
        else quality_of baseUrl attrs urlLine :: stream_infs baseUrl rest
      else stream_infs baseUrl rest
  end.

Definition parseM3U8Master (content baseUrl : string) : list Quality :=
  let lines := map trim (split "010" content) in
  sort_desc q_bandwidth (stream_infs baseUrl lines).

(** The loop of [parseM3U8Segments] with its variable [currentDuration]. *)
Fixpoint segments_from (baseUrl : string) (currentDuration : number)
    (lines : list string) : list Segment :=
  match lines with
  | [] => []
  | line :: rest =>
      if startsWith "#EXTINF:" line then
        let d := match split ":" line !! 1%nat with
                 | Some t => parseFloat t
                 | None => NaN
                 end in
        segments_from baseUrl d rest
      else if negb (is_empty line) && negb (startsWith "#" line) then
        mkSegment (resolveUrl baseUrl line) currentDuration
          :: segments_from baseUrl (JsNumber.ofN 0) rest
      else segments_from baseUrl currentDuration rest
  end.

Definition parseM3U8Segments (content baseUrl : string) : list Segment :=
  let lines := map trim (split "010" content) in
  segments_from baseUrl (JsNumber.ofN 0) lines.

(** The pattern of [parseM3U8Key], anchored at the start of [s]: the
    literal #EXT-X-KEY:METHOD=AES-128,URI= then a quoted non-empty run of
    non-quote characters, then optionally ,IV=0x and hexadecimal digits. *)
Definition key_at (s : string) : option (string * option string) :=
  if startsWith ("#EXT-X-KEY:METHOD=AES-128,URI=" +:+ String quote "") s then
    let '(uri, r) := span not_quote (substring_from 31 s) in
    match r with
    | String _ r' =>
        if is_empty uri then None
        else if startsWith ",IV=0x" r' then
          let '(hex, _) := span is_hex (substring_from 6 r') in
          Some (uri, if is_empty hex then None else Some hex)
        else Some (uri, None)
    | EmptyString => None
    end
  else None.

Definition parseM3U8Key (content baseUrl : string) : option KeyInfo :=
  match first_match key_at content with
  | None => None
  | Some (uri, iv) => Some (mkKeyInfo "AES-128" (resolveUrl baseUrl uri) iv)
  end.

End WithUrl.

End Hls.

(** ** DASH manifests *)

Module Dash.
Import JsString JsNumber.

(** The DOM tree that [DOMParser.parseFromString] returns. *)
Inductive Node : Type :=
| Element (tag : string) (attrs : list (string * string)) (children : list Node)
| Text (data : string).

(** Proper descendants in document order. *)
Fixpoint descendants (n : Node) : list Node :=
  match n with
  | Text _ => []
  | Element _ _ cs =>
      (fix go (l : list Node) : list Node :=
         match l with
         | [] => []
         | c :: r => c :: descendants c ++ go r
         end) cs
  end.

Definition is_element (t : string) (n : Node) : bool :=
  match n with Element t' _ _ => String.eqb t t' | Text _ => false end.

(** [n.querySelectorAll(t)] for a tag selector. *)
Definition querySelectorAll (t : string) (n : Node) : list Node :=
  filter (fun d => is_element t d = true) (descendants n).

(** [n.querySelector(t)] *)
Definition querySelector (t : string) (n : Node) : option Node :=
  head (querySelectorAll t n).

(** [n.getAttribute(a)] *)
Definition getAttribute (a : string) (n : Node) : option string :=
  match n with
  | Element _ attrs _ =>
      match find (fun kv => String.eqb (fst kv) a) attrs with
      | Some kv => Some (snd kv)
      | None => None
      end
  | Text _ => None
  end.

(** [n.textContent] *)
Fixpoint textContent (n : Node) : string :=
  match n with
  | Text d => d
  | Element _ _ cs =>
      (fix go (l : list Node) : string :=
         match l with
         | [] => EmptyString
         | c :: r => textContent c +:+ go r
         end) cs
  end.

(** The elements with tag [child] whose parent is an element with tag
    [parent], among the descendants of [n], in document order. *)
Fixpoint childSelector (parent child : string) (n : Node) : list Node :=
  match n with
  | Text _ => []
  | Element t _ cs =>
      (fix go (l : list Node) : list Node :=
         match l with
         | [] => []
         | c :: r =>
             (if String.eqb t parent && is_element child c then [c] else [])
             ++ childSelector parent child c ++ go r
         end) cs
  end.

(** [doc.querySelector('Period > BaseURL')]: the first BaseURL element, in
    document order, whose parent is a Period element. *)
Definition periodBaseURL (root : Node) : option Node :=
  head (childSelector "Period" "BaseURL" root).

(** [a || d] on an attribute value: [null] and [''] give the default. *)
Definition or_default (a : option string) (d : string) : string :=
  match a with
  | Some s => if is_empty s then d else s
  | None => d
  end.

(** [String(Math.round(v / 1000))] on the result of [parseInt]. *)
Definition round_kbps (v : integer) : string :=
  match v with
  | Int z => NilEmpty.string_of_int (Z.to_int ((z + 500) / 1000))
  | MinusZero => "0"
  | NotANumber => "NaN"
  end.

Record SegmentTemplate : Type := mkSegmentTemplate {
  initialization : option string;
  media : option string;
  startNumber : integer;
  timescale : integer;
  duration : integer
}.

Record Representation : Type := mkRepresentation {
  rep_id : string;
  rep_url : string;
  rep_bandwidth : integer;
  rep_width : integer;
  rep_height : integer;
  rep_resolution : option string;
  rep_codecs : string;
  rep_mimeType : string;
  rep_isVideo : bool;
  rep_isAudio : bool;
  rep_label : string;
  segmentTemplate : option SegmentTemplate
}.

(** The comparator [(a, b) => b.bandwidth - a.bandwidth] is negative when
    [b] is strictly smaller; a NaN difference counts as 0, as for equal
    bandwidths. *)
Definition smaller (b a : integer) : bool :=
  JsNumber.lt (ofInteger b) (ofInteger a).

(** The stable sort [qualities.sort(...)] as the insertion of each entry
    [x], the last one first, into the sorted entries that follow it: [x]
    passes the entries of strictly greater bandwidth and stands before
    the first one whose bandwidth is not greater, so that entries of
    equal bandwidth keep the order of the document. *)
Fixpoint insert_desc (x : Representation) (l : list Representation) : list Representation :=
  match l with
  | [] => [x]
  | y :: r => if smaller (rep_bandwidth x) (rep_bandwidth y) then y :: insert_desc x r
              else x :: l
  end.

Definition sort_desc (l : list Representation) : list Representation :=
  foldr insert_desc [] l.

Section WithUrl.
Variable resolveUrl : string -> string -> string.

Definition template_of (segTemplate : Node) : SegmentTemplate :=
  mkSegmentTemplate
    (getAttribute "initialization" segTemplate)
    (getAttribute "media" segTemplate)
    (parseInt (or_default (getAttribute "startNumber" segTemplate) "1"))
    (parseInt (or_default (getAttribute "timescale" segTemplate) "1"))
    (parseInt (or_default (getAttribute "duration" segTemplate) "0")).

Definition first_some {A : Type} (a b : option A) : option A :=
  match a with Some _ => a | None => b end.

(** The body of the inner loop of [parseMPD] for one Representation. *)
Definition representation_of (root : Node) (baseUrl : string) (as_ rep : Node)
    : Representation :=
  let mimeType := or_default (getAttribute "mimeType" as_) "" in
  let isVideo := startsWith "video" mimeType
                 || bool_decide (getAttribute "contentType" as_ = Some "video") in
  let isAudio := startsWith "audio" mimeType
                 || bool_decide (getAttribute "contentType" as_ = Some "audio") in
  let bandwidth := parseInt (or_default (getAttribute "bandwidth" rep) "0") in
  let width := parseInt (or_default (getAttribute "width" rep) "0") in
  let height := parseInt (or_default (getAttribute "height" rep) "0") in
  let codecs := or_default (first_some
                              (match getAttribute "codecs" rep with
                               | Some c => if is_empty c then None else Some c
                               | None => None
                               end)
                              (getAttribute "codecs" as_)) "" in
  let id := or_default (getAttribute "id" rep) "" in
  let segmentUrl :=
    match querySelector "BaseURL" rep with
    | Some b => resolveUrl baseUrl (trim (textContent b))
    | None =>
        match querySelector "BaseURL" as_ with
        | Some b => resolveUrl baseUrl (trim (textContent b))
        | None =>
            match periodBaseURL root with
            | Some b => resolveUrl baseUrl (trim (textContent b))
            | None => EmptyString
            end
        end
    end in
  let segTemplate := first_some (querySelector "SegmentTemplate" rep)
                                (querySelector "SegmentTemplate" as_) in
  let kbps := round_kbps bandwidth +:+ "kbps" in
  mkRepresentation id
    (if is_empty segmentUrl then baseUrl else segmentUrl)
    bandwidth width height
    (if truthy width && truthy height
     then Some (integerToString width +:+ "x" +:+ integerToString height) else None)
    codecs
    (or_default (getAttribute "mimeType" rep) mimeType)
    isVideo isAudio
    (if isVideo
     then (if truthy height then integerToString height +:+ "p (" +:+ codecs +:+ ")" else kbps)
     else "Audio " +:+ kbps +:+ " (" +:+ codecs +:+ ")")
    (option_map template_of segTemplate).

(** [parseMPD] on the parsed document. *)
Definition parseMPD (root : Node) (baseUrl : string) : list Representation :=
  let adaptationSets := filter (fun d => is_element "AdaptationSet" d = true)
                               (root :: descendants root) in
  sort_desc
    (flat_map (fun as_ =>
                 map (representation_of root baseUrl as_)
                     (querySelectorAll "Representation" as_))
              adaptationSets).

End WithUrl.

End Dash.

(** ** Captured request headers *)

Module Auth.
Import JsString.

(** The object stored per tab in [tabRequestHeaders]; [None] is an absent
    key. Header values are text. *)
Record Captured : Type := mkCaptured {
  cookie : option string;
  authorization : option string;
  referer : option string;
  origin : option string;
  custom : option (gmap string string)
}.

Definition empty : Captured := mkCaptured None None None None None.

Record Header : Type := mkHeader { h_name : string; h_value : string }.

Record Details : Type := mkDetails {
  tabId : Z;
  d_url : string;
  requestHeaders : option (list Header)
}.

(** A key of the right operand of a spread replaces the left one. *)
Definition over {A : Type} (new old : option A) : option A :=
  match new with Some _ => new | None => old end.

(** [{ ...existing, ...captured }] *)
Definition spread (existing captured : Captured) : Captured :=
  mkCaptured
    (over (cookie captured) (cookie existing))
    (over (authorization captured) (authorization existing))
    (over (referer captured) (referer existing))
    (over (origin captured) (origin existing))
    (over (custom captured) (custom existing)).

(** A pattern [/\.(e1|e2|...)(\?|$)/i]: somewhere a dot, one of the
    extensions in any letter case, then a question mark or the end. *)
Definition ext_at (exts : list string) (s : string) : option unit :=
  match s with
  | String "." r =>
      if existsb (fun e =>
                    startsWith e (toLowerCase r)
                    && match substring_from (String.length e) r with
                       | EmptyString => true
                       | String c _ => Ascii.eqb c "?"
                       end) exts
      then Some tt else None
  | _ => None
  end.

Definition test_ext (exts : list string) (url : string) : bool :=
  match first_match (ext_at exts) url with Some _ => true | None => false end.

Definition HLS_PATTERNS : list string := ["m3u8"; "m3u"].
Definition DASH_PATTERNS : list string := ["mpd"].
Definition VIDEO_EXTENSIONS : list string :=
  ["mp4"; "webm"; "mkv"; "avi"; "mov"; "flv"; "wmv"; "m4v"; "3gp"; "ogv"; "ts"].
Definition SEGMENT_EXTENSIONS : list string :=
  ["ts"; "fmp4"; "m4s"; "m4f"; "m4v"; "mp4"; "cmfv"; "cmfa"].

Definition isStream (url : string) : bool :=
  test_ext HLS_PATTERNS url || test_ext DASH_PATTERNS url
  || test_ext VIDEO_EXTENSIONS url || test_ext SEGMENT_EXTENSIONS url.

(** One turn of the loop over [details.requestHeaders]. *)
Definition capture_header (captured : Captured) (h : Header) : Captured :=
  let name := toLowerCase (h_name h) in
  let c1 := if String.eqb name "cookie"
            then mkCaptured (Some (h_value h)) (authorization captured) (referer captured)
                            (origin captured) (custom captured)
            else captured in
  let c2 := if String.eqb name "authorization"
            then mkCaptured (cookie c1) (Some (h_value h)) (referer c1) (origin c1) (custom c1)
            else c1 in
  let c3 := if String.eqb name "referer"
            then mkCaptured (cookie c2) (authorization c2) (Some (h_value h)) (origin c2)
                            (custom c2)
            else c2 in
  let c4 := if String.eqb name "origin"
            then mkCaptured (cookie c3) (authorization c3) (referer c3) (Some (h_value h))
                            (custom c3)
            else c3 in
  if startsWith "x-" name || String.eqb name "range"
  then mkCaptured (cookie c4) (authorization c4) (referer c4) (origin c4)
                  (Some (<[h_name h := h_value h]> (default ∅ (custom c4))))
  else c4.

Definition falsy (v : option string) : bool :=
  match v with Some s => is_empty s | None => true end.

Section WithUrl.
(** [new URL(url).origin]; [None] when the constructor throws. *)
Variable urlOrigin : string -> option string.

(** The object [captured] that the listener builds from one request. *)
Definition capture (details : Details) : Captured :=
  let captured := match requestHeaders details with
                  | Some hs => fold_left capture_header hs empty
                  | None => empty
                  end in
  if falsy (referer captured) then
    match urlOrigin (d_url details) with
    | Some o => mkCaptured (cookie captured) (authorization captured)
                           (Some (o +:+ "/")) (origin captured) (custom captured)
    | None => captured
    end
  else captured.

(** The listener of [chrome.webRequest.onBeforeSendHeaders] as a function
    on the store [tabRequestHeaders]. *)
Definition onBeforeSendHeaders (details : Details) (tabRequestHeaders : gmap Z Captured)
    : gmap Z Captured :=
  if (tabId details <? 0)%Z then tabRequestHeaders
  else if negb (isStream (d_url details)) then tabRequestHeaders
  else
    let captured := capture details in
    let existing := default empty (tabRequestHeaders !! tabId details) in
    <[tabId details := spread existing captured]> tabRequestHeaders.

End WithUrl.

(** [buildAuthHeaders]: the header object as a list of its entries. *)
Definition buildAuthHeaders (tab : Z) (tabRequestHeaders : gmap Z Captured)
    : list (string * string) :=
  let captured := default empty (tabRequestHeaders !! tab) in
  let field (name : string) (v : option string) :=
    if falsy v then [] else [(name, default EmptyString v)] in
  field "Cookie" (cookie captured)
  ++ field "Authorization" (authorization captured)
  ++ field "Referer" (referer captured)
  ++ field "Origin" (origin captured)
  ++ match custom captured with
     | Some m => filter (fun kv => toLowerCase (fst kv) ≠ "range") (map_to_list m)
     | None => []
     end.

End Auth.

(** ** Downloads *)

Module Engine.
Import JsString JsNumber.

Definition bytes : Type := list Byte.byte.

(** What [authenticatedFetch] settles to: a response with its [ok] flag,
    status and body, or a rejection. *)
Inductive FetchOutcome : Type :=
| Response (ok : bool) (status : N) (body : bytes)
| NetworkError (message : string).

(** The requests of one acquisition; a segment request carries the position
    of the segment in the list. *)
Inductive Request : Type :=
| ReqManifest (url : string)
| ReqPlaylist (url : string)
| ReqKey (url : string)
| ReqInit (url : string)
| ReqSegment (index : nat) (url : string).

Record Video : Type := mkVideo {
  v_id : string;
  v_url : string;
  v_type : string;
  v_filename : option string;
  selectedQuality : option string
}.

Record Blob : Type := mkBlob { parts : list bytes; blob_type : string }.

Inductive Source : Type :=
| FromUrl (url : string)
| FromBlob (b : Blob).

(** The argument of [chrome.downloads.download]. *)
Record DownloadOptions : Type := mkDownloadOptions {
  dl_source : Source;
  dl_filename : string;
  dl_saveAs : bool
}.

(** What a run does to the outside: progress messages and file saves. *)
Inductive Event : Type :=
| Progress (videoId : string) (current total : nat)
| Download (opts : DownloadOptions).

(** The result record [{ ok: true, downloadId, segmentCount }] or
    [{ error }]. *)
Inductive Result : Type :=
| Ok (downloadId : nat) (segmentCount : option nat)
| Error (message : string).

(** How an async function ends: it returns, it throws, or it awaits a
    promise that never settles. *)
Inductive Completion : Type :=
| Returned (r : Result)
| Thrown (message : string)
| Unsettled.

Definition Run : Type := list Event * Completion.

(** The bytes of a [Blob]: its parts, one after the other. *)
Definition blobBytes (b : Blob) : bytes := concat (parts b).

(** The [try]/[catch] of the message handler: an exception becomes an
    error result. *)
Definition caught (r : Run) : Run :=
  (fst r, match snd r with
          | Thrown e => Returned (Error e)
          | c => c
          end).

(** *** Promise.all *)

Inductive Settled (A : Type) : Type :=
| Fulfilled (values : list A)
| Rejected (message : string)
| Pending.
Arguments Fulfilled {A} values.
Arguments Rejected {A} message.
Arguments Pending {A}.

(** The continuation of one mapped async callback once its fetch has
    settled: it may update the state shared by the batch, and fulfils its
    promise with a value or rejects it. *)
Definition Task (S A : Type) : Type := S -> S * (A + string).

(** The fetches of a batch settle in the order [order] (positions in the
    batch). Each value is stored at the position of its promise; the first
    rejection rejects the whole. A position out of the batch or already
    settled is no arrival. *)
Fixpoint arrivals {S A : Type} (tasks : list (Task S A)) (order : list nat)
    (s : S) (slots : list (option A)) : S * Settled A :=
  match order with
  | [] => (s, match mapM id slots with
              | Some vs => Fulfilled vs
              | None => Pending
              end)
  | k :: rest =>
      match tasks !! k, slots !! k with
      | Some t, Some None =>
          match t s with
          | (s', inl v) => arrivals tasks rest s' (<[k := Some v]> slots)
          | (s', inr e) => (s', Rejected e)
          end
      | _, _ => arrivals tasks rest s slots
      end
  end.

Definition promiseAll {S A : Type} (tasks : list (Task S A)) (order : list nat) (s : S)
    : S * Settled A :=
  arrivals tasks order s (replicate (length tasks) None).

(** *** File names *)

Definition forbidden (c : ascii) : bool :=
  existsb (Ascii.eqb c) ["<"; ">"; ":"; "034"; "/"; "\"; "|"; "?"; "*"]%char.

(** The first [replace] of [sanitizeFilename]: every character of the
    class [forbidden] becomes an underscore. *)
Fixpoint replace_forbidden (s : string) : string :=
  match s with
  | EmptyString => EmptyString
  | String c r => String (if forbidden c then "_"%char else c) (replace_forbidden r)
  end.

(** [.replace(/\s+/g, ' ')]; [in_run] tells that the previous character
    was whitespace. *)
Fixpoint collapse (in_run : bool) (s : string) : string :=
  match s with
  | EmptyString => EmptyString
  | String c r =>
      if is_space c then (if in_run then collapse true r else String " " (collapse true r))
      else String c (collapse false r)
  end.

Definition sanitizeFilename (name : string) : string :=
  substring_to 200 (trim (collapse false (replace_forbidden name))).

(** [.replace(/\.(e1|e2|...)$/i, '')]: the leftmost position from which the
    rest of the name is one of the suffixes, in any letter case. *)
Fixpoint strip_suffix (suffixes : list string) (s : string) : string :=
  if existsb (String.eqb (toLowerCase s)) suffixes then EmptyString
  else match s with
       | EmptyString => EmptyString
       | String c r => String c (strip_suffix suffixes r)
       end.

(** [a || d] on an optional string. *)
Definition or_default (a : option string) (d : string) : string :=
  match a with
  | Some s => if is_empty s then d else s
  | None => d
  end.

Definition hlsFilename (video : Video) : string :=
  sanitizeFilename
    (strip_suffix [".m3u8"; ".m3u"; ".ts"] (or_default (v_filename video) "video") +:+ ".ts").

Definition dashFilename (video : Video) : string :=
  sanitizeFilename
    (strip_suffix [".mpd"; ".mp4"] (or_default (v_filename video) "video") +:+ ".mp4").

(** *** Decryption *)

Definition byte_of (n : N) : Byte.byte :=
  default Byte.x00 (Byte.of_N (n mod 256)).

Definition hex_value (c : ascii) : N :=
  let n := N_of_ascii c in
  if is_digit c then (n - 48)%N
  else if (97 <=? n)%N then (n - 87)%N else (n - 55)%N.

(** [ivHex.match(/.{2}/g).map(b => parseInt(b, 16))]; [None] when there
    is no pair, where [match] returns [null] and [map] throws. *)
Fixpoint hex_pairs (s : string) : list Byte.byte :=
  match s with
  | String a (String b r) => byte_of (16 * hex_value a + hex_value b) :: hex_pairs r
  | _ => []
  end.

(** The IV of [decryptSegment]: the explicit one, or 16 bytes ending with
    the segment index as a big-endian [Uint32]. *)
Definition iv_of (ivHex : option string) (segmentIndex : nat) : option bytes :=
  match ivHex with
  | Some h =>
      if is_empty h then
        let i := (N.of_nat segmentIndex mod 2 ^ 32)%N in
        Some (replicate 12 Byte.x00
              ++ [byte_of (i / 2 ^ 24); byte_of (i / 2 ^ 16); byte_of (i / 2 ^ 8); byte_of i])
      else match hex_pairs h with
           | [] => None
           | iv => Some iv
           end
  | None =>
      let i := (N.of_nat segmentIndex mod 2 ^ 32)%N in
      Some (replicate 12 Byte.x00
            ++ [byte_of (i / 2 ^ 24); byte_of (i / 2 ^ 16); byte_of (i / 2 ^ 8); byte_of i])
  end.

Definition batchSizeOf (maxConcurrentDownloads : nat) : nat :=
  match maxConcurrentDownloads with O => 3 | n => n end.

Definition text (body : bytes) : string := string_of_list_byte body.

Definition tooMany (status : N) : string :=
  "Too many segment failures (" +:+ JsString.ofN status +:+ ")".

Definition noSegmentsDownloaded : string :=
  "No segments downloaded — authentication may have expired".

(** What a retrieval loop hands to the code after it. *)
Inductive Loop (A : Type) : Type :=
| Completes (a : A)
| Throws (message : string)
| Hangs.
Arguments Completes {A} a.
Arguments Throws {A} message.
Arguments Hangs {A}.

Section WithPlatform.
(** [new URL(relative, base).href], or [relative] when that throws. *)
Variable resolveUrl : string -> string -> string.
(** What [authenticatedFetch] settles to for each request of the run. *)
Variable net : Request -> FetchOutcome.
(** [crypto.subtle.importKey] then [decrypt] with AES-CBC on key, IV and
    data; [None] when either throws. *)
Variable subtleDecrypt : bytes -> bytes -> bytes -> option bytes.
(** [chrome.downloads.download]: the download id, or a rejection. *)
Variable startDownload : DownloadOptions -> nat + string.
(** [DOMParser.parseFromString(content, 'application/xml')]. *)
Variable parseXml : string -> Dash.Node.
(** [settings.maxConcurrentDownloads]. *)
Variable maxConcurrentDownloads : nat.

Definition batchSize : nat := batchSizeOf maxConcurrentDownloads.

Definition decryptSegment (encryptedData keyBuffer : bytes) (ivHex : option string)
    (segmentIndex : nat) : bytes :=
  match iv_of ivHex segmentIndex with
  | None => encryptedData
  | Some iv => default encryptedData (subtleDecrypt keyBuffer iv encryptedData)
  end.

(** The call of [chrome.downloads.download] that ends a successful run. *)
Definition save (events : list Event) (opts : DownloadOptions)
    (segmentCount : option nat) : Run :=
  match startDownload opts with
  | inl downloadId => (events ++ [Download opts], Returned (Ok downloadId segmentCount))
  | inr e => (events ++ [Download opts], Thrown e)
  end.

Definition downloadDirect (video : Video) : Run :=
  let filename := sanitizeFilename (or_default (v_filename video) "video.mp4") in
  save [] (mkDownloadOptions (FromUrl (v_url video)) filename true) None.

(** *** HLS *)

(** The key that [downloadHLSSegments] fetches when the playlist has a
    key directive. *)
Definition decryptionKeyOf (keyInfo : option Hls.KeyInfo) : option bytes :=
  match keyInfo with
  | Some k =>
      if is_empty (Hls.key_uri k) then None
      else match net (ReqKey (Hls.key_uri k)) with
           | Response true _ body => Some body
           | _ => None
           end
  | None => None
  end.

(** The bytes a fetched segment contributes. *)
Definition segmentData (keyInfo : option Hls.KeyInfo) (decryptionKey : option bytes)
    (index : nat) (data : bytes) : bytes :=
  match decryptionKey, keyInfo with
  | Some key, Some k => decryptSegment data key (Hls.key_iv k) index
  | _, _ => data
  end.

(** The callback mapped over a batch that starts at [i], for the segment
    at position [k] of the batch, with the shared [failureCount]. *)
Definition hlsTask (keyInfo : option Hls.KeyInfo) (decryptionKey : option bytes)
    (i k : nat) (seg : Hls.Segment) : Task nat (option bytes) :=
  fun failureCount =>
    match net (ReqSegment (i + k) (Hls.seg_url seg)) with
    | NetworkError e => (failureCount, inr e)
    | Response ok status body =>
        if ok then (failureCount, inl (Some (segmentData keyInfo decryptionKey (i + k) body)))
        else
          let failureCount' := S failureCount in
          if (5 <? failureCount')%nat then (failureCount', inr (tooMany status))
          else (failureCount', inl None)
    end.

(** [results.filter(Boolean)] *)
Definition present (results : list (option bytes)) : list bytes :=
  omap id results.

(** The batch loop of [downloadHLSSegments] from index [i]; [order i] is
    the order in which the fetches of the batch at [i] settle. *)
Fixpoint hlsBatches (videoId : string) (segments : list Hls.Segment)
    (keyInfo : option Hls.KeyInfo) (decryptionKey : option bytes)
    (order : nat -> list nat) (fuel i : nat) (chunks : list bytes)
    (failureCount : nat) (events : list Event) : list Event * Loop (list bytes) :=
  if (i <? length segments)%nat then
    match fuel with
    | O => (events, Hangs)
    | S fuel' =>
        let batch := take batchSize (drop i segments) in
        match promiseAll (imap (hlsTask keyInfo decryptionKey i) batch)
                         (order i) failureCount with
        | (failureCount', Fulfilled results) =>
            hlsBatches videoId segments keyInfo decryptionKey order fuel'
              (i + batchSize) (chunks ++ present results) failureCount'
              (events ++ [Progress videoId (Nat.min (i + batchSize) (length segments))
                                   (length segments)])
        | (_, Rejected e) => (events, Throws e)
        | (_, Pending) => (events, Hangs)
        end
    end
  else (events, Completes chunks).

Definition downloadHLSSegments (order : nat -> list nat) (content baseUrl : string)
    (video : Video) : Run :=
  let segments := Hls.parseM3U8Segments resolveUrl content baseUrl in
  if (length segments =? 0)%nat then ([], Returned (Error "No segments found"))
  else
    let keyInfo := Hls.parseM3U8Key resolveUrl content baseUrl in
    let decryptionKey := decryptionKeyOf keyInfo in
    match hlsBatches (v_id video) segments keyInfo decryptionKey order
                     (length segments) 0 [] 0
                     [Progress (v_id video) 0 (length segments)] with
    | (events, Throws e) => (events, Thrown e)
    | (events, Hangs) => (events, Unsettled)
    | (events, Completes chunks) =>
        if (length chunks =? 0)%nat then (events, Returned (Error noSegmentsDownloaded))
        else
          save events
               (mkDownloadOptions (FromBlob (mkBlob chunks "video/mp2t"))
                                  (hlsFilename video) true)
               (Some (length segments))
    end.

Definition falsy (v : option string) : bool :=
  match v with Some s => is_empty s | None => true end.

Definition downloadHLS (order : nat -> list nat) (video : Video) : Run :=
  match net (ReqManifest (v_url video)) with
  | NetworkError e => ([], Thrown e)
  | Response ok status body =>
      if negb ok
      then ([], Returned (Error ("Failed to fetch manifest: HTTP " +:+ JsString.ofN status)))
      else
        let content := text body in
        let qualities := Hls.parseM3U8Master resolveUrl content (v_url video) in
        if (0 <? length qualities)%nat then
          let selected :=
            if falsy (selectedQuality video) then head qualities
            else find (fun q => String.eqb (Hls.q_url q)
                                           (default EmptyString (selectedQuality video)))
                      qualities in
          match selected with
          | None => ([], Returned (Error "Quality not found"))
          | Some sel =>
              match net (ReqPlaylist (Hls.q_url sel)) with
              | NetworkError e => ([], Thrown e)
              | Response ok' status' body' =>
                  if negb ok'
                  then ([], Returned (Error ("Failed to fetch media playlist: HTTP "
                                             +:+ JsString.ofN status')))
                  else downloadHLSSegments order (text body') (Hls.q_url sel) video
              end
          end
        else downloadHLSSegments order content (v_url video) video
  end.

(** *** DASH *)

(** One generated segment URL: [tmpl.media.replace('$Number$', num)
    .replace('$RepresentationID$', representation.id)]. *)
Definition segmentUrl (video : Video) (mediaTemplate id : string) (num : Z) : string :=
  resolveUrl (v_url video)
    (replace "$RepresentationID$" id
       (replace "$Number$" (integerToString (Int num)) mediaTemplate)).

(** The loop [for (num = ...; num < bound; num++) segments.push(...)];
    [None] when [fuel] turns do not reach its exit. *)
Fixpoint generate (video : Video) (mediaTemplate id : string) (bound : number)
    (fuel : nat) (num : Z) : option (list string) :=
  if JsNumber.lt (JsNumber.ofZ num) bound then
    match fuel with
    | O => None
    | S fuel' =>
        match generate video mediaTemplate id bound fuel' (num + 1)%Z with
        | Some l => Some (segmentUrl video mediaTemplate id num :: l)
        | None => None
        end
    end
  else Some [].

(** [Math.ceil(7200 / (tmpl.duration / tmpl.timescale))] *)
Definition maxSegments (tmpl : Dash.SegmentTemplate) : number :=
  let segmentDuration :=
    JsNumber.div (ofInteger (Dash.duration tmpl)) (ofInteger (Dash.timescale tmpl)) in
  JsNumber.ceil (JsNumber.div (JsNumber.ofN 7200) segmentDuration).

(** The list [segments] of [downloadDASHSegments]. *)
Definition generateSegments (fuel : nat) (video : Video) (representation : Dash.Representation)
    (tmpl : Dash.SegmentTemplate) : option (list string) :=
  let run (start : Z) :=
    generate video (default EmptyString (Dash.media tmpl)) (Dash.rep_id representation)
             (JsNumber.add (ofInteger (Dash.startNumber tmpl)) (maxSegments tmpl))
             fuel start in
  match Dash.startNumber tmpl with
  | Int start => run start
  | MinusZero => run 0%Z
  | NotANumber => Some []
  end.

Definition dashTask (i k : nat) (url : string) : Task unit bytes :=
  fun s =>
    match net (ReqSegment (i + k) url) with
    | NetworkError e => (s, inr e)
    | Response ok _ body => if ok then (s, inl body) else (s, inr "Segment 404")
    end.

(** The batch loop of [downloadDASHSegments] from index [i]. *)
Fixpoint dashBatches (videoId : string) (segments : list string)
    (order : nat -> list nat) (fuel i : nat) (chunks : list bytes)
    (downloadedCount : nat) (events : list Event) : list Event * Loop (list bytes) :=
  if (i <? length segments)%nat then
    match fuel with
    | O => (events, Hangs)
    | S fuel' =>
        let batch := take batchSize (drop i segments) in
        match promiseAll (imap (dashTask i) batch) (order i) tt with
        | (_, Fulfilled results) =>
            dashBatches videoId segments order fuel' (i + batchSize) (chunks ++ results)
              (downloadedCount + length results)
              (events ++ [Progress videoId (downloadedCount + length results)
                                   (length segments)])
        | (_, Rejected _) => (events, Completes chunks)
        | (_, Pending) => (events, Hangs)
        end
    end
  else (events, Completes chunks).

(** The chunk of the initialization segment, when there is one. *)
Definition initChunks (video : Video) (representation : Dash.Representation)
    (tmpl : Dash.SegmentTemplate) : list bytes :=
  if falsy (Dash.initialization tmpl) then []
  else
    let initUrl :=
      resolveUrl (v_url video)
        (replace "$RepresentationID$" (Dash.rep_id representation)
                 (default EmptyString (Dash.initialization tmpl))) in
    match net (ReqInit initUrl) with
    | Response true _ body => [body]
    | _ => []
    end.

(** The end of [downloadDASHSegments], after the batch loop. *)
Definition finishDASH (events : list Event) (chunks : list bytes) (video : Video) : Run :=
  if (length chunks =? 0)%nat then (events, Returned (Error "No DASH segments downloaded"))
  else
    save events
         (mkDownloadOptions (FromBlob (mkBlob chunks "video/mp4")) (dashFilename video) true)
         (Some (length chunks)).

(** [genFuel] bounds the turns of the generation loop: the run is
    [Unsettled] when the loop does not exit within it. *)
Definition downloadDASHSegments (order : nat -> list nat) (genFuel : nat)
    (representation : Dash.Representation) (video : Video) : Run :=
  match Dash.segmentTemplate representation with
  | None => ([], Returned (Error "No segment template"))
  | Some tmpl =>
      if falsy (Dash.media tmpl) then ([], Returned (Error "No segment template"))
      else
        match generateSegments genFuel video representation tmpl with
        | None => ([], Unsettled)
        | Some segments =>
            match dashBatches (v_id video) segments order (length segments) 0
                              (initChunks video representation tmpl) 0 [] with
            | (events, Throws e) => (events, Thrown e)
            | (events, Hangs) => (events, Unsettled)
            | (events, Completes chunks) => finishDASH events chunks video
            end
        end
  end.

Definition withUrl (video : Video) (url : string) : Video :=
  mkVideo (v_id video) url (v_type video) (v_filename video) (selectedQuality video).

Definition is_some {A : Type} (o : option A) : bool :=
  match o with Some _ => true | None => false end.

(** The default choice of [downloadDASH]. *)
Definition downloadBest (order : nat -> list nat) (genFuel : nat)
    (qualities : list Dash.Representation) (video : Video) : Run :=
  let distinct (q : Dash.Representation) :=
    negb (is_empty (Dash.rep_url q)) && negb (String.eqb (Dash.rep_url q) (v_url video)) in
  let best :=
    match find (fun q => Dash.rep_isVideo q && distinct q) qualities with
    | Some q => Some q
    | None => head qualities
    end in
  match best with
  | Some b =>
      if distinct b then downloadDirect (withUrl video (Dash.rep_url b))
      else if is_some (Dash.segmentTemplate b) then downloadDASHSegments order genFuel b video
      else ([], Returned (Error "Could not resolve DASH segments"))
  | None => ([], Returned (Error "Could not resolve DASH segments"))
  end.

(** [downloadDASH] after the manifest has been fetched and parsed. *)
Definition downloadParsedDASH (order : nat -> list nat) (genFuel : nat)
    (qualities : list Dash.Representation) (video : Video) : Run :=
  if (length qualities =? 0)%nat
  then ([], Returned (Error "No representations found in DASH manifest"))
  else
    let distinct (q : Dash.Representation) :=
      negb (is_empty (Dash.rep_url q)) && negb (String.eqb (Dash.rep_url q) (v_url video)) in
    if falsy (selectedQuality video) then downloadBest order genFuel qualities video
    else
      let wanted := default EmptyString (selectedQuality video) in
      match find (fun q => String.eqb (Dash.rep_url q) wanted
                           || String.eqb (Dash.rep_id q) wanted) qualities with
      | Some sel =>
          if distinct sel then downloadDirect (withUrl video (Dash.rep_url sel))
          else if is_some (Dash.segmentTemplate sel)
               then downloadDASHSegments order genFuel sel video
               else downloadBest order genFuel qualities video
      | None => downloadBest order genFuel qualities video
      end.

Definition downloadDASH (order : nat -> list nat) (genFuel : nat) (video : Video) : Run :=
  match net (ReqManifest (v_url video)) with
  | NetworkError e => ([], Thrown e)
  | Response ok status body =>
      if negb ok
      then ([], Returned (Error ("Failed to fetch MPD: HTTP " +:+ JsString.ofN status)))
      else
        downloadParsedDASH order genFuel
          (Dash.parseMPD resolveUrl (parseXml (text body)) (v_url video)) video
  end.

(** The handler [messageHandlers.downloadVideo]: an exception of the
    download becomes an error result. *)
Definition downloadVideo (order : nat -> list nat) (genFuel : nat) (video : option Video)
    : Run :=
  match video with
  | None => ([], Returned (Error "No video specified"))
  | Some v =>
      caught (if String.eqb (v_type v) "hls" then downloadHLS order v
              else if String.eqb (v_type v) "dash" then downloadDASH order genFuel v
              else downloadDirect v)
  end.

End WithPlatform.

End Engine.

(** ** Authenticated requests *)

Module Session.
Import JsString Auth Engine.

(** [l.join(sep)] *)
Fixpoint joinWith (sep : string) (l : list string) : string :=
  match l with
  | [] => EmptyString
  | [x] => x
  | x :: r => x +:+ sep +:+ joinWith sep r
  end.

Definition is_nil {A : Type} (l : list A) : bool :=
  match l with [] => true | _ :: _ => false end.

(** [{ ...current, cookie: cookieStr }] and [{ ...current, referer: url }] *)
Definition withCookie (current : Captured) (cookieStr : string) : Captured :=
  mkCaptured (Some cookieStr) (authorization current) (referer current) (origin current)
             (custom current).

Definition withReferer (current : Captured) (url : string) : Captured :=
  mkCaptured (cookie current) (authorization current) (Some url) (origin current)
             (custom current).

Section WithPlatform.
(** [fetch(url, { headers, credentials: 'include' })] for the entries of
    the [headers] object: what the promise of the [k]-th call of [fetch]
    within one call of [authenticatedFetch] settles to, counted from 0. *)
Variable fetch : nat -> string -> list (string * string) -> FetchOutcome.
(** [chrome.cookies.getAll({ url })]: the name and value of each cookie,
    [None] when the call throws. *)
Variable cookiesGetAll : string -> option (list (string * string)).
(** [(await chrome.tabs.get(tabId))?.url]; [None] when the call throws or
    the tab has no URL. *)
Variable tabUrl : Z -> option string.

(** [authenticatedFetch(url, tabId)], as every caller invokes it, without
    [extraOpts]. The retry after a status 401 or 403 stands inside the
    [try] block: when it is rejected, the [catch] block fetches once
    more. *)
Definition authenticatedFetch (tabRequestHeaders : gmap Z Captured) (url : string) (tab : Z)
    : FetchOutcome :=
  let authHeaders := buildAuthHeaders tab tabRequestHeaders in
  let hasAuth := negb (is_nil authHeaders) in
  match fetch 0 url authHeaders with
  | Response ok status body =>
      if ok then Response ok status body
      else if hasAuth && ((status =? 403)%N || (status =? 401)%N) then
        match fetch 1 url [] with
        | NetworkError _ => fetch 2 url []
        | retried => retried
        end
      else Response ok status body
  | NetworkError e => if hasAuth then fetch 1 url [] else NetworkError e
  end.

Definition getCookiesForUrl (url : string) : option string :=
  match cookiesGetAll url with
  | Some cookies =>
      if is_nil cookies then None
      else Some (joinWith "; " (map (fun c => fst c +:+ "=" +:+ snd c) cookies))
  | None => None
  end.

(** [ensureAuthHeaders(tabId, url)] as a function on the store
    [tabRequestHeaders], when no listener runs while it awaits. *)
Definition ensureAuthHeaders (tab : Z) (url : string) (tabRequestHeaders : gmap Z Captured)
    : gmap Z Captured :=
  let existing := tabRequestHeaders !! tab in
  if negb (Auth.falsy (existing ≫= cookie)) then tabRequestHeaders
  else
    let store1 :=
      match getCookiesForUrl url with
      | Some cookieStr =>
          if is_empty cookieStr then tabRequestHeaders
          else <[tab := withCookie (default Auth.empty (tabRequestHeaders !! tab)) cookieStr]>
                 tabRequestHeaders
      | None => tabRequestHeaders
      end in
    if negb (Auth.falsy (existing ≫= referer)) then store1
    else
      match tabUrl tab with
      | Some u =>
          if is_empty u then store1
          else <[tab := withReferer (default Auth.empty (store1 !! tab)) u]> store1
      | None => store1
      end.

End WithPlatform.

End Session.

(** ** The registry of detected videos *)

Module Registry.
Import JsString JsNumber Auth.

(** [s.includes(pat)] *)
Definition includes (pat s : string) : bool :=
  match first_match (fun t => if startsWith pat t then Some tt else None) s with
  | Some _ => true
  | None => false
  end.

(** [/p1|p2|.../i.test(s)] for literal alternatives given in lower case. *)
Definition test_any (pats : list string) (s : string) : bool :=
  existsb (fun p => includes p (toLowerCase s)) pats.

Definition AUDIO_EXTENSIONS : list string :=
  ["mp3"; "aac"; "ogg"; "wav"; "flac"; "m4a"; "opus"; "wma"].

(** The alternatives of [VIDEO_MIMETYPES], a pattern anchored at the
    start. *)
Definition VIDEO_MIMETYPES : list string :=
  ["video/"; "application/x-mpegurl"; "application/vnd.apple.mpegurl";
   "application/dash+xml"; "application/octet-stream"].

Definition isVideoMime (contentType : string) : bool :=
  existsb (fun p => startsWith p (toLowerCase contentType)) VIDEO_MIMETYPES.

Definition adPatterns : list string :=
  ["doubleclick"; "googlesyndication"; "adservice"; "analytics"; "tracking"; "pixel";
   "beacon"].

Definition isHlsResource (url contentType : string) : bool :=
  test_ext HLS_PATTERNS url || test_any ["mpegurl"] contentType.

Definition isDashResource (url contentType : string) : bool :=
  test_ext DASH_PATTERNS url || test_any ["dash+xml"] contentType.

Definition isAudioResource (url contentType : string) : bool :=
  test_ext AUDIO_EXTENSIONS url || startsWith "audio/" (toLowerCase contentType).

(** [classifyType(url, contentType)]; an absent content type is ['']. *)
Definition classifyType (url contentType : string) : string :=
  if isHlsResource url contentType then "hls"
  else if isDashResource url contentType then "dash"
  else if isAudioResource url contentType then "audio"
  else "direct".

(** A line terminator, which the dot of a pattern does not match. *)
Definition is_line_terminator (c : ascii) : bool :=
  Ascii.eqb c "010" || Ascii.eqb c "013".

(** [/full.?hd/] anchored at the start of a string in lower case. *)
Definition full_hd_at (t : string) : option unit :=
  if startsWith "fullhd" t then Some tt
  else if startsWith "full" t then
    match substring_from 4 t with
    | String c r => if negb (is_line_terminator c) && startsWith "hd" r then Some tt else None
    | EmptyString => None
    end
  else None.

(** [/hd(?!s)/] anchored at the start of a string in lower case. *)
Definition hd_at (t : string) : option unit :=
  if startsWith "hd" t && negb (startsWith "s" (substring_from 2 t)) then Some tt else None.

Definition matches (m : string -> option unit) (s : string) : bool :=
  match first_match m s with Some _ => true | None => false end.

(** [guessQuality] on the text [str] that it builds from the URL and the
    headers. *)
Definition guessQualityOf (str : string) : string :=
  let s := toLowerCase str in
  if test_any ["2160"; "4k"; "uhd"] str then "2160p"
  else if test_any ["1440"; "2k"] str then "1440p"
  else if test_any ["1080"; "fhd"] str || matches full_hd_at s then "1080p"
  else if test_any ["720"] str || matches hd_at s then "720p"
  else if test_any ["480"; "sd"] str then "480p"
  else if test_any ["360"] str then "360p"
  else if test_any ["240"] str then "240p"
  else if test_any ["144"] str then "144p"
  else "Unknown".

(** [x.toFixed(1)] for a rational [x >= 0]: the nearest multiple of a
    tenth, the larger one of two. *)
Definition toFixed1 (x : Q) : string :=
  let n := Z.to_N (Qfloor (x * 10 + (1 # 2))) in
  JsString.ofN (n / 10) +:+ "." +:+ JsString.ofN (n mod 10).

Definition units : list string := ["B"; "KB"; "MB"; "GB"].

(** The loop of [formatSize]: at most [units.length - 1] divisions. *)
Fixpoint shrink (turns : nat) (size : Q) (i : nat) : Q * nat :=
  match turns with
  | O => (size, i)
  | S turns' =>
      if Qle_bool 1024 size && (i <? 3)%nat then shrink turns' (size / 1024) (S i)
      else (size, i)
  end.

(** [formatSize(bytes)] for an integer number of bytes. Division by 1024
    is exact in binary floating point, so the value that [toFixed] rounds
    is the exact quotient. *)
Definition formatSize (bytes : Z) : string :=
  if (bytes <=? 0)%Z then "Unknown size"
  else
    let '(size, i) := shrink 3 (inject_Z bytes) 0 in
    toFixed1 size +:+ " " +:+ default "" (units !! i).

(** The object [headers] that the response listener builds, as the list
    of its entries: an assignment to a present key replaces its value
    where it stands. *)
Fixpoint objSet (k v : string) (o : list (string * string)) : list (string * string) :=
  match o with
  | [] => [(k, v)]
  | (k', v') :: r => if String.eqb k' k then (k, v) :: r else (k', v') :: objSet k v r
  end.

(** The argument [videoInfo] of [registerVideo]; [None] is an absent
    key. *)
Record VideoInfo : Type := mkVideoInfo {
  vi_url : string;
  vi_type : option string;
  vi_contentType : option string;
  vi_quality : option string;
  vi_size : option Z;
  vi_headers : option (list (string * string));
  vi_filename : option string;
  vi_pageUrl : option string;
  vi_pageTitle : option string;
  vi_duration : option number;
  vi_resolution : option string
}.

(** An entry of the registry. *)
Record VideoEntry : Type := mkVideoEntry {
  ve_id : string;
  ve_url : string;
  ve_type : string;
  ve_quality : string;
  ve_size : Z;
  ve_sizeFormatted : string;
  ve_filename : string;
  ve_pageUrl : string;
  ve_pageTitle : string;
  ve_contentType : string;
  ve_timestamp : Z;
  ve_headers : list (string * string);
  ve_duration : option number;
  ve_resolution : option string
}.

(** The object [settings]. *)
Record Settings : Type := mkSettings {
  blacklistedDomains : list string;
  minSize : Z;
  autoDetect : bool;
  showNotifications : bool;
  maxConcurrentDownloads : integer;
  preferredQuality : string;
  filenameTemplate : string
}.

(** What the registry does to the browser. *)
Inductive Effect : Type :=
| SetBadgeText (tab : Z) (text : string)
| SetBadgeBackgroundColor (tab : Z) (color : string)
| SetTitle (tab : Z) (title : string)
| VideoDetected (tab : Z) (video : VideoEntry)
| Notification (id message : string).

(** [a || d] on an optional string. *)
Definition or_default (a : option string) (d : string) : string :=
  match a with
  | Some s => if is_empty s then d else s
  | None => d
  end.

(** [a || null] on an optional string. *)
Definition or_null (a : option string) : option string :=
  match a with
  | Some s => if is_empty s then None else Some s
  | None => None
  end.

(** [url.split('?')[0]] *)
Definition beforeQuery (url : string) : string := default "" (head (split "?" url)).

Definition isManifestType (type : string) : bool :=
  String.eqb type "hls" || String.eqb type "dash".

(** The URL by which [registerVideo] compares: without the query string
    for a manifest. *)
Definition normalize (type url : string) : string :=
  if isManifestType type then beforeQuery url else url.

(** [videos.set(entry.id, entry)] on the entries of a [Map] in insertion
    order. *)
Fixpoint mapSet (entry : VideoEntry) (videos : list VideoEntry) : list VideoEntry :=
  match videos with
  | [] => [entry]
  | x :: r => if String.eqb (ve_id x) (ve_id entry) then entry :: r else x :: mapSet entry r
  end.

(** [videos.delete(videoId)] *)
Definition mapDelete (videoId : string) (videos : list VideoEntry) : list VideoEntry :=
  List.filter (fun x => negb (String.eqb (ve_id x) videoId)) videos.

(** [updateBadge(tabId)] *)
Definition updateBadge (tab : Z) (tabVideos : gmap Z (list VideoEntry)) : list Effect :=
  let count := match tabVideos !! tab with Some videos => length videos | None => 0 end in
  if (0 <? count)%nat then
    [SetBadgeText tab (JsString.ofN (N.of_nat count));
     SetBadgeBackgroundColor tab "#e53935";
     SetTitle tab ("VideoMancer - " +:+ JsString.ofN (N.of_nat count) +:+ " video(s) detected")]
  else
    [SetBadgeText tab ""; SetTitle tab "VideoMancer - No videos detected"].

(** [Array.prototype.sort] with [(a, b) => b.timestamp - a.timestamp]:
    the sort is stable, so each entry goes before the first later entry
    that is not newer. *)
Fixpoint insertNewest (x : VideoEntry) (l : list VideoEntry) : list VideoEntry :=
  match l with
  | [] => [x]
  | y :: r => if (ve_timestamp y <=? ve_timestamp x)%Z then x :: l else y :: insertNewest x r
  end.

Definition sortNewest (l : list VideoEntry) : list VideoEntry := foldr insertNewest [] l.

Section WithPlatform.
(** [new URL(url).hostname] and [new URL(url).pathname]; [None] when the
    constructor throws. *)
Variable hostname : string -> option string.
Variable pathname : string -> option string.
(** [decodeURIComponent(s)]; [None] when it throws. *)
Variable decodeURIComponent : string -> option string.
(** [JSON.stringify(headers)] on the entries of the object. *)
Variable stringify : list (string * string) -> string.

Definition extractFilename (url : string) : option string :=
  match pathname url with
  | Some p =>
      let last := List.last (split "/" p) "" in
      if negb (is_empty last) && includes "." last
      then decodeURIComponent (default "" (head (split "?" last)))
      else None
  | None => None
  end.

Definition guessQuality (url : string) (headers : option (list (string * string))) : string :=
  guessQualityOf (url +:+ " " +:+ stringify (default [] headers)).

Definition isBlacklisted (settings : Settings) (url : string) : bool :=
  match hostname url with
  | Some h => existsb (fun d => includes d h) (blacklistedDomains settings)
  | None => false
  end.

(** The entry that [registerVideo] builds; [id] is the value of
    [generateId()] and [now] that of [Date.now()]. *)
Definition entryOf (id : string) (now : Z) (videoInfo : VideoInfo) : VideoEntry :=
  let size := match vi_size videoInfo with Some z => z | None => 0%Z end in
  mkVideoEntry id (vi_url videoInfo)
    (or_default (vi_type videoInfo)
                (classifyType (vi_url videoInfo) (default "" (vi_contentType videoInfo))))
    (or_default (vi_quality videoInfo)
                (guessQuality (vi_url videoInfo) (vi_headers videoInfo)))
    size (formatSize size)
    (or_default (vi_filename videoInfo)
                (or_default (extractFilename (vi_url videoInfo)) "video"))
    (or_default (vi_pageUrl videoInfo) "")
    (or_default (vi_pageTitle videoInfo) "")
    (or_default (vi_contentType videoInfo) "")
    now
    (default [] (vi_headers videoInfo))
    (match vi_duration videoInfo with
     | Some d => if is_zero d || match d with NaN => true | _ => false end then None
                 else Some d
     | None => None
     end)
    (or_null (vi_resolution videoInfo)).

(** [registerVideo(tabId, videoInfo)] on the store [tabVideos]. *)
Definition registerVideo (settings : Settings) (id : string) (now : Z) (tab : Z)
    (videoInfo : VideoInfo) (tabVideos : gmap Z (list VideoEntry))
    : gmap Z (list VideoEntry) * list Effect :=
  if negb (autoDetect settings) then (tabVideos, [])
  else if isBlacklisted settings (vi_url videoInfo) then (tabVideos, [])
  else
    let videos := default [] (tabVideos !! tab) in
    let tabVideos1 := <[tab := videos]> tabVideos in
    let normalizedUrl := normalize (default "" (vi_type videoInfo)) (vi_url videoInfo) in
    if existsb (fun existing =>
                  String.eqb (normalize (ve_type existing) (ve_url existing)) normalizedUrl)
               videos
    then (tabVideos1, [])
    else
      let entry := entryOf id now videoInfo in
      let videos' := mapSet entry videos in
      let tabVideos2 := <[tab := videos']> tabVideos1 in
      (tabVideos2,
       updateBadge tab tabVideos2
       ++ [VideoDetected tab entry]
       ++ (if showNotifications settings && (length videos' =? 1)%nat
           then [Notification ("vm-" +:+ integerToString (Int tab))
                              ("Video detected: " +:+ ve_filename entry)]
           else [])).

(** The details of a response, as the listener of [onHeadersReceived]
    reads them. *)
Record ResponseDetails : Type := mkResponseDetails {
  r_tabId : Z;
  r_type : string;
  r_url : string;
  responseHeaders : option (list Header)
}.

(** One turn of the loop over [details.responseHeaders], on [headers],
    [contentType] and [contentLength]. *)
Definition read_header (acc : list (string * string) * string * Z) (h : Header)
    : list (string * string) * string * Z :=
  let '(headers, contentType, contentLength) := acc in
  let name := toLowerCase (h_name h) in
  (objSet name (h_value h) headers,
   (if String.eqb name "content-type" then h_value h else contentType),
   (if String.eqb name "content-length"
    then match parseInt (h_value h) with Int z => z | _ => 0%Z end
    else contentLength)).

(** The listener of [chrome.webRequest.onHeadersReceived]. *)
Definition onHeadersReceived (settings : Settings) (id : string) (now : Z)
    (details : ResponseDetails) (tabVideos : gmap Z (list VideoEntry))
    : gmap Z (list VideoEntry) * list Effect :=
  if (r_tabId details <? 0)%Z then (tabVideos, [])
  else if String.eqb (r_type details) "main_frame" then (tabVideos, [])
  else
    let url := r_url details in
    let '(headers, contentType, contentLength) :=
      fold_left read_header (default [] (responseHeaders details)) ([], "", 0%Z) in
    let isVideoUrl := test_ext VIDEO_EXTENSIONS url in
    let isHls := isHlsResource url contentType in
    let isDash := isDashResource url contentType in
    let isAudio := isAudioResource url contentType in
    if negb isVideoUrl && negb (isVideoMime contentType) && negb isHls && negb isDash
       && negb isAudio
    then (tabVideos, [])
    else if negb isHls && negb isDash && (0 <? contentLength)%Z
            && (contentLength <? minSize settings)%Z
    then (tabVideos, [])
    else if test_any adPatterns url then (tabVideos, [])
    else
      registerVideo settings id now (r_tabId details)
        (mkVideoInfo url
           (Some (if isHls then "hls" else if isDash then "dash"
                  else if isAudio then "audio" else "direct"))
           (Some contentType) None (Some contentLength) (Some headers)
           None None None None None)
        tabVideos.

(** The listener of [chrome.webRequest.onBeforeRequest]. *)
Definition onBeforeRequest (settings : Settings) (id : string) (now : Z) (tab : Z)
    (url : string) (tabVideos : gmap Z (list VideoEntry)) : gmap Z (list VideoEntry) * list Effect :=
  let info (type : string) :=
    mkVideoInfo url (Some type) None None None None None None None None None in
  if (tab <? 0)%Z then (tabVideos, [])
  else if test_ext HLS_PATTERNS url
  then registerVideo settings id now tab (info "hls") tabVideos
  else if test_ext DASH_PATTERNS url
  then registerVideo settings id now tab (info "dash") tabVideos
  else (tabVideos, []).

End WithPlatform.

(** The handler [getVideos]: the entries of the tab, newest first. *)
Definition getVideos (tab : Z) (tabVideos : gmap Z (list VideoEntry)) : list VideoEntry :=
  match tabVideos !! tab with
  | Some videos => sortNewest videos
  | None => []
  end.

(** The handler [clearVideos]. *)
Definition clearVideos (tab : Z) (tabVideos : gmap Z (list VideoEntry))
    : gmap Z (list VideoEntry) * list Effect :=
  let tabVideos' := delete tab tabVideos in
  (tabVideos', updateBadge tab tabVideos').

(** The handler [removeVideo]. *)
Definition removeVideo (tab : Z) (videoId : string) (tabVideos : gmap Z (list VideoEntry))
    : gmap Z (list VideoEntry) * list Effect :=
  match tabVideos !! tab with
  | Some videos =>
      let tabVideos' := <[tab := mapDelete videoId videos]> tabVideos in
      (tabVideos', updateBadge tab tabVideos')
  | None => (tabVideos, [])
  end.

(** The two stores of the service worker. *)
Record Stores : Type := mkStores {
  tabVideos : gmap Z (list VideoEntry);
  tabRequestHeaders : gmap Z Captured
}.

(** The listener of [chrome.tabs.onRemoved]. *)
Definition onRemoved (tab : Z) (s : Stores) : Stores :=
  mkStores (delete tab (tabVideos s)) (delete tab (tabRequestHeaders s)).

(** The listener of [chrome.tabs.onUpdated]; [loading] tells that
    [changeInfo.status] is ['loading']. *)
Definition onUpdated (tab : Z) (loading : bool) (s : Stores) : Stores * list Effect :=
  if loading then
    let s' := onRemoved tab s in
    (s', updateBadge tab (tabVideos s'))
  else (s, []).

End Registry.

(** ** The options page *)

Module Options.
Import JsString JsNumber Registry.

(** The values of the form when [saveSettings] runs. *)
Record Form : Type := mkForm {
  autoDetect_checked : bool;
  showNotifications_checked : bool;
  preferredQuality_value : string;
  maxConcurrent_value : string;
  minSize_value : string;
  filenameTemplate_value : string;
  blacklist_value : string
}.

(** [DEFAULTS.filenameTemplate] *)
Definition defaultTemplate : string := "{title} - {quality}".

(** The object that [saveSettings] stores under the key [settings]. *)
Definition saveSettings (form : Form) : Settings :=
  mkSettings
    (List.filter (fun d => (0 <? String.length d)%nat)
                 (map trim (split "010" (blacklist_value form))))
    ((match parseInt (minSize_value form) with
      | Int z => if (z =? 0)%Z then 100 else z
      | _ => 100
      end) * 1024)%Z
    (autoDetect_checked form)
    (showNotifications_checked form)
    (parseInt (maxConcurrent_value form))
    (preferredQuality_value form)
    (if is_empty (filenameTemplate_value form) then defaultTemplate
     else filenameTemplate_value form).

End Options.

(** ** Vocabulary of the statements *)

Module Spec.
Import JsString JsNumber Engine.

(** *** Results of a batch *)

(** The slots of a batch after the values [val k] of the positions in
    [order] have been stored. *)
Definition fill {A : Type} (val : nat -> A) (slots : list (option A)) (order : list nat)
    : list (option A) :=
  foldl (fun sl k => <[k := Some (val k)]> sl) slots order.

(** What [Promise.all] settles to once no fetch is outstanding. *)
Definition settled {A : Type} (slots : list (option A)) : Settled A :=
  match mapM id slots with
  | Some vs => Fulfilled vs
  | None => Pending
  end.

(** Number of [null] results. *)
Definition nulls (l : list (option bytes)) : nat :=
  length (filter (fun o => o = None) l).

(** Number of [true] flags. *)
Definition count (l : list bool) : nat :=
  length (filter (fun x => x = true) l).

Definition isProgress (e : Event) : Prop :=
  match e with Progress _ _ _ => True | Download _ => False end.

(** A character that [sanitizeFilename] leaves in place. *)
Definition allowed (c : ascii) : bool := negb (forbidden c).

(** [s.endsWith(suffix)] *)
Fixpoint endsWith (suffix s : string) : bool :=
  String.eqb suffix s
  || match s with
     | EmptyString => false
     | String _ r => endsWith suffix r
     end.

Section Hls.
Variable net : Request -> FetchOutcome.
Variable subtleDecrypt : bytes -> bytes -> bytes -> option bytes.
Variable keyInfo : option Hls.KeyInfo.
Variable decryptionKey : option bytes.

(** The fetch of the segment at [index] settles with a response. *)
Definition responds (index : nat) (seg : Hls.Segment) : Prop :=
  match net (ReqSegment index (Hls.seg_url seg)) with
  | Response _ _ _ => True
  | NetworkError _ => False
  end.

(** The fetch of the segment at [index] is answered with [ok]. *)
Definition succeeds (index : nat) (seg : Hls.Segment) : Prop :=
  match net (ReqSegment index (Hls.seg_url seg)) with
  | Response true _ _ => True
  | _ => False
  end.

(** The fetch of the segment at [index] is answered without [ok]. *)
Definition fails (index : nat) (seg : Hls.Segment) : bool :=
  match net (ReqSegment index (Hls.seg_url seg)) with
  | Response false _ _ => true
  | _ => false
  end.

(** What the segment at [index] adds to [results]: its bytes, or [null]. *)
Definition contribution (index : nat) (seg : Hls.Segment) : option bytes :=
  match net (ReqSegment index (Hls.seg_url seg)) with
  | Response true _ body => Some (segmentData subtleDecrypt keyInfo decryptionKey index body)
  | _ => None
  end.

(** The bytes of the segment at [index] as they enter the output: the
    body of the response, decrypted when the playlist has a key. *)
Definition segmentBytes (index : nat) (seg : Hls.Segment) : bytes :=
  match net (ReqSegment index (Hls.seg_url seg)) with
  | Response _ _ body => segmentData subtleDecrypt keyInfo decryptionKey index body
  | NetworkError _ => []
  end.

(** The value at position [k] of the batch that starts at [i]. *)
Definition hlsVal (batch : list Hls.Segment) (i k : nat) : option bytes :=
  batch !! k ≫= contribution (i + k).

Definition answered (batch : list Hls.Segment) (i : nat) (order : list nat) : Prop :=
  forall k, k ∈ order -> exists seg, batch !! k = Some seg /\ responds (i + k) seg.

Definition allAnswered (batch : list Hls.Segment) (i : nat) : Prop :=
  forall k seg, batch !! k = Some seg -> responds (i + k) seg.

(** The [results] of the batch that starts at [i], by position. *)
Definition batchResults (batch : list Hls.Segment) (i : nat) : list (option bytes) :=
  imap (fun k => contribution (i + k)) batch.

(** The slots of the batch that starts at [i] hold only values of the
    batch, and [fc] has counted the [null] ones since [fc0]. *)
Definition consistent (batch : list Hls.Segment) (i fc0 fc : nat)
    (slots : list (option (option bytes))) : Prop :=
  length slots = length batch
  /\ (forall k v, slots !! k = Some (Some v) ->
        exists seg, batch !! k = Some seg /\ responds (i + k) seg
                    /\ v = contribution (i + k) seg)
  /\ fc = fc0 + nulls (omap id slots).

(** The [results] of all batches, by position in the segment list. *)
Definition allResults (segments : list Hls.Segment) : list (option bytes) :=
  imap contribution segments.

Definition everyFetchResponds (segments : list Hls.Segment) : Prop :=
  forall index seg, segments !! index = Some seg -> responds index seg.

Definition everyFetchSucceeds (segments : list Hls.Segment) : Prop :=
  forall index seg, segments !! index = Some seg -> succeeds index seg.

Definition failedFetches (segments : list Hls.Segment) : nat :=
  count (imap fails segments).
End Hls.

(** Every fetch of every batch settles: the order of arrival of a batch is
    a permutation of its positions. *)
Definition everyFetchSettles {A : Type} (maxConcurrentDownloads : nat) (segments : list A)
    (order : nat -> list nat) : Prop :=
  forall i, i < length segments ->
    order i ≡ₚ seq 0 (length (take (batchSize maxConcurrentDownloads) (drop i segments))).

(** The progress messages of the batch loop from index [i]. *)
Fixpoint progressFrom (maxConcurrentDownloads : nat) (videoId : string) (n fuel i : nat)
    : list Event :=
  if (i <? n)%nat then
    match fuel with
    | O => []
    | S fuel' =>
        Progress videoId (Nat.min (i + batchSize maxConcurrentDownloads) n) n
          :: progressFrom maxConcurrentDownloads videoId n fuel'
                          (i + batchSize maxConcurrentDownloads)
    end
  else [].

Definition hlsOptions (video : Video) (chunks : list bytes) : DownloadOptions :=
  mkDownloadOptions (FromBlob (mkBlob chunks "video/mp2t")) (hlsFilename video) true.

Section Dash.
Variable net : Request -> FetchOutcome.

(** The fetch of the generated URL at [index] is answered with [ok]. *)
Definition okAt (index : nat) (url : string) : bool :=
  match net (ReqSegment index url) with
  | Response true _ _ => true
  | _ => false
  end.

Definition bodyAt (index : nat) (url : string) : bytes :=
  match net (ReqSegment index url) with
  | Response _ _ body => body
  | NetworkError _ => []
  end.

Definition dashVal (batch : list string) (i k : nat) : bytes :=
  match batch !! k with Some url => bodyAt (i + k) url | None => [] end.

(** The bodies of the generated segments, by position. *)
Definition bodies (segments : list string) : list bytes := imap bodyAt segments.
End Dash.

(** The cookie stored for a tab, and a custom header stored for it. *)
Definition storedCookie (tab : Z) (store : gmap Z Auth.Captured) : option string :=
  match store !! tab with
  | Some c => Auth.cookie c
  | None => None
  end.

Definition storedCustom (tab : Z) (name : string) (store : gmap Z Auth.Captured)
    : option string :=
  match store !! tab with
  | Some c => match Auth.custom c with
              | Some m => m !! name
              | None => None
              end
  | None => None
  end.

(** The descriptor without a requested quality. *)
Definition clearQuality (video : Video) : Video :=
  mkVideo (v_id video) (v_url video) (v_type video) (v_filename video) None.

(** *** Playlists *)

(** [a] may stand before [b] in a list sorted by descending [bw]. *)
Definition descending {A : Type} (bw : A -> N) (a b : A) : Prop := (bw b <= bw a)%N.

(** [a] may stand before [b] in a list sorted by strictly descending
    [bw]. *)
Definition strictlyDescending {A : Type} (bw : A -> N) (a b : A) : Prop :=
  (bw b < bw a)%N.

Definition isnt (c : ascii) (x : ascii) : bool := negb (Ascii.eqb x c).

Definition newline : ascii := "010".

Definition oneLine (l : string) : Prop := all (isnt newline) l = true.

(** A line that [parseM3U8Segments] passes over: blank, or a tag other
    than EXTINF. *)
Definition passedOver (l : string) : Prop :=
  is_empty (trim l) || (startsWith "#" (trim l) && negb (startsWith "#EXTINF:" (trim l)))
  = true.

(** A decimal duration: digits, then optionally a dot and digits. *)
Definition decimal (d : string) : bool :=
  let '(ip, r) := span is_digit d in
  negb (is_empty ip)
  && match r with
     | EmptyString => true
     | String c fp => Ascii.eqb c "." && all is_digit fp
     end.

(** An EXTINF/URI pair of a media playlist: the duration and the title of
    the EXTINF tag, the tag lines between the tag and the URI line, and
    the URI line. *)
Record Entry : Type := mkEntry {
  e_duration : string;
  e_title : string;
  e_between : list string;
  e_uri : string
}.

Definition extinf (e : Entry) : string :=
  "#EXTINF:" +:+ e_duration e +:+ "," +:+ e_title e.

Definition render (e : Entry) : list string :=
  extinf e :: e_between e ++ [e_uri e].

Definition wellFormed (e : Entry) : Prop :=
  decimal (e_duration e) = true
  /\ oneLine (e_title e)
  /\ Forall (fun l => oneLine l /\ passedOver l) (e_between e)
  /\ oneLine (e_uri e)
  /\ is_empty (trim (e_uri e)) = false
  /\ startsWith "#" (trim (e_uri e)) = false.

(** The text of a media playlist with the given header lines, pairs and
    trailing lines. *)
Definition playlist (header : list string) (entries : list Entry) (footer : list string)
    : string :=
  join newline (header ++ flat_map render entries ++ footer).

(** The segment that an EXTINF/URI pair stands for. *)
Definition segmentOf (resolveUrl : string -> string -> string) (baseUrl : string)
    (e : Entry) : Hls.Segment :=
  Hls.mkSegment (resolveUrl baseUrl (trim (e_uri e))) (parseFloat (e_duration e)).

End Spec.

(** ** Further vocabulary of the statements *)

Module Terms.
Import JsString JsNumber Auth Engine Session Registry.

(** Every whitespace character of [s] is a single space that follows a
    character other than whitespace; [after_space] tells that the previous
    character was whitespace, and holds at the start of a name. *)
Fixpoint singleSpaced (after_space : bool) (s : string) : bool :=
  match s with
  | EmptyString => true
  | String c r =>
      if is_space c then Ascii.eqb c " " && negb after_space && singleSpaced true r
      else singleSpaced false r
  end.

(** A character that [sanitizeFilename] neither replaces nor collapses. *)
Definition plain (c : ascii) : bool := negb (is_space c) && Spec.allowed c.

(** No suffix of the list ends with another one. *)
Definition suffixFree (suffixes : list string) : bool :=
  forallb (fun s1 => forallb (fun s2 => String.eqb s1 s2 || negb (Spec.endsWith s2 s1)) suffixes)
          suffixes.

(** A line that stands for a URI: neither empty nor a tag or comment. *)
Definition uriLine (l : string) : bool := negb (is_empty l) && negb (startsWith "#" l).

(** The trimmed lines of a playlist. *)
Definition linesOf (content : string) : list string := map trim (split "010" content).

(** What [downloadHLS] does once it has chosen the media playlist at
    [url]. *)
Definition fetchPlaylist (net : Request -> FetchOutcome)
    (segmentsRun : string -> string -> Run) (url : string) : Run :=
  match net (ReqPlaylist url) with
  | NetworkError e => ([], Thrown e)
  | Response ok status body =>
      if ok then segmentsRun (text body) url
      else ([], Returned (Error ("Failed to fetch media playlist: HTTP "
                                 +:+ JsString.ofN status)))
  end.

(** A progress message of the download [videoId] over [total] segments
    that reports no more than [total]. *)
Definition reports (videoId : string) (total : nat) (e : Event) : Prop :=
  match e with
  | Progress id current total' => id = videoId /\ total' = total /\ current <= total
  | Download _ => False
  end.

Definition isOk (c : Completion) : bool :=
  match c with Returned (Ok _ _) => true | _ => false end.

(** The unsigned integer that a list of bytes stands for, the most
    significant byte first. *)
Definition bigEndian (l : list Byte.byte) : N :=
  fold_left (fun acc b => (256 * acc + Byte.to_N b)%N) l 0%N.

(** Half a unit in the last place of a binary64 number, relative to the
    number: [2^-53]. *)
Definition unitRoundoff : Q := 1 # (2 ^ 53).

(** The position of a character in a string. *)
Fixpoint position (c : ascii) (s : string) : option N :=
  match s with
  | EmptyString => None
  | String x r => if Ascii.eqb x c then Some 0%N else option_map N.succ (position c r)
  end.

(** The value of a hexadecimal digit of either letter case. *)
Definition hexDigit (c : ascii) : N := default 0%N (position (lower c) "0123456789abcdef").

(** The number that a string of hexadecimal digits denotes. *)
Definition hexNumber (s : string) : N :=
  fold_left (fun acc c => (16 * acc + hexDigit c)%N) (list_ascii_of_string s) 0%N.

(** The value of the last header of the request whose name is [name] in
    lower case. *)
Definition lastHeader (name : string) (hs : list Header) : option string :=
  fold_left (fun acc h => if String.eqb (toLowerCase (h_name h)) name
                          then Some (h_value h) else acc) hs None.

(** The name of a header that the listener stores under [custom]. *)
Definition customName (k : string) : bool :=
  startsWith "x-" (toLowerCase k) || String.eqb (toLowerCase k) "range".

(** The custom headers of a captured object are headers that the
    listener stores as such. *)
Definition customOnly (c : Captured) : Prop :=
  forall m k v, custom c = Some m -> m !! k = Some v -> customName k = true.

(** The stores of captured headers that the service worker can reach
    from the empty one: by a request that the listener sees, by
    [ensureAuthHeaders], and by the removal or the reload of a tab. *)
Inductive reachable (urlOrigin : string -> option string)
    (cookiesGetAll : string -> option (list (string * string)))
    (tabUrl : Z -> option string) : gmap Z Captured -> Prop :=
| reach_empty : reachable urlOrigin cookiesGetAll tabUrl ∅
| reach_request details store :
    reachable urlOrigin cookiesGetAll tabUrl store ->
    reachable urlOrigin cookiesGetAll tabUrl (onBeforeSendHeaders urlOrigin details store)
| reach_ensure tab url store :
    reachable urlOrigin cookiesGetAll tabUrl store ->
    reachable urlOrigin cookiesGetAll tabUrl
              (Session.ensureAuthHeaders cookiesGetAll tabUrl tab url store)
| reach_removed tab store :
    reachable urlOrigin cookiesGetAll tabUrl store ->
    reachable urlOrigin cookiesGetAll tabUrl (delete tab store).

(** The URL by which the registry compares an entry. *)
Definition normalized (e : VideoEntry) : string := normalize (ve_type e) (ve_url e).

(** The entries of a tab form a [Map], one entry per id, and no two of
    them stand for the same URL. *)
Definition distinct (videos : list VideoEntry) : Prop :=
  NoDup (map ve_id videos) /\ NoDup (map normalized videos).

(** [a] may stand before [b] in a list with the newest entry first. *)
Definition newerFirst (a b : VideoEntry) : Prop := (ve_timestamp b <= ve_timestamp a)%Z.

(** The number of bytes divided [k] times by 1024. *)
Definition scaled (bytes : Z) (k : nat) : Q :=
  Nat.iter k (fun q => q / 1024)%Q (inject_Z bytes).

(** The text of the badge for [count] videos. *)
Definition badgeText (count : nat) : string :=
  if (0 <? count)%nat then JsString.ofN (N.of_nat count) else "".

(** The number of videos that the registry holds for a tab. *)
Definition videoCount (tab : Z) (tabVideos : gmap Z (list VideoEntry)) : nat :=
  length (default [] (tabVideos !! tab)).

(** An operation on the registry keeps the badge of the tab up to date:
    it changed the number of its videos only if it told the browser, and
    every badge text it set is the one of the tab for the new number. *)
Definition badgeFollows (tab : Z) (before : gmap Z (list VideoEntry))
    (after : gmap Z (list VideoEntry) * list Effect) : Prop :=
  (snd after = [] /\ videoCount tab (fst after) = videoCount tab before)
  \/ (SetBadgeText tab (badgeText (videoCount tab (fst after))) ∈ snd after
      /\ forall t text, SetBadgeText t text ∈ snd after ->
                        t = tab /\ text = badgeText (videoCount tab (fst after))).

End Terms.

(** ** Concrete playlists, manifests and networks *)

Module Examples.
Import JsString JsNumber Engine Spec.

(** A resolver for relative URIs under one directory. *)
Definition resolve (base rel : string) : string := "https://cdn.example/" +:+ rel.

Definition noDecrypt (key iv data : bytes) : option bytes := None.

Definition download (opts : DownloadOptions) : nat + string := inl 1.

Definition lines (l : list string) : string := join newline l.

(** Scenario A: a master playlist listing 3,000,000 then 1,200,000. *)
Definition scenarioA : string :=
  lines ["#EXTM3U";
         "#EXT-X-STREAM-INF:BANDWIDTH=3000000,RESOLUTION=1280x720";
         "high/index.m3u8";
         "#EXT-X-STREAM-INF:BANDWIDTH=1200000,RESOLUTION=640x360";
         "low/index.m3u8"].

(** Two variants of the same bandwidth, a main and a backup stream. *)
Definition scenarioTie : string :=
  lines ["#EXTM3U";
         "#EXT-X-STREAM-INF:BANDWIDTH=1200000,RESOLUTION=640x360";
         "main/index.m3u8";
         "#EXT-X-STREAM-INF:BANDWIDTH=1200000,RESOLUTION=640x360";
         "backup/index.m3u8"].

(** The same variants listed in ascending order. *)
Definition scenarioA' : string :=
  lines ["#EXTM3U";
         "#EXT-X-STREAM-INF:BANDWIDTH=1200000,RESOLUTION=640x360";
         "low/index.m3u8";
         "#EXT-X-STREAM-INF:BANDWIDTH=3000000,RESOLUTION=1280x720";
         "high/index.m3u8"].

(** Scenario B: a media playlist of two segments. *)
Definition scenarioB : string :=
  lines ["#EXTINF:6.006,"; "seg1.ts"; "#EXTINF:6.006,"; "seg2.ts"].

Definition scenarioBEntries : list Entry :=
  [mkEntry "6.006" "" [] "seg1.ts"; mkEntry "6.006" "" [] "seg2.ts"].

(** A media playlist of six segments. *)
Definition sixSegments : string :=
  lines ["#EXTM3U"; "#EXT-X-TARGETDURATION:4";
         "#EXTINF:4.0,"; "s0.ts"; "#EXTINF:4.0,"; "s1.ts"; "#EXTINF:4.0,"; "s2.ts";
         "#EXTINF:4.0,"; "s3.ts"; "#EXTINF:4.0,"; "s4.ts"; "#EXTINF:4.0,"; "s5.ts";
         "#EXT-X-ENDLIST"].

(** A network that serves [manifest] as the manifest, refuses the segments
    at the positions [bad] with [status], and serves every other segment
    with one byte that tells its position. *)
Definition network (manifest : string) (bad : nat -> bool) (status : N) (r : Request)
    : FetchOutcome :=
  match r with
  | ReqManifest _ => Response true 200 (list_byte_of_string manifest)
  | ReqSegment i _ =>
      if bad i then Response false status []
      else Response true 200 [byte_of (N.of_nat i)]
  | _ => Response false 404 []
  end.

Definition none (i : nat) : bool := false.
Definition every (i : nat) : bool := true.
Definition only (k i : nat) : bool := (i =? k)%nat.

(** The base URL of Scenario B. *)
Definition baseB : string := "https://cdn.example/path/index.m3u8".

(** Every segment is served. *)
Definition netOk : Request -> FetchOutcome := network "" none 404.

(** The six-segment playlist is served, and every segment refused. *)
Definition netRefused : Request -> FetchOutcome := network sixSegments every 403.

(** The six-segment playlist is served, and the fifth segment refused. *)
Definition netOneRefused : Request -> FetchOutcome := network sixSegments (only 4) 404.

(** The fifth generated segment is refused. *)
Definition netDash : Request -> FetchOutcome := network "" (only 4) 404.

(** The master playlist of Scenario A is served as the manifest. *)
Definition netMaster : Request -> FetchOutcome := network scenarioA none 404.

(** The fetches of each batch settle in request order. *)
Definition inOrder (maxConcurrentDownloads n i : nat) : list nat :=
  seq 0 (Nat.min (batchSize maxConcurrentDownloads) (n - i)).

(** The fetches of each batch settle in the reverse of request order. *)
Definition reversed (maxConcurrentDownloads n i : nat) : list nat :=
  rev (seq 0 (Nat.min (batchSize maxConcurrentDownloads) (n - i))).

Definition hlsVideo : Video :=
  mkVideo "v1" "https://cdn.example/index.m3u8" "hls" (Some "lecture.m3u8") None.

Definition dashVideo : Video :=
  mkVideo "v2" "https://cdn.example/manifest.mpd" "dash" (Some "lecture.mpd") None.

Definition withQuality (video : Video) (wanted : string) : Video :=
  mkVideo (v_id video) (v_url video) (v_type video) (v_filename video) (Some wanted).

Definition withFilename (video : Video) (name : string) : Video :=
  mkVideo (v_id video) (v_url video) (v_type video) (Some name) (selectedQuality video).

(** An MPD with one video representation and a segment template of six
    segments of 1200 seconds. *)
Definition mpd : Dash.Node :=
  Dash.Element "MPD" []
    [Dash.Element "Period" []
       [Dash.Element "AdaptationSet" [("mimeType", "video/mp4")]
          [Dash.Element "SegmentTemplate"
             [("media", "chunk-$Number$.m4s"); ("startNumber", "1"); ("duration", "1200")] [];
           Dash.Element "Representation"
             [("id", "v720"); ("bandwidth", "3000000"); ("width", "1280"); ("height", "720")]
             []]]].

(** The same MPD with a segment template that has no timing attributes,
    as a template with a segment timeline has. *)
Definition mpdNoDuration : Dash.Node :=
  Dash.Element "MPD" []
    [Dash.Element "Period" []
       [Dash.Element "AdaptationSet" [("mimeType", "video/mp4")]
          [Dash.Element "SegmentTemplate" [("media", "chunk-$Number$.m4s")] [];
           Dash.Element "Representation"
             [("id", "v720"); ("bandwidth", "3000000"); ("width", "1280"); ("height", "720")]
             []]]].

Definition xml (tree : Dash.Node) (content : string) : Dash.Node := tree.

Definition mpdQualities : list Dash.Representation :=
  Dash.parseMPD resolve mpd (v_url dashVideo).

Definition mpdTemplate : Dash.SegmentTemplate :=
  Dash.mkSegmentTemplate None (Some "chunk-$Number$.m4s") (Int 1) (Int 1) (Int 1200).

Definition mpdRepresentation : Dash.Representation :=
  Dash.mkRepresentation "v720" "https://cdn.example/manifest.mpd" (Int 3000000)
    (Int 1280) (Int 720) (Some "1280x720") "" "video/mp4" true false "720p ()"
    (Some mpdTemplate).

Definition mpdSegments : list string :=
  map (fun k => resolve "" ("chunk-" +:+ JsString.ofN k +:+ ".m4s")) [1; 2; 3; 4; 5; 6]%N.

(** A name of 250 letters. *)
Definition longName : string := string_of_list_ascii (replicate 250 "a"%char).

(** The captured headers of a tab before and a later request of its page. *)
Definition stored : Auth.Captured :=
  Auth.mkCaptured (Some "session=abc") None (Some "https://site.example/watch") None
                  (Some {[ "X-Token" := "t1" ]}).

Definition laterRequest : Auth.Details :=
  Auth.mkDetails 7 "https://cdn.example/v/seg1.ts"
    (Some [Auth.mkHeader "Cookie" ""; Auth.mkHeader "X-Playback-Session" "p9"]).

End Examples.

(** ** Further concrete inputs *)

Module Cases.
Import JsString JsNumber Auth Engine Session Registry Spec Examples.

(** Every segment is refused with status 403. *)
Definition netAllRefused : Request -> FetchOutcome := network "" every 403.

(** A decryption service that hands back what it is given. *)
Definition decryptAll (key iv data : bytes) : option bytes := Some data.

(** A decryption service that answers with the IV it is given. *)
Definition echoIv (key iv data : bytes) : option bytes := Some iv.

(** A template of audio segments of 362880 ticks at 44100 ticks per
    second: two hours hold exactly 875 of them. *)
Definition audioTemplate : Dash.SegmentTemplate :=
  Dash.mkSegmentTemplate None (Some "audio-$Number$.m4s") (Int 1) (Int 44100) (Int 362880).

(** The origin of the URLs of the content network. *)
Definition cdnOrigin (url : string) : option string := Some "https://cdn.example".

(** A request of the tab that names its referring page. *)
Definition refererRequest : Details :=
  mkDetails 7 "https://cdn.example/v/seg3.ts"
    (Some [mkHeader "Referer" "https://site.example/lesson/2"]).

(** The first variant of Scenario A, and a download that requests it. *)
Definition highQuality : Hls.Quality :=
  Hls.mkQuality "https://cdn.example/high/index.m3u8" 3000000 (Some "1280x720") 720 "720p".

Definition masterVideo : Video := withQuality hlsVideo "https://cdn.example/high/index.m3u8".

(** URLs without an origin, no cookies in the browser, and a tab without
    a URL. *)
Definition noOrigin (url : string) : option string := None.
Definition noCookies (url : string) : option (list (string * string)) := None.
Definition noTabUrl (tab : Z) : option string := None.

(** Two cookies of the browser for every URL. *)
Definition browserCookies (url : string) : option (list (string * string)) :=
  Some [("session", "abc"); ("theme", "dark")].

(** The store with the captured headers of tab 7. *)
Definition capturedStore : gmap Z Captured := {[ 7%Z := stored ]}.

(** A later request of the tab with credentials. *)
Definition signedRequest : Details :=
  mkDetails 7 "https://cdn.example/v/seg2.ts"
    (Some [mkHeader "cookie" "session=old"; mkHeader "Authorization" "Bearer t0";
           mkHeader "Cookie" "session=new"]).

(** A server that refuses every request that carries headers with status
    403 and serves every other one. *)
Definition refusesHeaders (k : nat) (url : string) (headers : list (string * string))
    : FetchOutcome :=
  if is_nil headers then Response true 200 [Byte.x01] else Response false 403 [].

(** The platform of the registry: every URL is of one host and path, and
    headers print as an empty object. *)
Definition host (url : string) : option string := Some "cdn.example".
Definition path (url : string) : option string := Some "/v/clip.mp4".
Definition decode (s : string) : option string := Some s.
Definition printed (headers : list (string * string)) : string := "{}".

Definition detecting : Settings :=
  mkSettings ["ads.example"] 102400 true true (Int 3) "highest" "{title} - {quality}".

(** A manifest, and the same manifest with another token. *)
Definition manifestInfo : VideoInfo :=
  mkVideoInfo "https://cdn.example/v/index.m3u8?tok=1" (Some "hls")
              None None None None None None None None None.

Definition manifestAgain : VideoInfo :=
  mkVideoInfo "https://cdn.example/v/index.m3u8?tok=2" (Some "hls")
              None None None None None None None None None.

(** The response of a media file of 2,000,000 bytes. *)
Definition mediaResponse : ResponseDetails :=
  mkResponseDetails 5 "media" "https://cdn.example/v/clip.mp4"
    (Some [mkHeader "Content-Type" "video/mp4"; mkHeader "Content-Length" "2000000"]).

Definition mediaInfo : VideoInfo :=
  mkVideoInfo "https://cdn.example/v/clip.mp4" (Some "direct") (Some "video/mp4") None
              (Some 2000000%Z)
              (Some [("content-type", "video/mp4"); ("content-length", "2000000")])
              None None None None None.

End Cases.

(** * Properties *)

(** ** Strings *)

Module StringFacts.
Import JsString Spec.

Lemma app_cons x (a b : string) : String x a +:+ b = String x (a +:+ b).
Proof. reflexivity. Qed.

Lemma app_assoc (a b c : string) : (a +:+ b) +:+ c = a +:+ (b +:+ c).
Proof. induction a as [|x a IH]; [done|]. rewrite !app_cons. by rewrite IH. Qed.

Lemma app_empty_r (a : string) : a +:+ "" = a.
Proof. induction a as [|x a IH]; [done|]. rewrite app_cons. by rewrite IH. Qed.

Lemma all_app p (a b : string) : all p (a +:+ b) = all p a && all p b.
Proof.
  unfold all. induction a as [|x a IH]; simpl; [done|].
  rewrite IH. by rewrite andb_assoc.
Qed.

Lemma all_cons p c (s : string) : all p (String c s) = p c && all p s.
Proof. done. Qed.

Lemma all_impl (p q : ascii -> bool) (s : string) :
  (forall c, p c = true -> q c = true) -> all p s = true -> all q s = true.
Proof.
  intros Hpq. unfold all. induction s as [|c s IH]; simpl; [done|].
  intros H. apply andb_true_iff in H as [Hc Hs].
  apply andb_true_iff. split; [by apply Hpq|by apply IH].
Qed.

Lemma startsWith_app (p s : string) : startsWith p (p +:+ s) = true.
Proof.
  unfold startsWith. induction p as [|c p IH]; simpl.
  - by destruct s.
  - destruct (ascii_dec c c); [done|congruence].
Qed.

(** A string whose first character differs from that of [p] does not
    start with [p]. *)
Lemma startsWith_head c p d s :
  c <> d -> startsWith (String c p) (String d s) = false.
Proof. unfold startsWith. simpl. intros H. by destruct (ascii_dec c d). Qed.

Lemma startsWith_tag (t : string) :
  startsWith "#" t = false -> startsWith "#EXTINF:" t = false.
Proof.
  destruct t as [|c t]; [done|].
  destruct (ascii_dec "#" c) as [<-|Hne].
  - intros H. pose proof (startsWith_app "#" t) as H'.
    change ("#" +:+ t) with (String "#" t) in H'. congruence.
  - intros _. by apply startsWith_head.
Qed.

Lemma split_without c (s : string) : all (isnt c) s = true -> split c s = [s].
Proof.
  induction s as [|a s IH]; [done|].
  rewrite all_cons. intros H. apply andb_true_iff in H as [Ha Hs].
  simpl. unfold isnt in Ha. apply negb_true_iff in Ha. rewrite Ha.
  by rewrite IH.
Qed.

Lemma split_nonempty c s : split c s <> [].
Proof.
  induction s as [|a s IH]; simpl; [done|].
  destruct (Ascii.eqb a c); [done|]. by destruct (split c s).
Qed.

Lemma split_app_sep c (x s : string) :
  all (isnt c) x = true -> split c (x +:+ String c s) = x :: split c s.
Proof.
  induction x as [|a x IH].
  - intros _. simpl. by rewrite Ascii.eqb_refl.
  - rewrite all_cons. intros H. apply andb_true_iff in H as [Ha Hx].
    simpl. unfold isnt in Ha. apply negb_true_iff in Ha. rewrite Ha.
    by rewrite IH.
Qed.

(** The first field of a split extends a prefix free of the separator. *)
Lemma split_head c (a s : string) :
  all (isnt c) a = true -> exists x rest, split c (a +:+ s) = (a +:+ x) :: rest.
Proof.
  induction a as [|y a IH].
  - intros _. simpl. destruct (split c s) as [|x rest] eqn:H.
    + by apply split_nonempty in H.
    + by exists x, rest.
  - rewrite all_cons. intros H. apply andb_true_iff in H as [Hy Ha].
    destruct (IH Ha) as (x & rest & Heq).
    simpl. unfold isnt in Hy. apply negb_true_iff in Hy. rewrite Hy, Heq.
    by exists x, rest.
Qed.

Lemma split_join c (lines : list string) :
  lines <> [] -> Forall (fun l => all (isnt c) l = true) lines ->
  split c (join c lines) = lines.
Proof.
  induction lines as [|x lines IH]; [done|].
  intros _ Hall. apply Forall_cons in Hall as [Hx Hall].
  destruct lines as [|y lines].
  - simpl. by apply split_without.
  - change (join c (x :: y :: lines)) with (x +:+ String c (join c (y :: lines))).
    rewrite split_app_sep by done. by rewrite IH.
Qed.

Lemma span_app p (a b : string) :
  all p a = true ->
  match b with EmptyString => True | String c _ => p c = false end ->
  span p (a +:+ b) = (a, b).
Proof.
  induction a as [|x a IH].
  - intros _ Hb. destruct b as [|c b]; simpl; [done|]. by rewrite Hb.
  - rewrite all_cons. intros H Hb. apply andb_true_iff in H as [Hx Ha].
    simpl. rewrite Hx, IH by done. done.
Qed.

Lemma span_spec p (s : string) :
  match span p s with
  | (a, b) => s = a +:+ b /\ all p a = true
              /\ match b with EmptyString => True | String c _ => p c = false end
  end.
Proof.
  induction s as [|c s IH]; simpl; [done|].
  destruct (p c) eqn:Hc.
  - destruct (span p s) as [a b]. destruct IH as (-> & Ha & Hb).
    rewrite all_cons, Hc. done.
  - by rewrite Hc.
Qed.

Lemma trimEnd_app_keep (a : string) c (t : string) :
  is_space c = false -> trimEnd (a +:+ String c t) = a +:+ String c (trimEnd t).
Proof.
  intros Hc. induction a as [|x a IH]; simpl.
  - by rewrite Hc.
  - rewrite IH. destruct a; simpl; by rewrite andb_false_r.
Qed.

Lemma trimStart_keep c (s : string) :
  is_space c = false -> trimStart (String c s) = String c s.
Proof. intros Hc. simpl. by rewrite Hc. Qed.

Lemma digit_props c :
  is_digit c = true ->
  is_space c = false /\ c <> "-"%char /\ c <> "+"%char /\ c <> "I"%char.
Proof.
  intros H.
  destruct c as [[] [] [] [] [] [] [] []]; try discriminate H; repeat split; done.
Qed.

Lemma digit_isnt c x : is_digit c = false -> is_digit x = true -> isnt c x = true.
Proof.
  intros Hc Hx. unfold isnt. apply negb_true_iff, Ascii.eqb_neq. congruence.
Qed.

Lemma span_digits_until c (ds t : string) :
  all is_digit ds = true -> is_digit c = false ->
  span is_digit (ds +:+ String c t) = (ds, String c t).
Proof. intros Hds Hc. by apply span_app. Qed.

Lemma span_digits_end (ds : string) :
  all is_digit ds = true -> span is_digit ds = (ds, "").
Proof.
  intros Hds. rewrite <- (app_empty_r ds) at 1. by apply span_app.
Qed.

End StringFacts.

(** ** Playlist parsers *)

Module PlaylistFacts.
Import JsString JsNumber Hls Spec StringFacts.

Section Sorting.
Context {A : Type}.
Variable bw : A -> N.

Lemma insert_desc_elem x l y : y ∈ insert_desc bw x l -> y = x \/ y ∈ l.
Proof.
  induction l as [|z l IH]; simpl.
  - intros H. apply list_elem_of_singleton in H. by left.
  - destruct (bw x <? bw z)%N.
    + intros H. apply elem_of_cons in H as [->|H].
      * right. apply elem_of_cons. by left.
      * destruct (IH H) as [->|Hy]; [by left|]. right. apply elem_of_cons. by right.
    + intros H. apply elem_of_cons in H. tauto.
Qed.

Lemma insert_desc_sorted x l :
  StronglySorted (descending bw) l -> StronglySorted (descending bw) (insert_desc bw x l).
Proof.
  induction 1 as [|z l Hs IH Hall]; simpl.
  - repeat constructor.
  - destruct (bw x <? bw z)%N eqn:Hlt.
    + apply N.ltb_lt in Hlt. constructor; [done|].
      apply Forall_forall. intros y Hy.
      destruct (insert_desc_elem _ _ _ Hy) as [->|Hin]; [unfold descending; lia|].
      by eapply Forall_forall in Hall.
    + apply N.ltb_ge in Hlt. constructor.
      * by constructor.
      * constructor; [done|].
        eapply Forall_impl; [exact Hall|]. unfold descending. intros; lia.
Qed.

Lemma sort_desc_sorted l : StronglySorted (descending bw) (sort_desc bw l).
Proof.
  induction l as [|x l IH]; simpl; [constructor|]. by apply insert_desc_sorted.
Qed.

Lemma insert_desc_perm x l : insert_desc bw x l ≡ₚ x :: l.
Proof.
  induction l as [|z l IH]; simpl; [done|].
  destruct (bw x <? bw z)%N; [|done]. rewrite IH. apply perm_swap.
Qed.

Lemma sort_desc_perm l : sort_desc bw l ≡ₚ l.
Proof.
  induction l as [|x l IH]; simpl; [done|].
  rewrite insert_desc_perm. by rewrite IH.
Qed.

(** An entry passes only entries of another bandwidth. *)
Lemma insert_desc_filter (v : N) x l :
  List.filter (fun y => (bw y =? v)%N) (insert_desc bw x l)
  = List.filter (fun y => (bw y =? v)%N) (x :: l).
Proof.
  induction l as [|z l IH]; [done|]. cbn [insert_desc].
  destruct (bw x <? bw z)%N eqn:Hlt; [|done].
  apply N.ltb_lt in Hlt. cbn [List.filter] in *. rewrite IH.
  destruct (bw x =? v)%N eqn:Hx; [|done].
  apply N.eqb_eq in Hx.
  by replace (bw z =? v)%N with false by (symmetry; apply N.eqb_neq; lia).
Qed.

(** The sort is stable: the entries of one bandwidth keep their order. *)
Lemma sort_desc_stable (v : N) l :
  List.filter (fun y => (bw y =? v)%N) (sort_desc bw l)
  = List.filter (fun y => (bw y =? v)%N) l.
Proof.
  induction l as [|x l IH]; [done|]. cbn [sort_desc foldr].
  rewrite insert_desc_filter. cbn [List.filter]. fold (sort_desc bw l).
  by rewrite IH.
Qed.

(** Where no two bandwidths are equal the order is strict. *)
Lemma sorted_strict l :
  StronglySorted (descending bw) l -> NoDup (map bw l) ->
  StronglySorted (strictlyDescending bw) l.
Proof.
  induction 1 as [|z l Hs IH Hall]; [constructor|].
  rewrite map_cons. intros Hnd. apply NoDup_cons in Hnd as [Hz Hnd].
  constructor; [by apply IH|].
  apply Forall_forall. intros y Hy.
  assert (bw y <> bw z).
  { intros Heq. apply Hz. rewrite <- Heq. apply list_elem_of_In, in_map.
    by apply list_elem_of_In. }
  eapply Forall_forall in Hall; [|exact Hy].
  unfold descending in Hall. unfold strictlyDescending. lia.
Qed.
End Sorting.

(** C7, amended. [parseM3U8Master] returns the variants of the playlist,
    the same entries as in the file, in descending order of bandwidth in
    the wide sense: every entry has at least the bandwidth of every entry
    after it, and the variants of one bandwidth stand in the order of the
    file. The order is strict where no two variants have the same
    bandwidth. The master playlist of Scenario A, with variants of
    3,000,000 and 1,200,000, yields the order 3000000, 1200000, whichever
    of the two the file lists first. *)
Theorem parseM3U8Master_sorted_descending (resolveUrl : string -> string -> string)
    (content baseUrl : string) :
  let parsed := stream_infs resolveUrl baseUrl (map trim (split "010" content)) in
  let result := parseM3U8Master resolveUrl content baseUrl in
  StronglySorted (descending q_bandwidth) result
  /\ result ≡ₚ parsed
  /\ (forall v, List.filter (fun q => (q_bandwidth q =? v)%N) result
                = List.filter (fun q => (q_bandwidth q =? v)%N) parsed)
  /\ (NoDup (map q_bandwidth parsed) ->
      StronglySorted (strictlyDescending q_bandwidth) result)
  /\ map q_bandwidth (parseM3U8Master resolveUrl Examples.scenarioA baseUrl)
     = [3000000; 1200000]%N
  /\ map q_bandwidth (parseM3U8Master resolveUrl Examples.scenarioA' baseUrl)
     = [3000000; 1200000]%N.
Proof.
  cbv zeta. split; [apply sort_desc_sorted|]. split; [apply sort_desc_perm|].
  split; [intros v; apply sort_desc_stable|]. split.
  - intros Hnd. apply sorted_strict; [apply sort_desc_sorted|].
    unfold parseM3U8Master. by rewrite sort_desc_perm.
  - split; reflexivity.
Qed.

Lemma decimal_parts d :
  decimal d = true ->
  exists c ip frac,
    d = String c ip +:+ frac /\ is_digit c = true /\ all is_digit ip = true
    /\ (frac = "" \/ exists fp, frac = String "." fp /\ all is_digit fp = true).
Proof.
  unfold decimal. pose proof (span_spec is_digit d) as Hs.
  destruct (span is_digit d) as [ip r]. destruct Hs as (-> & Hip & Hr).
  intros H. apply andb_true_iff in H as [Hne Hfrac].
  destruct ip as [|c ip]; [done|].
  rewrite all_cons in Hip. apply andb_true_iff in Hip as [Hc Hip].
  exists c, ip, r. split; [done|]. split; [done|]. split; [done|].
  destruct r as [|x fp]; [by left|]. right.
  apply andb_true_iff in Hfrac as [Hx Hfp]. apply Ascii.eqb_eq in Hx as ->.
  by exists fp.
Qed.

Lemma decimal_chars d c :
  decimal d = true ->
  (forall x, is_digit x = true -> isnt c x = true) -> isnt c "." = true ->
  all (isnt c) d = true.
Proof.
  intros Hd Hdig Hdot.
  destruct (decimal_parts d Hd) as (x & ip & frac & -> & Hx & Hip & Hfrac).
  rewrite all_app, all_cons, (Hdig x Hx), (all_impl is_digit _ ip Hdig Hip).
  destruct Hfrac as [->|(fp & -> & Hfp)]; [done|].
  by rewrite all_cons, Hdot, (all_impl is_digit _ fp Hdig Hfp).
Qed.

(** [parseFloat] reads a decimal duration and stops at the comma. *)
Lemma parseFloat_comma d t :
  decimal d = true -> parseFloat (d +:+ String "," t) = parseFloat d.
Proof.
  intros Hd. destruct (decimal_parts d Hd) as (c & ip & frac & -> & Hc & Hip & Hfrac).
  destruct (digit_props c Hc) as (Hsp & Hminus & Hplus & HI).
  assert (forall s, sign_of (String c s) = (false, String c s)) as Hsign.
  { intros s. unfold sign_of.
    destruct c as [[] [] [] [] [] [] [] []]; try done; by exfalso. }
  assert (all is_digit (String c ip) = true) as Hall
    by (rewrite all_cons, Hc, Hip; done).
  unfold parseFloat.
  change ((String c ip +:+ frac) +:+ String "," t)
    with (String c ((ip +:+ frac) +:+ String "," t)).
  change (String c ip +:+ frac) with (String c (ip +:+ frac)).
  rewrite !trimStart_keep, !Hsign by done.
  rewrite !(startsWith_head "I" _ c) by done.
  destruct Hfrac as [->|(fp & -> & Hfp)].
  - rewrite app_empty_r.
    change (String c (ip +:+ String "," t)) with (String c ip +:+ String "," t).
    rewrite span_digits_until, span_digits_end by done.
    reflexivity.
  - rewrite app_assoc.
    change (String c (ip +:+ String "." fp +:+ String "," t))
      with (String c ip +:+ String "." (fp +:+ String "," t)).
    change (String c (ip +:+ String "." fp)) with (String c ip +:+ String "." fp).
    rewrite !span_digits_until by done.
    cbv iota beta.
    rewrite span_digits_end by done.
    reflexivity.
Qed.

Section Segments.
Variable resolveUrl : string -> string -> string.
Variable baseUrl : string.

Lemma loop_passed l d rest :
  passedOver l ->
  segments_from resolveUrl baseUrl d (trim l :: rest)
  = segments_from resolveUrl baseUrl d rest.
Proof.
  unfold passedOver. intros H. cbn [segments_from].
  apply orb_true_iff in H as [H|H].
  - destruct (trim l); [done|discriminate H].
  - apply andb_true_iff in H as [H1 H2].
    apply negb_true_iff in H2. rewrite H2, H1.
    by rewrite andb_false_r.
Qed.

Lemma loop_passed_all ls d rest :
  Forall passedOver ls ->
  segments_from resolveUrl baseUrl d (map trim ls ++ rest)
  = segments_from resolveUrl baseUrl d rest.
Proof.
  induction 1 as [|l ls Hl _ IH]; [done|].
  rewrite map_cons, <- app_comm_cons, loop_passed by done. exact IH.
Qed.

Lemma loop_uri u d rest :
  is_empty (trim u) = false -> startsWith "#" (trim u) = false ->
  segments_from resolveUrl baseUrl d (trim u :: rest)
  = mkSegment (resolveUrl baseUrl (trim u)) d
      :: segments_from resolveUrl baseUrl (JsNumber.ofN 0) rest.
Proof.
  intros Hne Htag. cbn [segments_from].
  by rewrite (startsWith_tag _ Htag), Hne, Htag.
Qed.

Lemma trim_extinf d title :
  trim ("#EXTINF:" +:+ d +:+ "," +:+ title)
  = "#EXTINF" +:+ String ":" (d +:+ String "," (trimEnd title)).
Proof.
  unfold trim.
  change ("#EXTINF:" +:+ d +:+ "," +:+ title)
    with (String "#" ("EXTINF:" +:+ d +:+ String "," title)).
  rewrite trimStart_keep by done.
  change (String "#" ("EXTINF:" +:+ d +:+ String "," title))
    with ("#EXTINF:" +:+ (d +:+ String "," title)).
  rewrite <- app_assoc, trimEnd_app_keep by done.
  by rewrite app_assoc.
Qed.

Lemma loop_extinf e d rest :
  decimal (e_duration e) = true ->
  segments_from resolveUrl baseUrl d (trim (extinf e) :: rest)
  = segments_from resolveUrl baseUrl (parseFloat (e_duration e)) rest.
Proof.
  intros Hd. unfold extinf. rewrite trim_extinf. cbn [segments_from].
  set (body := e_duration e +:+ String "," (trimEnd (e_title e))).
  assert (startsWith "#EXTINF:" ("#EXTINF" +:+ String ":" body) = true) as ->
    by apply (startsWith_app "#EXTINF:" body).
  subst body.
  rewrite split_app_sep by done.
  destruct (split_head ":" (e_duration e +:+ ",") (trimEnd (e_title e)))
    as (x & tail & Hsplit).
  { rewrite all_app. rewrite (decimal_chars _ ":" Hd); [done| |done].
    intros y Hy. by apply digit_isnt. }
  rewrite app_assoc in Hsplit.
  change ("," +:+ trimEnd (e_title e)) with (String "," (trimEnd (e_title e))) in Hsplit.
  rewrite Hsplit. cbn [lookup list_lookup].
  rewrite app_assoc. change ("," +:+ x) with (String "," x).
  by rewrite parseFloat_comma.
Qed.

Lemma loop_entry e d rest :
  wellFormed e ->
  segments_from resolveUrl baseUrl d (map trim (render e) ++ rest)
  = segmentOf resolveUrl baseUrl e
      :: segments_from resolveUrl baseUrl (JsNumber.ofN 0) rest.
Proof.
  intros (Hd & _ & Hbetween & _ & Hne & Htag).
  unfold render. rewrite map_cons, map_app, <- app_comm_cons.
  rewrite loop_extinf by done.
  rewrite <- List.app_assoc.
  rewrite loop_passed_all by (eapply Forall_impl; [exact Hbetween|by intros ? [_ ?]]).
  change (map trim [e_uri e] ++ rest) with (trim (e_uri e) :: rest).
  by rewrite loop_uri.
Qed.

Lemma loop_entries entries d footer :
  Forall wellFormed entries -> Forall passedOver footer ->
  segments_from resolveUrl baseUrl d (map trim (flat_map render entries ++ footer))
  = map (segmentOf resolveUrl baseUrl) entries.
Proof.
  intros Hwf Hfoot. revert d. induction Hwf as [|e entries He _ IH]; intros d.
  - change (flat_map render [] ++ footer) with footer.
    rewrite <- (app_nil_r (map trim footer)).
    by rewrite loop_passed_all.
  - change (flat_map render (e :: entries)) with (render e ++ flat_map render entries).
    rewrite <- List.app_assoc, map_app.
    rewrite loop_entry by done. rewrite IH. done.
Qed.

Lemma oneLine_render e : wellFormed e -> Forall oneLine (render e).
Proof.
  intros (Hd & Htitle & Hbetween & Huri & _).
  unfold render. constructor.
  - unfold oneLine, extinf. rewrite !all_app, Htitle.
    rewrite (decimal_chars _ newline Hd); [done| |done].
    intros y Hy. by apply digit_isnt.
  - apply Forall_app. split; [|by constructor].
    eapply Forall_impl; [exact Hbetween|]. by intros ? [? _].
Qed.

(** C8. A media playlist made of header lines, N EXTINF/URI pairs and
    trailing lines, where every other line is blank or a tag, parses to
    exactly N segments in file order; each has the duration of the
    EXTINF tag before its URI line and that URI resolved against the
    base URL. The playlist of Scenario B parses to its two segments of
    duration 6.006. *)
Theorem parseM3U8Segments_pairs header entries footer :
  Forall (fun l => oneLine l /\ passedOver l) header ->
  Forall wellFormed entries ->
  Forall (fun l => oneLine l /\ passedOver l) footer ->
  parseM3U8Segments resolveUrl (playlist header entries footer) baseUrl
  = map (segmentOf resolveUrl baseUrl) entries
  /\ length (parseM3U8Segments resolveUrl (playlist header entries footer) baseUrl)
     = length entries
  /\ parseM3U8Segments resolveUrl Examples.scenarioB baseUrl
     = [mkSegment (resolveUrl baseUrl "seg1.ts") (Finite (6006 # 1000));
        mkSegment (resolveUrl baseUrl "seg2.ts") (Finite (6006 # 1000))].
Proof.
  intros Hhead Hwf Hfoot.
  assert (parseM3U8Segments resolveUrl (playlist header entries footer) baseUrl
          = map (segmentOf resolveUrl baseUrl) entries) as Heq.
  { unfold parseM3U8Segments, playlist.
    destruct (decide (header ++ flat_map render entries ++ footer = [])) as [Hnil|Hne].
    - rewrite Hnil. apply app_eq_nil in Hnil as [_ Hnil].
      apply app_eq_nil in Hnil as [Hnil _].
      destruct entries as [|e entries]; [done|]. done.
    - change "010"%char with newline. rewrite split_join; [|done|].
      + rewrite map_app, loop_passed_all
          by (eapply Forall_impl; [exact Hhead|by intros ? [_ ?]]).
        apply loop_entries; [done|].
        eapply Forall_impl; [exact Hfoot|]. by intros ? [_ ?].
      + apply Forall_app. split.
        { eapply Forall_impl; [exact Hhead|]. by intros ? [? _]. }
        apply Forall_app. split.
        { apply Forall_flat_map. eapply Forall_impl; [exact Hwf|].
          intros e He. by apply oneLine_render. }
        eapply Forall_impl; [exact Hfoot|]. by intros ? [? _]. }
  split; [done|]. split; [by rewrite Heq, length_map|]. reflexivity.
Qed.
End Segments.

End PlaylistFacts.

(** ** Promise.all over a batch *)

Module PromiseFacts.
Import Engine Spec.

Section Slots.
Context {A : Type}.
Variable val : nat -> A.

Lemma length_fill slots order : length (fill val slots order) = length slots.
Proof.
  revert slots; induction order as [|k order IH]; intros slots; simpl; [done|].
  rewrite IH. apply length_insert.
Qed.

Lemma lookup_fill slots order j :
  j < length slots ->
  fill val slots order !! j
  = if decide (j ∈ order) then Some (Some (val j)) else slots !! j.
Proof.
  revert slots; induction order as [|k order IH]; intros slots Hlt.
  - rewrite decide_False; [done|]. apply not_elem_of_nil.
  - change (fill val slots (k :: order))
      with (fill val (<[k := Some (val k)]> slots) order).
    rewrite IH by (rewrite length_insert; done).
    destruct (decide (j ∈ order)) as [Hj|Hj].
    + rewrite decide_True by (rewrite elem_of_cons; tauto). done.
    + destruct (decide (j = k)) as [->|Hne].
      * rewrite decide_True by (rewrite elem_of_cons; tauto).
        by apply list_lookup_insert_eq.
      * rewrite decide_False by (rewrite elem_of_cons; tauto).
        by apply list_lookup_insert_ne.
Qed.

(** Once every position has arrived the values stand in position
    order, whatever the order of arrival. *)
Lemma fill_complete slots order :
  order ≡ₚ seq 0 (length slots) ->
  mapM id (fill val slots order) = Some (val <$> seq 0 (length slots)).
Proof.
  intros Hperm.
  assert (fill val slots order = Some <$> (val <$> seq 0 (length slots))) as ->.
  { apply list_eq; intros j.
    rewrite !list_lookup_fmap.
    destruct (decide (j < length slots)) as [Hlt|Hge].
    - rewrite lookup_fill by done.
      rewrite decide_True by (rewrite Hperm; apply elem_of_seq; lia).
      by rewrite lookup_seq_lt.
    - rewrite lookup_seq_ge; [|lia]. simpl.
      apply lookup_ge_None. rewrite length_fill. lia. }
  by apply mapM_fmap_Some.
Qed.
End Slots.

Lemma nulls_cons o l : nulls (o :: l) = (if o is None then 1 else 0) + nulls l.
Proof.
  unfold nulls. rewrite filter_cons. destruct o.
  - rewrite decide_False by done. done.
  - rewrite decide_True by done. done.
Qed.

Lemma nulls_app l1 l2 : nulls (l1 ++ l2) = nulls l1 + nulls l2.
Proof. unfold nulls. rewrite filter_app. apply length_app. Qed.

Lemma nulls_perm l1 l2 : l1 ≡ₚ l2 -> nulls l1 = nulls l2.
Proof. intros H. unfold nulls. by rewrite H. Qed.

Lemma present_nulls l : length (present l) + nulls l = length l.
Proof.
  induction l as [|o l IH]; [done|].
  rewrite nulls_cons. destruct o; simpl; unfold present in *; simpl; lia.
Qed.

Lemma present_Some (l : list bytes) : present (Some <$> l) = l.
Proof. unfold present. induction l as [|x l IH]; [done|]. simpl. f_equal. apply IH. Qed.

Lemma nulls_Some (l : list bytes) : nulls (Some <$> l) = 0.
Proof. induction l as [|x l IH]; [done|]. rewrite fmap_cons, nulls_cons. by rewrite IH. Qed.

Lemma nulls_count {A : Type} (f : nat -> A -> option bytes) (g : nat -> A -> bool) l :
  (forall i x, l !! i = Some x -> f i x = None <-> g i x = true) ->
  nulls (imap f l) = count (imap g l).
Proof.
  revert f g; induction l as [|x l IH]; intros f g H; [done|].
  cbn [imap]. rewrite nulls_cons. unfold count. rewrite filter_cons.
  fold (count (imap (g ∘ S) l)).
  rewrite (IH (f ∘ S) (g ∘ S)) by (intros i y Hy; apply (H (S i) y Hy)).
  pose proof (H 0 x eq_refl) as H0.
  destruct (f 0 x) eqn:Hf, (g 0 x) eqn:Hg.
  - exfalso. by destruct H0 as [_ H0]; specialize (H0 eq_refl).
  - rewrite decide_False by done. done.
  - rewrite decide_True by done. done.
  - exfalso. by destruct H0 as [H0 _]; specialize (H0 eq_refl).
Qed.

Lemma batchSize_pos m : 0 < batchSize m.
Proof. unfold batchSize, batchSizeOf. destruct m; lia. Qed.

(** The two orders of arrival of the examples settle every fetch. *)
Lemma inOrder_settles {A : Type} m (segments : list A) :
  everyFetchSettles m segments (Examples.inOrder m (length segments)).
Proof.
  intros i Hi. unfold Examples.inOrder. by rewrite length_take, length_drop.
Qed.

Lemma reversed_settles {A : Type} m (segments : list A) :
  everyFetchSettles m segments (Examples.reversed m (length segments)).
Proof.
  intros i Hi. unfold Examples.reversed. rewrite length_take, length_drop.
  symmetry. apply Permutation_rev.
Qed.

Section HlsBatch.
Variable net : Request -> FetchOutcome.
Variable subtleDecrypt : bytes -> bytes -> bytes -> option bytes.
Variable keyInfo : option Hls.KeyInfo.
Variable decryptionKey : option bytes.

Abbreviation task := (hlsTask net subtleDecrypt keyInfo decryptionKey).
Abbreviation contrib := (contribution net subtleDecrypt keyInfo decryptionKey).

Lemma hlsTask_ok i k seg data fc :
  contrib (i + k) seg = Some data ->
  task i k seg fc = (fc, inl (Some data)).
Proof.
  unfold contribution, hlsTask.
  destruct (net _) as [[] st body|e]; intros H; by simplify_eq.
Qed.

Lemma hlsTask_failed i k seg fc :
  responds net (i + k) seg -> contrib (i + k) seg = None ->
  exists st, task i k seg fc
             = (S fc, if (5 <? S fc)%nat then inr (tooMany st) else inl None).
Proof.
  unfold responds, contribution, hlsTask.
  destruct (net _) as [[] st body|e]; intros Hr H; try done.
  exists st. by destruct (5 <? S fc)%nat.
Qed.

Variable batch : list Hls.Segment.
Variable i : nat.

Abbreviation val := (hlsVal net subtleDecrypt keyInfo decryptionKey batch i).
Abbreviation results := (batchResults net subtleDecrypt keyInfo decryptionKey batch i).

Lemma arrivals_within_budget order fc slots :
  NoDup order ->
  (forall k, k ∈ order -> slots !! k = Some None) ->
  answered net batch i order ->
  fc + nulls (val <$> order) <= 5 ->
  arrivals (imap (task i) batch) order fc slots
  = (fc + nulls (val <$> order), settled (fill val slots order)).
Proof.
  revert fc slots; induction order as [|k order IH]; intros fc slots Hnd Hfree Hans Hle.
  - simpl. unfold nulls; simpl. by rewrite Nat.add_0_r.
  - apply NoDup_cons in Hnd as [Hk Hnd].
    destruct (Hans k) as (seg & Hseg & Hresp); [apply elem_of_cons; tauto|].
    rewrite fmap_cons, nulls_cons in Hle |- *.
    assert (val k = contrib (i + k) seg) as Hval by (unfold hlsVal; by rewrite Hseg).
    assert (forall v, forall k', k' ∈ order -> <[k := v]> slots !! k' = Some None) as Hfree'.
    { intros v k' Hk'. rewrite list_lookup_insert_ne by (intros ->; done).
      apply Hfree, elem_of_cons; tauto. }
    assert (answered net batch i order) as Hans'.
    { intros k' Hk'. apply Hans, elem_of_cons; tauto. }
    cbn [arrivals]. rewrite list_lookup_imap, Hseg, Hfree by (apply elem_of_cons; tauto).
    cbn [fmap option_fmap option_map].
    change (fill val slots (k :: order)) with (fill val (<[k := Some (val k)]> slots) order).
    destruct (contrib (i + k) seg) as [data|] eqn:Hc.
    + rewrite (hlsTask_ok _ _ _ _ _ Hc), Hval in *.
      rewrite IH; [done|done|apply Hfree'|done|simpl in Hle; lia].
    + destruct (hlsTask_failed i k seg fc Hresp Hc) as [st ->].
      rewrite Hval in *.
      replace (5 <? S fc)%nat with false by (symmetry; apply Nat.ltb_ge; lia).
      rewrite IH; [f_equal; lia|done|apply Hfree'|done|lia].
Qed.

Lemma arrivals_over_budget order fc slots :
  NoDup order ->
  (forall k, k ∈ order -> slots !! k = Some None) ->
  answered net batch i order ->
  fc <= 5 -> 5 < fc + nulls (val <$> order) ->
  exists fc' st, arrivals (imap (task i) batch) order fc slots = (fc', Rejected (tooMany st)).
Proof.
  revert fc slots; induction order as [|k order IH]; intros fc slots Hnd Hfree Hans Hfc Hgt.
  - unfold nulls in Hgt; simpl in Hgt. lia.
  - apply NoDup_cons in Hnd as [Hk Hnd].
    destruct (Hans k) as (seg & Hseg & Hresp); [apply elem_of_cons; tauto|].
    rewrite fmap_cons, nulls_cons in Hgt.
    assert (val k = contrib (i + k) seg) as Hval by (unfold hlsVal; by rewrite Hseg).
    assert (forall v, forall k', k' ∈ order -> <[k := v]> slots !! k' = Some None) as Hfree'.
    { intros v k' Hk'. rewrite list_lookup_insert_ne by (intros ->; done).
      apply Hfree, elem_of_cons; tauto. }
    assert (answered net batch i order) as Hans'.
    { intros k' Hk'. apply Hans, elem_of_cons; tauto. }
    cbn [arrivals]. rewrite list_lookup_imap, Hseg, Hfree by (apply elem_of_cons; tauto).
    cbn [fmap option_fmap option_map].
    destruct (contrib (i + k) seg) as [data|] eqn:Hc.
    + rewrite (hlsTask_ok _ _ _ _ _ Hc), Hval in *.
      apply IH; [done|apply Hfree'|done|done|simpl in Hgt; lia].
    + destruct (hlsTask_failed i k seg fc Hresp Hc) as [st ->].
      rewrite Hval in *.
      destruct (5 <? S fc)%nat eqn:Hlt.
      * by exists (S fc), st.
      * apply Nat.ltb_ge in Hlt. apply IH; [done|apply Hfree'|done|lia|lia].
Qed.

Lemma val_seq : val <$> seq 0 (length batch) = results.
Proof.
  apply list_eq; intros j. unfold batchResults, hlsVal.
  rewrite list_lookup_fmap, list_lookup_imap.
  destruct (decide (j < length batch)) as [Hlt|Hge].
  - rewrite lookup_seq_lt by done. simpl.
    destruct (lookup_lt_is_Some_2 batch j Hlt) as [seg Hseg]. by rewrite Hseg.
  - rewrite lookup_seq_ge by lia. rewrite lookup_ge_None_2 by lia. done.
Qed.

Lemma answered_of_perm order :
  order ≡ₚ seq 0 (length batch) -> allAnswered net batch i -> answered net batch i order.
Proof.
  intros Hperm Hall k Hk. rewrite Hperm in Hk. apply elem_of_seq in Hk.
  destruct (lookup_lt_is_Some_2 batch k) as [seg Hseg]; [lia|].
  exists seg. split; [done|]. by apply Hall.
Qed.

Lemma free_slots (order : list nat) :
  order ≡ₚ seq 0 (length batch) ->
  forall k, k ∈ order ->
    replicate (length (imap (task i) batch)) (@None (option bytes)) !! k = Some None.
Proof.
  intros Hperm k Hk. rewrite Hperm in Hk. apply elem_of_seq in Hk.
  apply lookup_replicate_2. rewrite length_imap. lia.
Qed.

(** Within the budget the batch is fulfilled with its results by
    position, whatever the order of arrival. *)
Lemma promiseAll_within_budget order fc :
  order ≡ₚ seq 0 (length batch) -> allAnswered net batch i ->
  fc + nulls results <= 5 ->
  promiseAll (imap (task i) batch) order fc = (fc + nulls results, Fulfilled results).
Proof.
  intros Hperm Hall Hle. unfold promiseAll.
  assert (nulls (val <$> order) = nulls results) as Hn.
  { rewrite <- val_seq. apply nulls_perm. by rewrite Hperm. }
  rewrite arrivals_within_budget.
  - rewrite Hn. f_equal. unfold settled.
    rewrite <- val_seq.
    replace (length batch) with
      (length (replicate (length (imap (task i) batch)) (@None (option bytes))))
      by (rewrite length_replicate; apply length_imap).
    rewrite fill_complete; [done|].
    by rewrite length_replicate, length_imap.
  - rewrite Hperm. apply NoDup_seq.
  - by apply free_slots.
  - by apply answered_of_perm.
  - by rewrite Hn.
Qed.

(** Past the budget the batch is rejected by the counting callback. *)
Lemma promiseAll_over_budget order fc :
  order ≡ₚ seq 0 (length batch) -> allAnswered net batch i ->
  fc <= 5 -> 5 < fc + nulls results ->
  exists fc' st,
    promiseAll (imap (task i) batch) order fc = (fc', Rejected (tooMany st)).
Proof.
  intros Hperm Hall Hfc Hgt. unfold promiseAll.
  assert (nulls (val <$> order) = nulls results) as Hn.
  { rewrite <- val_seq. apply nulls_perm. by rewrite Hperm. }
  apply arrivals_over_budget; try done.
  - rewrite Hperm. apply NoDup_seq.
  - by apply free_slots.
  - by apply answered_of_perm.
  - by rewrite Hn.
Qed.
Lemma omap_insert_free (slots : list (option (option bytes))) k v :
  slots !! k = Some None ->
  omap id (<[k := Some v]> slots) ≡ₚ v :: omap id slots.
Proof.
  intros Hk. pose proof (lookup_lt_Some _ _ _ Hk) as Hlt.
  rewrite insert_take_drop by done.
  rewrite <- (take_drop_middle slots k None Hk) at 3.
  rewrite !omap_app. simpl. symmetry. apply Permutation_middle.
Qed.

Lemma consistent_store fc0 fc slots k seg v :
  consistent net subtleDecrypt keyInfo decryptionKey batch i fc0 fc slots ->
  slots !! k = Some None -> batch !! k = Some seg ->
  responds net (i + k) seg -> v = contrib (i + k) seg ->
  consistent net subtleDecrypt keyInfo decryptionKey batch i fc0
             (fc + (if v is None then 1 else 0)) (<[k := Some v]> slots).
Proof.
  intros (Hlen & Hvals & Hfc) Hk Hseg Hresp Hv. split; [|split].
  - by rewrite length_insert.
  - intros k' v' Hk'. destruct (decide (k' = k)) as [->|Hne].
    + rewrite list_lookup_insert_eq in Hk' by (by eapply lookup_lt_Some).
      simplify_eq. by exists seg.
    + rewrite list_lookup_insert_ne in Hk' by done. by apply Hvals.
  - rewrite (nulls_perm _ _ (omap_insert_free slots k v Hk)), nulls_cons. lia.
Qed.

Lemma fulfilled_slots (slots : list (option (option bytes))) vs :
  mapM id slots = Some vs -> slots = Some <$> vs.
Proof.
  intros H. apply mapM_Some in H. induction H as [|x y l k Hxy _ IH]; [done|].
  simpl in Hxy. rewrite fmap_cons. by rewrite Hxy, IH.
Qed.

(** A fulfilled batch has its results by position; every fetch was
    answered and the counter has counted the refused ones. *)
Lemma arrivals_fulfilled order : forall fc slots fc0 fc' vs,
  arrivals (imap (task i) batch) order fc slots = (fc', Fulfilled vs) ->
  consistent net subtleDecrypt keyInfo decryptionKey batch i fc0 fc slots ->
  vs = results /\ allAnswered net batch i /\ fc' = fc0 + nulls results.
Proof.
  induction order as [|k order IH]; intros fc slots fc0 fc' vs Harr Hinv.
  - cbn [arrivals] in Harr. destruct (mapM id slots) as [ws|] eqn:Hm; [|by simplify_eq].
    simplify_eq. apply fulfilled_slots in Hm. subst slots.
    destruct Hinv as (Hlen & Hvals & Hfc). rewrite length_fmap in Hlen.
    assert (vs = results) as Hvs.
    { apply list_eq. intros j. unfold batchResults. rewrite list_lookup_imap.
      destruct (vs !! j) as [v|] eqn:Hv.
      - destruct (Hvals j v) as (seg & Hseg & _ & ->);
          [by rewrite list_lookup_fmap, Hv|]. by rewrite Hseg.
      - apply lookup_ge_None in Hv. rewrite lookup_ge_None_2 by lia. done. }
    split; [done|]. split.
    + intros k seg Hseg. pose proof (lookup_lt_Some _ _ _ Hseg) as Hlt.
      destruct (lookup_lt_is_Some_2 vs k) as [v Hv]; [lia|].
      destruct (Hvals k v) as (seg' & Hseg' & Hresp & _);
        [by rewrite list_lookup_fmap, Hv|]. by simplify_eq.
    + rewrite Hfc, <- Hvs. f_equal. f_equal. clear.
      induction vs as [|v vs IH]; [done|]. simpl. f_equal. exact IH.
  - cbn [arrivals] in Harr. rewrite list_lookup_imap in Harr.
    destruct (batch !! k) as [seg|] eqn:Hseg; cbn [fmap option_fmap option_map] in Harr;
      [|by eapply IH].
    destruct (slots !! k) as [[v|]|] eqn:Hk; [by eapply IH| |by eapply IH].
    unfold hlsTask in Harr.
    destruct (net (ReqSegment (i + k) (Hls.seg_url seg))) as [ok st body|e] eqn:Hnet;
      [|by simplify_eq].
    assert (responds net (i + k) seg) as Hresp by (unfold responds; by rewrite Hnet).
    destruct ok.
    + eapply (IH fc _ fc0); [exact Harr|].
      replace fc with (fc + 0) at 1 by lia.
      eapply (consistent_store _ _ _ _ seg (Some _)); try done.
      unfold contribution. by rewrite Hnet.
    + destruct (5 <? S fc)%nat; [by simplify_eq|].
      eapply (IH (S fc) _ fc0); [exact Harr|].
      replace (S fc) with (fc + 1) by lia.
      eapply (consistent_store _ _ _ _ seg None); try done.
      unfold contribution. by rewrite Hnet.
Qed.

Lemma promiseAll_fulfilled order fc fc' vs :
  promiseAll (imap (task i) batch) order fc = (fc', Fulfilled vs) ->
  vs = results /\ allAnswered net batch i /\ fc' = fc + nulls results.
Proof.
  intros H. eapply arrivals_fulfilled; [exact H|].
  split; [|split].
  - by rewrite length_replicate, length_imap.
  - intros k v Hk. apply lookup_replicate in Hk as [Hk _]. done.
  - assert (forall m, omap id (replicate m (@None (option bytes))) = []) as ->
      by (intros m; induction m; done).
    unfold nulls. simpl. lia.
Qed.
End HlsBatch.

Section DashBatch.
Variable net : Request -> FetchOutcome.
Variable batch : list string.
Variable i : nat.

Lemma dashTask_ok k url s :
  okAt net (i + k) url = true ->
  dashTask net i k url s = (s, inl (bodyAt net (i + k) url)).
Proof.
  unfold okAt, bodyAt, dashTask. by destruct (net _) as [[] ? ?|].
Qed.

Lemma dashTask_bad k url s :
  okAt net (i + k) url = false -> exists e, dashTask net i k url s = (s, inr e).
Proof.
  unfold okAt, dashTask. destruct (net _) as [[] ? ?|]; intros; try done; by eexists.
Qed.

Lemma dash_arrivals_ok order slots :
  NoDup order ->
  (forall k, k ∈ order -> slots !! k = Some None) ->
  (forall k, k ∈ order -> exists url, batch !! k = Some url /\ okAt net (i + k) url = true) ->
  arrivals (imap (dashTask net i) batch) order tt slots
  = (tt, settled (fill (dashVal net batch i) slots order)).
Proof.
  revert slots; induction order as [|k order IH]; intros slots Hnd Hfree Hok; [done|].
  apply NoDup_cons in Hnd as [Hk Hnd].
  destruct (Hok k) as (url & Hurl & Hgood); [apply elem_of_cons; tauto|].
  cbn [arrivals]. rewrite list_lookup_imap, Hurl, Hfree by (apply elem_of_cons; tauto).
  cbn [fmap option_fmap option_map].
  rewrite dashTask_ok by done.
  change (fill (dashVal net batch i) slots (k :: order))
    with (fill (dashVal net batch i) (<[k := Some (dashVal net batch i k)]> slots) order).
  unfold dashVal at 2. rewrite Hurl.
  apply IH; [done| |].
  - intros k' Hk'. rewrite list_lookup_insert_ne by (intros ->; done).
    apply Hfree, elem_of_cons; tauto.
  - intros k' Hk'. apply Hok, elem_of_cons; tauto.
Qed.

Lemma dash_arrivals_bad order slots :
  NoDup order ->
  (forall k, k ∈ order -> slots !! k = Some None) ->
  (forall k, k ∈ order -> is_Some (batch !! k)) ->
  (exists k url, k ∈ order /\ batch !! k = Some url /\ okAt net (i + k) url = false) ->
  exists e, arrivals (imap (dashTask net i) batch) order tt slots = (tt, Rejected e).
Proof.
  revert slots; induction order as [|k order IH];
    intros slots Hnd Hfree Hin (kb & urlb & Hkb & Hurlb & Hbad).
  { by apply elem_of_nil in Hkb. }
  apply NoDup_cons in Hnd as [Hk Hnd].
  destruct (Hin k) as [url Hurl]; [apply elem_of_cons; tauto|].
  cbn [arrivals]. rewrite list_lookup_imap, Hurl, Hfree by (apply elem_of_cons; tauto).
  cbn [fmap option_fmap option_map].
  destruct (okAt net (i + k) url) eqn:Hgood.
  - rewrite dashTask_ok by done.
    apply IH; [done| | |].
    + intros k' Hk'. rewrite list_lookup_insert_ne by (intros ->; done).
      apply Hfree, elem_of_cons; tauto.
    + intros k' Hk'. apply Hin, elem_of_cons; tauto.
    + exists kb, urlb. split; [|done].
      apply elem_of_cons in Hkb as [->|Hkb]; [|done]. congruence.
  - destruct (dashTask_bad k url tt Hgood) as [e ->]. by exists e.
Qed.

Lemma dashVal_seq :
  dashVal net batch i <$> seq 0 (length batch)
  = imap (fun k => bodyAt net (i + k)) batch.
Proof.
  apply list_eq; intros j. unfold dashVal.
  rewrite list_lookup_fmap, list_lookup_imap.
  destruct (decide (j < length batch)) as [Hlt|Hge].
  - rewrite lookup_seq_lt by done. simpl.
    destruct (lookup_lt_is_Some_2 batch j Hlt) as [url Hurl]. by rewrite Hurl.
  - rewrite lookup_seq_ge by lia. rewrite lookup_ge_None_2 by lia. done.
Qed.

Lemma dash_free (order : list nat) :
  order ≡ₚ seq 0 (length batch) ->
  forall k, k ∈ order ->
    replicate (length (imap (dashTask net i) batch)) (@None bytes) !! k = Some None.
Proof.
  intros Hperm k Hk. rewrite Hperm in Hk. apply elem_of_seq in Hk.
  apply lookup_replicate_2. rewrite length_imap. lia.
Qed.

Lemma dash_promiseAll_ok order :
  order ≡ₚ seq 0 (length batch) ->
  (forall k url, batch !! k = Some url -> okAt net (i + k) url = true) ->
  promiseAll (imap (dashTask net i) batch) order tt
  = (tt, Fulfilled (imap (fun k => bodyAt net (i + k)) batch)).
Proof.
  intros Hperm Hok. unfold promiseAll.
  rewrite dash_arrivals_ok.
  - f_equal. unfold settled. rewrite <- dashVal_seq.
    replace (length batch) with
      (length (replicate (length (imap (dashTask net i) batch)) (@None bytes)))
      by (rewrite length_replicate; apply length_imap).
    rewrite fill_complete; [done|].
    by rewrite length_replicate, length_imap.
  - rewrite Hperm. apply NoDup_seq.
  - by apply dash_free.
  - intros k Hk. rewrite Hperm in Hk. apply elem_of_seq in Hk.
    destruct (lookup_lt_is_Some_2 batch k) as [url Hurl]; [lia|].
    exists url. split; [done|]. by apply Hok.
Qed.

Lemma dash_promiseAll_bad order :
  order ≡ₚ seq 0 (length batch) ->
  (exists k url, batch !! k = Some url /\ okAt net (i + k) url = false) ->
  exists e, promiseAll (imap (dashTask net i) batch) order tt = (tt, Rejected e).
Proof.
  intros Hperm (k & url & Hurl & Hbad). unfold promiseAll.
  apply dash_arrivals_bad.
  - rewrite Hperm. apply NoDup_seq.
  - by apply dash_free.
  - intros k' Hk'. rewrite Hperm in Hk'. apply elem_of_seq in Hk'.
    apply lookup_lt_is_Some_2. lia.
  - exists k, url. split; [|done].
    rewrite Hperm. apply elem_of_seq. apply lookup_lt_Some in Hurl. lia.
Qed.
End DashBatch.

End PromiseFacts.

(** ** HLS downloads *)

Module HlsFacts.
Import Engine Spec PromiseFacts.

Section Loop.
Variable net : Request -> FetchOutcome.
Variable subtleDecrypt : bytes -> bytes -> bytes -> option bytes.
Variable maxConcurrentDownloads : nat.
Variable keyInfo : option Hls.KeyInfo.
Variable decryptionKey : option bytes.
Variable videoId : string.
Variable segments : list Hls.Segment.
Variable order : nat -> list nat.

Abbreviation b := (batchSize maxConcurrentDownloads).
Abbreviation n := (length segments).
Abbreviation loop :=
  (hlsBatches net subtleDecrypt maxConcurrentDownloads videoId segments keyInfo
              decryptionKey order).
Abbreviation results := (allResults net subtleDecrypt keyInfo decryptionKey segments).

Lemma batchResults_window i :
  batchResults net subtleDecrypt keyInfo decryptionKey (take b (drop i segments)) i
  = take b (drop i results).
Proof.
  apply list_eq; intros k. unfold batchResults, allResults.
  rewrite list_lookup_imap.
  destruct (decide (k < b)) as [Hlt|Hge].
  - rewrite !lookup_take_lt, !lookup_drop by done. by rewrite list_lookup_imap.
  - rewrite !lookup_take_ge by lia. done.
Qed.

Lemma window_answered i :
  everyFetchResponds net segments ->
  allAnswered net (take b (drop i segments)) i.
Proof.
  intros Hall k seg Hk. apply Hall.
  apply lookup_take_Some in Hk as [Hk _]. by rewrite lookup_drop in Hk.
Qed.

Lemma results_split i :
  drop i results = take b (drop i results) ++ drop (i + b) results.
Proof. rewrite <- drop_drop. symmetry. apply take_drop. Qed.

Lemma present_split i :
  present (drop i results)
  = present (take b (drop i results)) ++ present (drop (i + b) results).
Proof. rewrite (results_split i) at 1. apply omap_app. Qed.

(** Within the budget the loop ends with the fetched chunks in segment
    order, after one progress message per batch. *)
Lemma loop_within_budget fuel : forall i chunks fc events,
  everyFetchSettles maxConcurrentDownloads segments order ->
  everyFetchResponds net segments ->
  n - i <= fuel ->
  fc + nulls (drop i results) <= 5 ->
  loop fuel i chunks fc events
  = (events ++ progressFrom maxConcurrentDownloads videoId n fuel i,
     Completes (chunks ++ present (drop i results))).
Proof.
  induction fuel as [|fuel IH]; intros i chunks fc events Hset Hresp Hfuel Hle.
  - assert (n <= i) as Hi by lia.
    cbn [hlsBatches progressFrom].
    replace (i <? n)%nat with false by (symmetry; apply Nat.ltb_ge; lia).
    rewrite drop_ge by (unfold allResults; rewrite length_imap; lia).
    by rewrite !app_nil_r.
  - cbn [hlsBatches progressFrom].
    destruct (i <? n)%nat eqn:Hi.
    + apply Nat.ltb_lt in Hi.
      rewrite (results_split i), nulls_app in Hle.
      rewrite promiseAll_within_budget;
        [|by apply Hset|by apply window_answered|rewrite batchResults_window; lia].
      rewrite IH; [|done|done|pose proof (batchSize_pos maxConcurrentDownloads); lia
                   |rewrite batchResults_window; lia].
      rewrite batchResults_window, (present_split i), <- !app_assoc. done.
    + apply Nat.ltb_ge in Hi.
      rewrite drop_ge by (unfold allResults; rewrite length_imap; lia).
      by rewrite !app_nil_r.
Qed.

(** Past the budget the loop throws, after progress messages only. *)
Lemma loop_over_budget fuel : forall i chunks fc events,
  everyFetchSettles maxConcurrentDownloads segments order ->
  everyFetchResponds net segments ->
  n - i <= fuel ->
  fc <= 5 -> 5 < fc + nulls (drop i results) ->
  exists events' st,
    loop fuel i chunks fc events = (events ++ events', Throws (tooMany st))
    /\ Forall isProgress events'.
Proof.
  induction fuel as [|fuel IH]; intros i chunks fc events Hset Hresp Hfuel Hfc Hgt.
  - rewrite drop_ge in Hgt by (unfold allResults; rewrite length_imap; lia).
    unfold nulls in Hgt; simpl in Hgt. lia.
  - cbn [hlsBatches].
    destruct (i <? n)%nat eqn:Hi.
    + apply Nat.ltb_lt in Hi.
      rewrite (results_split i), nulls_app in Hgt.
      destruct (decide (fc + nulls (take b (drop i results)) <= 5)) as [Hle|Hover].
      * rewrite promiseAll_within_budget;
          [|by apply Hset|by apply window_answered|by rewrite batchResults_window].
        rewrite batchResults_window.
        edestruct IH as (events' & st & -> & Hev);
          [done|done|pose proof (batchSize_pos maxConcurrentDownloads); lia
          |exact Hle|lia|].
        eexists (_ :: events'), st. rewrite <- app_assoc. split; [done|].
        constructor; [exact I|done].
      * edestruct (promiseAll_over_budget net subtleDecrypt keyInfo decryptionKey
                     (take b (drop i segments)) i (order i) fc) as (fc' & st & ->);
          [by apply Hset|by apply window_answered|done
          |rewrite batchResults_window; lia|].
        exists [], st. rewrite app_nil_r. by split.
    + apply Nat.ltb_ge in Hi.
      rewrite drop_ge in Hgt by (unfold allResults; rewrite length_imap; lia).
      unfold nulls in Hgt; simpl in Hgt. lia.
Qed.
(** A loop that completes has fetched every segment from [i] on with an
    answer, and has added the fetched chunks in segment order. *)
Lemma loop_completes fuel : forall i chunks fc events events' chunks',
  loop fuel i chunks fc events = (events', Completes chunks') ->
  chunks' = chunks ++ present (drop i results)
  /\ (forall index seg, segments !! index = Some seg -> i <= index -> responds net index seg).
Proof.
  assert (forall i, n <= i -> drop i results = []) as Hdrop
    by (intros i Hi; apply drop_ge; unfold allResults; rewrite length_imap; lia).
  induction fuel as [|fuel IH]; intros i chunks fc events events' chunks' Hloop;
    cbn [hlsBatches] in Hloop; destruct (i <? n)%nat eqn:Hi.
  - by simplify_eq.
  - apply Nat.ltb_ge in Hi. simplify_eq. rewrite Hdrop, app_nil_r by done.
    split; [done|]. intros index seg Hseg Hle. apply lookup_lt_Some in Hseg. lia.
  - apply Nat.ltb_lt in Hi.
    destruct (promiseAll _ _ _) as [fc' [vs|e|]] eqn:Hall; [|by simplify_eq..].
    apply promiseAll_fulfilled in Hall as (-> & Hans & _).
    apply IH in Hloop as [-> Hresp].
    rewrite batchResults_window, (present_split i), <- app_assoc.
    split; [done|].
    intros index seg Hseg Hle.
    destruct (decide (index < i + b)) as [Hlt|Hge]; [|apply Hresp; [done|lia]].
    replace index with (i + (index - i)) by lia. apply Hans.
    rewrite lookup_take_lt by lia. rewrite lookup_drop.
    by replace (i + (index - i)) with index by lia.
  - apply Nat.ltb_ge in Hi. simplify_eq. rewrite Hdrop, app_nil_r by done.
    split; [done|]. intros index seg Hseg Hle. apply lookup_lt_Some in Hseg. lia.
Qed.
End Loop.

Section Download.
Variable resolveUrl : string -> string -> string.
Variable net : Request -> FetchOutcome.
Variable subtleDecrypt : bytes -> bytes -> bytes -> option bytes.
Variable startDownload : DownloadOptions -> nat + string.
Variable maxConcurrentDownloads : nat.
Variables (content baseUrl : string) (video : Video).

Abbreviation segments := (Hls.parseM3U8Segments resolveUrl content baseUrl).
Abbreviation keyInfo := (Hls.parseM3U8Key resolveUrl content baseUrl).
Abbreviation decryptionKey := (decryptionKeyOf net keyInfo).
Abbreviation run :=
  (downloadHLSSegments resolveUrl net subtleDecrypt startDownload maxConcurrentDownloads).
Abbreviation results := (allResults net subtleDecrypt keyInfo decryptionKey segments).
Abbreviation bytesOf := (segmentBytes net subtleDecrypt keyInfo decryptionKey).
Abbreviation settles := (everyFetchSettles maxConcurrentDownloads segments).

Lemma nulls_failed :
  everyFetchResponds net segments -> nulls results = failedFetches net segments.
Proof.
  intros Hresp. apply nulls_count. intros i seg Hseg.
  specialize (Hresp i seg Hseg).
  unfold responds, contribution, fails in *.
  destruct (net _) as [[] ? ?|]; naive_solver.
Qed.

Lemma results_all_ok :
  everyFetchSucceeds net segments -> results = Some <$> imap bytesOf segments.
Proof.
  intros Hok. unfold allResults. rewrite fmap_imap. apply imap_ext.
  intros i seg Hseg. specialize (Hok i seg Hseg).
  unfold succeeds, contribution, segmentBytes in *. simpl.
  by destruct (net _) as [[] ? ?|].
Qed.

Lemma responds_of_succeeds :
  everyFetchSucceeds net segments -> everyFetchResponds net segments.
Proof.
  intros Hok i seg Hseg. specialize (Hok i seg Hseg).
  unfold succeeds, responds in *. by destruct (net _) as [[] ? ?|].
Qed.

(** The run when no fetch is rejected and at most five are refused. *)
Lemma run_within_budget order :
  segments <> [] ->
  everyFetchResponds net segments -> settles order ->
  nulls results <= 5 ->
  run order content baseUrl video
  = let events := Progress (v_id video) 0 (length segments)
                  :: progressFrom maxConcurrentDownloads (v_id video) (length segments)
                                  (length segments) 0 in
    if (length (present results) =? 0)%nat
    then (events, Returned (Error noSegmentsDownloaded))
    else save startDownload events (hlsOptions video (present results))
              (Some (length segments)).
Proof.
  intros Hne Hresp Hset Hle. unfold downloadHLSSegments.
  destruct (length segments =? 0)%nat eqn:Hlen.
  { apply Nat.eqb_eq in Hlen. by destruct segments. }
  rewrite (loop_within_budget net subtleDecrypt maxConcurrentDownloads keyInfo decryptionKey
             (v_id video) segments order (length segments) 0 [] 0
             [Progress (v_id video) 0 (length segments)]);
    [|done|done|lia|by rewrite drop_0].
  rewrite drop_0, app_nil_l. done.
Qed.

(** C1. When every segment fetch of an HLS download succeeds, the saved
    blob holds one part per segment, in segment-list order: its bytes are
    the concatenation of the segment bytes by position. The run is the
    same for every order in which the fetches of each batch settle. *)
Theorem hls_assembly_is_positional order :
  segments <> [] ->
  everyFetchSucceeds net segments ->
  settles order ->
  exists events blob,
    run order content baseUrl video
    = save startDownload events
           (mkDownloadOptions (FromBlob blob) (hlsFilename video) true)
           (Some (length segments))
    /\ parts blob = imap bytesOf segments
    /\ blobBytes blob = concat (imap bytesOf segments)
    /\ forall order', settles order' ->
         run order' content baseUrl video = run order content baseUrl video.
Proof.
  intros Hne Hok Hset.
  pose proof (responds_of_succeeds Hok) as Hresp.
  pose proof (results_all_ok Hok) as Hres.
  assert (nulls results <= 5) as Hle by (rewrite Hres, nulls_Some; lia).
  assert ((length (present results) =? 0)%nat = false) as Hlen.
  { rewrite Hres, present_Some, length_imap. apply Nat.eqb_neq.
    by destruct segments. }
  eexists _, (mkBlob (imap bytesOf segments) "video/mp2t").
  split; [|split; [done|split; [done|]]].
  - rewrite run_within_budget by done. cbv zeta. rewrite Hlen.
    unfold hlsOptions. rewrite Hres, present_Some. reflexivity.
  - intros order' Hset'. by rewrite !run_within_budget.
Qed.

(** C2, amended. When every segment fetch is answered and more than five
    answers are not [ok], the retrieval is aborted: nothing is saved, the
    only events are progress messages, and the handler reports the error
    [Too many segment failures (status)] with the status of a refused
    fetch. *)
Theorem hls_budget_exceeded_aborts order :
  everyFetchResponds net segments ->
  settles order ->
  5 < failedFetches net segments ->
  exists events status,
    caught (run order content baseUrl video)
    = (events, Returned (Error (tooMany status)))
    /\ Forall isProgress events.
Proof.
  intros Hresp Hset Hgt. rewrite <- nulls_failed in Hgt by done.
  unfold downloadHLSSegments.
  destruct (length segments =? 0)%nat eqn:Hlen.
  { apply Nat.eqb_eq, nil_length_inv in Hlen.
    unfold allResults in Hgt. rewrite Hlen in Hgt. unfold nulls in Hgt; simpl in Hgt. lia. }
  edestruct (loop_over_budget net subtleDecrypt maxConcurrentDownloads keyInfo decryptionKey
               (v_id video) segments order (length segments) 0 [] 0
               [Progress (v_id video) 0 (length segments)])
    as (events' & st & -> & Hev); [done|done|lia|lia|by rewrite drop_0|].
  eexists _, st. split; [done|].
  apply Forall_app. split; [|done]. by repeat constructor.
Qed.

(** C10. A successful HLS download reports the number of segments of the
    playlist as [segmentCount], not the number of fetched ones. The saved
    blob has one part per segment whose fetch was not refused: with at least
    one refusal, which the budget let pass, [segmentCount] exceeds the
    number of parts. *)
Theorem hls_segmentCount_is_playlist_length order events downloadId segmentCount :
  run order content baseUrl video = (events, Returned (Ok downloadId segmentCount)) ->
  segmentCount = Some (length segments)
  /\ exists events' chunks,
       events = events' ++ [Download (hlsOptions video chunks)]
       /\ length chunks + failedFetches net segments = length segments
       /\ (0 < failedFetches net segments -> length chunks < length segments).
Proof.
  unfold downloadHLSSegments.
  destruct (length segments =? 0)%nat; [intros; simplify_eq|].
  destruct (hlsBatches _ _ _ _ _ _ _ _ _ _ _ _ _) as [ev [chunks|e|]] eqn:Hloop;
    [|intros; simplify_eq..].
  destruct (length chunks =? 0)%nat; [intros; simplify_eq|].
  unfold save. destruct (startDownload _); intros Hrun; simplify_eq.
  split; [done|].
  apply loop_completes in Hloop as [-> Hresp].
  assert (everyFetchResponds net segments) as Hall
    by (intros index seg Hseg; apply Hresp; [done|lia]).
  exists ev, (present results). rewrite drop_0, app_nil_l. split; [done|].
  rewrite <- (nulls_failed Hall).
  pose proof (present_nulls results) as Hsum.
  unfold allResults in Hsum at 3. rewrite length_imap in Hsum.
  split; lia.
Qed.
End Download.

End HlsFacts.

(** ** DASH downloads *)

Module DashFacts.
Import JsString JsNumber Engine Spec PromiseFacts.

Section Loop.
Variable net : Request -> FetchOutcome.
Variable maxConcurrentDownloads : nat.
Variable videoId : string.
Variable segments : list string.
Variable order : nat -> list nat.

Abbreviation b := (batchSize maxConcurrentDownloads).
Abbreviation n := (length segments).

Lemma dash_window i :
  imap (fun k => bodyAt net (i + k)) (take b (drop i segments))
  = take b (drop i (bodies net segments)).
Proof.
  apply list_eq; intros k. unfold bodies. rewrite list_lookup_imap.
  destruct (decide (k < b)) as [Hlt|Hge].
  - rewrite !lookup_take_lt, !lookup_drop by done. by rewrite list_lookup_imap.
  - rewrite !lookup_take_ge by lia. done.
Qed.

(** [g] whole batches are fetched, the next one holds a failed fetch. *)
Lemma dash_loop_stops g : forall fuel i chunks downloadedCount events,
  everyFetchSettles maxConcurrentDownloads segments order ->
  n - i <= fuel ->
  (forall index url, segments !! index = Some url ->
                     i <= index < i + g * b -> okAt net index url = true) ->
  (exists index url, segments !! index = Some url
                     /\ i + g * b <= index < i + g * b + b
                     /\ okAt net index url = false) ->
  exists events',
    dashBatches net maxConcurrentDownloads videoId segments order fuel i chunks
                downloadedCount events
    = (events ++ events',
       Completes (chunks ++ take (g * b) (drop i (bodies net segments))))
    /\ Forall isProgress events'.
Proof.
  induction g as [|g IH];
    intros fuel i chunks dc events Hset Hfuel Hgood (ib & urlb & Hurlb & Hrange & Hbad).
  - pose proof (lookup_lt_Some _ _ _ Hurlb) as Hlt.
    destruct fuel as [|fuel]; [lia|].
    cbn [dashBatches].
    replace (i <? n)%nat with true by (symmetry; apply Nat.ltb_lt; lia).
    edestruct (dash_promiseAll_bad net (take b (drop i segments)) i (order i))
      as [e ->]; [apply Hset; lia| |].
    { exists (ib - i), urlb. replace (i + (ib - i)) with ib by lia.
      split; [|done]. rewrite lookup_take_lt by lia. rewrite lookup_drop.
      by replace (i + (ib - i)) with ib by lia. }
    exists []. rewrite take_0, !app_nil_r. by split.
  - pose proof (lookup_lt_Some _ _ _ Hurlb) as Hlt.
    pose proof (batchSize_pos maxConcurrentDownloads) as Hb.
    destruct fuel as [|fuel]; [lia|].
    cbn [dashBatches].
    replace (i <? n)%nat with true by (symmetry; apply Nat.ltb_lt; lia).
    rewrite dash_promiseAll_ok; [|apply Hset; lia|].
    2:{ intros k url Hk. apply lookup_take_Some in Hk as [Hk Hkb].
        rewrite lookup_drop in Hk. apply Hgood; [done|]. simpl. lia. }
    rewrite dash_window.
    edestruct (IH fuel (i + b)) as (events' & -> & Hev); [done|lia| | |].
    { intros index url Hurl Hr. apply Hgood; [done|]. simpl. lia. }
    { exists ib, urlb. split; [done|]. split; [|done]. simpl in Hrange. lia. }
    eexists (_ :: events'). rewrite <- !app_assoc. split.
    + simpl. do 2 f_equal.
      rewrite <- (drop_drop (bodies net segments) b i).
      rewrite take_take_drop. done.
    + constructor; [exact I|done].
Qed.
End Loop.

Section Download.
Variable resolveUrl : string -> string -> string.
Variable net : Request -> FetchOutcome.
Variable startDownload : DownloadOptions -> nat + string.
Variable maxConcurrentDownloads : nat.

Abbreviation b := (batchSize maxConcurrentDownloads).

(** C3, amended. In a DASH template retrieval no failure counter is
    kept: the first batch that holds a failed fetch ends the retrieval
    without an error being thrown, and the failing batch and all later
    segments add nothing. When the initialization chunk and the [w]
    batches before the failing one give at least one chunk, these chunks
    are assembled in order into one blob, which is handed to
    [chrome.downloads.download] after the progress messages, and the
    result counts them; when they give none, nothing is saved and the
    run returns [No DASH segments downloaded]. *)
Theorem dash_failure_ends_retrieval order genFuel representation video tmpl segments w :
  Dash.segmentTemplate representation = Some tmpl ->
  falsy (Dash.media tmpl) = false ->
  generateSegments resolveUrl genFuel video representation tmpl = Some segments ->
  everyFetchSettles maxConcurrentDownloads segments order ->
  (forall index url, segments !! index = Some url -> index < w * b ->
                     okAt net index url = true) ->
  (exists index url, segments !! index = Some url
                     /\ w * b <= index < w * b + b
                     /\ okAt net index url = false) ->
  exists events,
    Forall isProgress events
    /\ let run := downloadDASHSegments resolveUrl net startDownload maxConcurrentDownloads
                                       order genFuel representation video in
       let chunks := initChunks resolveUrl net video representation tmpl
                     ++ take (w * b) (bodies net segments) in
       let opts := mkDownloadOptions (FromBlob (mkBlob chunks "video/mp4"))
                                     (dashFilename video) true in
       (chunks = [] -> run = (events, Returned (Error "No DASH segments downloaded")))
       /\ (chunks <> [] ->
           run = (events ++ [Download opts],
                  match startDownload opts with
                  | inl downloadId => Returned (Ok downloadId (Some (length chunks)))
                  | inr e => Thrown e
                  end)).
Proof.
  intros Htmpl Hmedia Hgen Hset Hgood Hbad.
  unfold downloadDASHSegments. rewrite Htmpl, Hmedia, Hgen.
  destruct (dash_loop_stops net maxConcurrentDownloads (v_id video) segments order w
              (length segments) 0 (initChunks resolveUrl net video representation tmpl)
              0 []) as (events & -> & Hev); [done|lia| |done|].
  { intros index url Hurl Hr. apply Hgood; [done|]. simpl in Hr. lia. }
  exists events. split; [done|]. cbv zeta. rewrite drop_0. cbn [app].
  unfold finishDASH, save.
  destruct (initChunks resolveUrl net video representation tmpl
            ++ take (w * b) (bodies net segments)) as [|c chunks] eqn:Hchunks.
  - split; [done|]. by intros [].
  - split; [done|]. intros _. cbn [length Nat.eqb].
    by destruct (startDownload _).
Qed.

(** With an infinite bound the generation loop has no last turn. *)
Lemma generate_unbounded video mediaTemplate id fuel :
  forall num, generate resolveUrl video mediaTemplate id PosInfinity fuel num = None.
Proof.
  induction fuel as [|fuel IH]; intros num; cbn [generate].
  - done.
  - change (JsNumber.lt (ofZ num) PosInfinity) with true. cbv iota. by rewrite IH.
Qed.

(** C6, on the failing input. The MPD whose segment template has no
    timing attributes parses to a template with the defaults duration 0
    and timescale 1; for it the bound of the generation loop is
    [Infinity] and the loop never exits: whatever the number of turns
    allowed, no segment list is produced and the download never
    settles. *)
Theorem dash_default_duration_never_generates order genFuel :
  option_map Dash.duration
    (head (Dash.parseMPD resolveUrl Examples.mpdNoDuration (v_url Examples.dashVideo))
     ≫= Dash.segmentTemplate) = Some (Int 0)
  /\ maxSegments (Dash.mkSegmentTemplate None (Some "chunk-$Number$.m4s")
                                         (Int 1) (Int 1) (Int 0)) = PosInfinity
  /\ downloadParsedDASH resolveUrl net startDownload maxConcurrentDownloads order genFuel
       (Dash.parseMPD resolveUrl Examples.mpdNoDuration (v_url Examples.dashVideo))
       Examples.dashVideo
     = ([], Unsettled).
Proof.
  split; [reflexivity|]. split; [reflexivity|].
  unfold downloadParsedDASH.
  change (Dash.parseMPD resolveUrl Examples.mpdNoDuration (v_url Examples.dashVideo))
    with [Dash.mkRepresentation "v720" (v_url Examples.dashVideo) (Int 3000000)
            (Int 1280) (Int 720) (Some "1280x720") "" "video/mp4" true false "720p ()"
            (Some (Dash.mkSegmentTemplate None (Some "chunk-$Number$.m4s")
                                          (Int 1) (Int 1) (Int 0)))].
  cbn -[generate]. unfold generateSegments. cbn -[generate].
  by rewrite generate_unbounded.
Qed.
End Download.

End DashFacts.

(** ** Choice of the representation *)

Module SelectionFacts.
Import JsString JsNumber Engine Spec.

Lemma find_none {A : Type} (p : A -> bool) (l : list A) :
  (forall x, x ∈ l -> p x = false) -> find p l = None.
Proof.
  induction l as [|x l IH]; [done|]. intros H. simpl.
  rewrite (H x) by (apply elem_of_cons; by left).
  apply IH. intros y Hy. apply H, elem_of_cons. by right.
Qed.

Section Selection.
Variable resolveUrl : string -> string -> string.
Variable net : Request -> FetchOutcome.
Variable subtleDecrypt : bytes -> bytes -> bytes -> option bytes.
Variable startDownload : DownloadOptions -> nat + string.
Variable parseXml : string -> Dash.Node.
Variable maxConcurrentDownloads : nat.

Lemma generate_clear video mediaTemplate id bound fuel :
  forall num,
    generate resolveUrl (clearQuality video) mediaTemplate id bound fuel num
    = generate resolveUrl video mediaTemplate id bound fuel num.
Proof.
  induction fuel as [|fuel IH]; intros num; cbn [generate]; [done|].
  by rewrite IH.
Qed.

Lemma downloadDASHSegments_clear order genFuel representation video :
  downloadDASHSegments resolveUrl net startDownload maxConcurrentDownloads
                       order genFuel representation (clearQuality video)
  = downloadDASHSegments resolveUrl net startDownload maxConcurrentDownloads
                         order genFuel representation video.
Proof.
  unfold downloadDASHSegments, generateSegments.
  destruct (Dash.segmentTemplate representation) as [tmpl|]; [|done].
  destruct (falsy (Dash.media tmpl)); [done|].
  unfold initChunks, finishDASH, dashFilename.
  cbn [clearQuality v_id v_url v_filename].
  destruct (Dash.startNumber tmpl); rewrite ?generate_clear; done.
Qed.

(** The default choice does not look at the requested quality. *)
Lemma downloadBest_clear order genFuel qualities video :
  downloadBest resolveUrl net startDownload maxConcurrentDownloads order genFuel
               qualities video
  = downloadBest resolveUrl net startDownload maxConcurrentDownloads order genFuel
                 qualities (clearQuality video).
Proof.
  unfold downloadBest. cbn [clearQuality v_url].
  destruct (match find _ qualities with Some q => Some q | None => head qualities end)
    as [best|]; [|done].
  destruct (negb _ && negb _); [done|].
  destruct (is_some _); [|done].
  by rewrite downloadDASHSegments_clear.
Qed.

(** C4, amended. With a requested quality that matches no
    representation, an HLS acquisition over a master playlist fails with
    [Quality not found]; a DASH acquisition does not: it goes on exactly
    as if no quality had been requested, with the default choice. *)
Theorem unmatched_quality order genFuel video wanted status body :
  selectedQuality video = Some wanted ->
  wanted <> "" ->
  net (ReqManifest (v_url video)) = Response true status body ->
  (Hls.parseM3U8Master resolveUrl (text body) (v_url video) <> [] ->
   (forall q, q ∈ Hls.parseM3U8Master resolveUrl (text body) (v_url video) ->
              Hls.q_url q <> wanted) ->
   downloadHLS resolveUrl net subtleDecrypt startDownload maxConcurrentDownloads order video
   = ([], Returned (Error "Quality not found")))
  /\ ((forall q, q ∈ Dash.parseMPD resolveUrl (parseXml (text body)) (v_url video) ->
                 Dash.rep_url q <> wanted /\ Dash.rep_id q <> wanted) ->
      downloadDASH resolveUrl net startDownload parseXml maxConcurrentDownloads
                   order genFuel video
      = downloadDASH resolveUrl net startDownload parseXml maxConcurrentDownloads
                     order genFuel (clearQuality video)).
Proof.
  intros Hsel Hne Hnet. split.
  - intros Hq Hnone. unfold downloadHLS. rewrite Hnet. cbn [negb].
    destruct (Hls.parseM3U8Master _ _ _) as [|q qs] eqn:Hparse; [done|].
    cbn [length Nat.ltb Nat.leb].
    unfold falsy. rewrite Hsel. destruct wanted as [|c w]; [done|]. cbn [is_empty default].
    rewrite find_none; [done|].
    intros x Hx. apply String.eqb_neq. by apply Hnone.
  - intros Hnone. unfold downloadDASH. cbn [clearQuality v_url]. rewrite Hnet. cbn [negb].
    unfold downloadParsedDASH. cbn [clearQuality selectedQuality falsy].
    destruct (length _ =? 0)%nat; [done|].
    unfold falsy. rewrite Hsel. destruct wanted as [|c w]; [done|]. cbn [is_empty default].
    rewrite find_none; [apply downloadBest_clear|].
    intros x Hx. destruct (Hnone x Hx) as [Hu Hi].
    apply orb_false_iff. split; by apply String.eqb_neq.
Qed.
End Selection.

End SelectionFacts.

(** ** Captured request headers *)

Module AuthFacts.
Import JsString Auth Spec.

(** A key of the newly captured object replaces the stored one. *)
Lemma spread_cookie existing captured v :
  cookie captured = Some v -> cookie (spread existing captured) = Some v.
Proof. intros H. unfold spread, over. cbn [cookie]. by rewrite H. Qed.

Lemma spread_custom existing captured m :
  custom captured = Some m -> custom (spread existing captured) = Some m.
Proof. intros H. unfold spread, over. cbn [custom]. by rewrite H. Qed.

(** A key that the newly captured object lacks keeps its stored value. *)
Lemma spread_keeps existing captured :
  cookie captured = None -> cookie (spread existing captured) = cookie existing.
Proof. intros H. unfold spread, over. cbn [cookie]. by rewrite H. Qed.

(** C5, on the failing input. A tab has a stored cookie and a stored
    custom header [X-Token]; a later request of the tab carries an empty
    Cookie header and another custom header. After the listener has run
    the stored cookie is the empty one and [X-Token] is gone: the captured
    values replaced the stored ones. *)
Theorem captured_headers_replace_stored (urlOrigin : string -> option string) :
  let before : gmap Z Captured := {[ 7%Z := Examples.stored ]} in
  let after := onBeforeSendHeaders urlOrigin Examples.laterRequest before in
  storedCookie 7 before = Some "session=abc"
  /\ storedCustom 7 "X-Token" before = Some "t1"
  /\ storedCookie 7 after = Some ""
  /\ storedCustom 7 "X-Token" after = None
  /\ storedCustom 7 "X-Playback-Session" after = Some "p9".
Proof.
  cbv zeta. unfold storedCookie, storedCustom, onBeforeSendHeaders, capture.
  change (isStream (d_url Examples.laterRequest)) with true.
  change (tabId Examples.laterRequest <? 0)%Z with false.
  cbv iota. cbn [negb].
  change (tabId Examples.laterRequest) with 7%Z.
  rewrite !lookup_insert_eq.
  destruct (urlOrigin (d_url Examples.laterRequest)) as [o|]; vm_compute; done.
Qed.

End AuthFacts.

(** ** File names *)

Module FilenameFacts.
Import JsString Engine Spec StringFacts.

Lemma length_substring_to n s : String.length (substring_to n s) <= n.
Proof.
  revert s; induction n as [|n IH]; intros s; [simpl; lia|].
  destruct s as [|c s]; simpl; [lia|]. specialize (IH s). lia.
Qed.

(** The saved name has at most 200 characters. *)
Lemma sanitizeFilename_length name : String.length (sanitizeFilename name) <= 200.
Proof. apply length_substring_to. Qed.

Lemma allowed_substring_to n s : all allowed s = true -> all allowed (substring_to n s) = true.
Proof.
  revert s; induction n as [|n IH]; intros s; [done|].
  destruct s as [|c s]; [done|]. cbn [substring_to]. rewrite !all_cons.
  intros H. apply andb_true_iff in H as [Hc Hs]. by rewrite Hc, IH.
Qed.

Lemma allowed_trimStart s : all allowed s = true -> all allowed (trimStart s) = true.
Proof.
  induction s as [|c s IH]; [done|]. cbn [trimStart]. rewrite all_cons.
  intros H. apply andb_true_iff in H as [Hc Hs].
  destruct (is_space c); [by apply IH|]. by rewrite all_cons, Hc, Hs.
Qed.

Lemma allowed_trimEnd s : all allowed s = true -> all allowed (trimEnd s) = true.
Proof.
  induction s as [|c s IH]; [done|]. cbn [trimEnd]. rewrite all_cons.
  intros H. apply andb_true_iff in H as [Hc Hs].
  destruct (is_space c && is_empty (trimEnd s)); [done|]. by rewrite all_cons, Hc, IH.
Qed.

Lemma allowed_collapse s : forall in_run,
  all allowed s = true -> all allowed (collapse in_run s) = true.
Proof.
  induction s as [|c s IH]; intros in_run; [done|]. cbn [collapse]. rewrite all_cons.
  intros H. apply andb_true_iff in H as [Hc Hs].
  destruct (is_space c).
  - destruct in_run; [by apply IH|]. rewrite all_cons. by rewrite IH.
  - by rewrite all_cons, Hc, IH.
Qed.

Lemma allowed_replace s : all allowed (replace_forbidden s) = true.
Proof.
  induction s as [|c s IH]; [done|]. cbn [replace_forbidden]. rewrite all_cons, IH.
  unfold allowed. destruct (forbidden c) eqn:Hc; [done|]. by rewrite Hc.
Qed.

(** The saved name holds none of the characters that are replaced. *)
Lemma sanitizeFilename_allowed name : all allowed (sanitizeFilename name) = true.
Proof.
  unfold sanitizeFilename, trim.
  apply allowed_substring_to, allowed_trimEnd, allowed_trimStart, allowed_collapse,
    allowed_replace.
Qed.

(** C9, on the failing input. For a file name of 250 letters the saved
    name of an HLS download is cut to 200 characters and does not end with
    [.ts]; that of a DASH download does not end with [.mp4]. A short name
    gets its normalised extension. *)
Theorem long_name_loses_extension :
  String.length Examples.longName = 250
  /\ String.length (hlsFilename (Examples.withFilename Examples.hlsVideo Examples.longName))
     = 200
  /\ endsWith ".ts" (hlsFilename (Examples.withFilename Examples.hlsVideo Examples.longName))
     = false
  /\ endsWith ".mp4"
       (dashFilename (Examples.withFilename Examples.dashVideo Examples.longName))
     = false
  /\ hlsFilename Examples.hlsVideo = "lecture.ts"
  /\ dashFilename Examples.dashVideo = "lecture.mp4".
Proof. vm_compute. repeat split. Qed.

End FilenameFacts.

(** ** The properties on concrete runs *)

Module Scenarios.
Import JsString JsNumber Engine Spec Examples.

(** Counterexample to C7 as stated. A master playlist may list two
    variants of the same bandwidth, such as a main and a backup stream:
    [parseM3U8Master] returns both, in the order of the file, and the
    result is not in strictly descending order of bandwidth. *)
Lemma equal_bandwidths_are_not_strictly_descending :
  let result := Hls.parseM3U8Master resolve scenarioTie "https://cdn.example/master.m3u8" in
  map Hls.q_bandwidth result = [1200000; 1200000]%N
  /\ map Hls.q_url result
     = ["https://cdn.example/main/index.m3u8"; "https://cdn.example/backup/index.m3u8"]
  /\ ~ StronglySorted (strictlyDescending Hls.q_bandwidth) result.
Proof.
  cbv zeta. split; [reflexivity|]. split; [reflexivity|].
  intros H. apply StronglySorted_inv in H as [_ H].
  apply Forall_inv in H. vm_compute in H. discriminate.
Qed.

(** The variants of Scenario A have distinct bandwidths: by
    [parseM3U8Master_sorted_descending] their order is strict. *)
Lemma parseM3U8Master_sorted_descending_witness :
  NoDup (map Hls.q_bandwidth
             (Hls.stream_infs resolve "https://cdn.example/master.m3u8"
                              (map trim (split "010" scenarioA))))
  /\ StronglySorted (strictlyDescending Hls.q_bandwidth)
       (Hls.parseM3U8Master resolve scenarioA "https://cdn.example/master.m3u8").
Proof.
  assert (NoDup (map Hls.q_bandwidth
                     (Hls.stream_infs resolve "https://cdn.example/master.m3u8"
                                      (map trim (split "010" scenarioA))))) as Hnd.
  { change (NoDup [3000000; 1200000]%N). apply NoDup_cons. split.
    - intros H. apply list_elem_of_singleton in H. discriminate.
    - apply NoDup_singleton. }
  split; [exact Hnd|].
  exact (proj1 (proj2 (proj2 (proj2
           (PlaylistFacts.parseM3U8Master_sorted_descending
              resolve scenarioA "https://cdn.example/master.m3u8")))) Hnd).
Defined.

(** Scenario B between a header and trailing lines satisfies the
    hypotheses of [parseM3U8Segments_pairs]. *)
Lemma parseM3U8Segments_pairs_witness :
  let header := ["#EXTM3U"; "#EXT-X-TARGETDURATION:7"] in
  let footer := ["#EXT-X-ENDLIST"; ""] in
  Forall (fun l => oneLine l /\ passedOver l) header
  /\ Forall wellFormed scenarioBEntries
  /\ Forall (fun l => oneLine l /\ passedOver l) footer
  /\ Hls.parseM3U8Segments resolve (playlist header scenarioBEntries footer) baseB
     = map (segmentOf resolve baseB) scenarioBEntries
  /\ length (Hls.parseM3U8Segments resolve (playlist header scenarioBEntries footer) baseB)
     = length scenarioBEntries
  /\ Hls.parseM3U8Segments resolve scenarioB baseB
     = [Hls.mkSegment (resolve baseB "seg1.ts") (Finite (6006 # 1000));
        Hls.mkSegment (resolve baseB "seg2.ts") (Finite (6006 # 1000))].
Proof.
  cbv zeta.
  assert (Forall (fun l => oneLine l /\ passedOver l) ["#EXTM3U"; "#EXT-X-TARGETDURATION:7"])
    as Hhead by (repeat constructor).
  assert (Forall wellFormed scenarioBEntries) as Hwf by (repeat constructor).
  assert (Forall (fun l => oneLine l /\ passedOver l) ["#EXT-X-ENDLIST"; ""])
    as Hfoot by (repeat constructor).
  split; [exact Hhead|]. split; [exact Hwf|]. split; [exact Hfoot|].
  exact (PlaylistFacts.parseM3U8Segments_pairs resolve baseB _ _ _ Hhead Hwf Hfoot).
Defined.

Lemma network_responds manifest bad status segments :
  everyFetchResponds (network manifest bad status) segments.
Proof.
  intros index seg _. unfold responds, network. destruct (bad index); exact I.
Defined.

(** The two segments of Scenario B, fetched with success and settling in
    reverse order, satisfy the hypotheses of [hls_assembly_is_positional]. *)
Lemma hls_assembly_is_positional_witness :
  let segments := Hls.parseM3U8Segments resolve scenarioB baseB in
  let keyInfo := Hls.parseM3U8Key resolve scenarioB baseB in
  let bytesOf := segmentBytes netOk noDecrypt keyInfo (decryptionKeyOf netOk keyInfo) in
  segments <> []
  /\ everyFetchSucceeds netOk segments
  /\ everyFetchSettles 3 segments (reversed 3 2)
  /\ exists events blob,
       downloadHLSSegments resolve netOk noDecrypt download 3 (reversed 3 2)
                           scenarioB baseB hlsVideo
       = save download events
              (mkDownloadOptions (FromBlob blob) (hlsFilename hlsVideo) true)
              (Some (length segments))
       /\ parts blob = imap bytesOf segments
       /\ blobBytes blob = concat (imap bytesOf segments)
       /\ forall order', everyFetchSettles 3 segments order' ->
            downloadHLSSegments resolve netOk noDecrypt download 3 order'
                                scenarioB baseB hlsVideo
            = downloadHLSSegments resolve netOk noDecrypt download 3 (reversed 3 2)
                                  scenarioB baseB hlsVideo.
Proof.
  cbv zeta.
  assert (Hls.parseM3U8Segments resolve scenarioB baseB <> []) as Hne
    by (vm_compute; discriminate).
  assert (everyFetchSucceeds netOk (Hls.parseM3U8Segments resolve scenarioB baseB)) as Hok
    by (intros index seg _; exact I).
  assert (everyFetchSettles 3 (Hls.parseM3U8Segments resolve scenarioB baseB) (reversed 3 2))
    as Hset by (exact (PromiseFacts.reversed_settles 3 _)).
  split; [exact Hne|]. split; [exact Hok|]. split; [exact Hset|].
  exact (HlsFacts.hls_assembly_is_positional resolve netOk noDecrypt download 3
           scenarioB baseB hlsVideo (reversed 3 2) Hne Hok Hset).
Defined.

(** Counterexample to C2 as stated. Six segments, all refused with status
    403: the budget of five is exceeded, nothing is saved, and the handler
    reports [Too many segment failures (403)], not the error that tells
    that the authentication may have expired. *)
Lemma hls_budget_error_is_not_auth_expired :
  let run := downloadVideo resolve netRefused noDecrypt download (xml mpd) 3
                           (inOrder 3 6) 0 (Some hlsVideo) in
  failedFetches netRefused (Hls.parseM3U8Segments resolve sixSegments (v_url hlsVideo)) = 6
  /\ run = ([Progress "v1" 0 6; Progress "v1" 3 6],
            Returned (Error "Too many segment failures (403)"))
  /\ snd run <> Returned (Error noSegmentsDownloaded).
Proof.
  cbv zeta. split; [reflexivity|]. split; [vm_compute; reflexivity|].
  vm_compute. discriminate.
Qed.

(** The same six refused segments satisfy the hypotheses of
    [hls_budget_exceeded_aborts]. *)
Lemma hls_budget_exceeded_aborts_witness :
  let segments := Hls.parseM3U8Segments resolve sixSegments (v_url hlsVideo) in
  everyFetchResponds netRefused segments
  /\ everyFetchSettles 3 segments (inOrder 3 6)
  /\ 5 < failedFetches netRefused segments
  /\ exists events status,
       caught (downloadHLSSegments resolve netRefused noDecrypt download 3 (inOrder 3 6)
                                   sixSegments (v_url hlsVideo) hlsVideo)
       = (events, Returned (Error (tooMany status)))
       /\ Forall isProgress events.
Proof.
  cbv zeta.
  assert (everyFetchResponds netRefused
            (Hls.parseM3U8Segments resolve sixSegments (v_url hlsVideo))) as Hresp
    by (apply network_responds).
  assert (everyFetchSettles 3 (Hls.parseM3U8Segments resolve sixSegments (v_url hlsVideo))
                            (inOrder 3 6)) as Hset
    by (exact (PromiseFacts.inOrder_settles 3 _)).
  assert (5 < failedFetches netRefused
                (Hls.parseM3U8Segments resolve sixSegments (v_url hlsVideo))) as Hgt
    by (vm_compute; lia).
  split; [exact Hresp|]. split; [exact Hset|]. split; [exact Hgt|].
  exact (HlsFacts.hls_budget_exceeded_aborts resolve netRefused noDecrypt download 3
           sixSegments (v_url hlsVideo) hlsVideo (inOrder 3 6) Hresp Hset Hgt).
Defined.

(** Six segments of which the fifth is refused: the download succeeds,
    and the run satisfies the hypothesis of
    [hls_segmentCount_is_playlist_length]. *)
Lemma hls_segmentCount_is_playlist_length_witness :
  let segments := Hls.parseM3U8Segments resolve sixSegments (v_url hlsVideo) in
  let chunks := [[Byte.x00]; [Byte.x01]; [Byte.x02]; [Byte.x03]; [Byte.x05]] in
  let events := [Progress "v1" 0 6; Progress "v1" 3 6; Progress "v1" 6 6;
                 Download (hlsOptions hlsVideo chunks)] in
  downloadHLSSegments resolve netOneRefused noDecrypt download 3 (reversed 3 6)
                      sixSegments (v_url hlsVideo) hlsVideo
  = (events, Returned (Ok 1 (Some 6)))
  /\ Some 6 = Some (length segments)
  /\ exists events' chunks',
       events = events' ++ [Download (hlsOptions hlsVideo chunks')]
       /\ length chunks' + failedFetches netOneRefused segments = length segments
       /\ (0 < failedFetches netOneRefused segments -> length chunks' < length segments).
Proof.
  cbv zeta.
  assert (downloadHLSSegments resolve netOneRefused noDecrypt download 3 (reversed 3 6)
                              sixSegments (v_url hlsVideo) hlsVideo
          = ([Progress "v1" 0 6; Progress "v1" 3 6; Progress "v1" 6 6;
              Download (hlsOptions hlsVideo
                          [[Byte.x00]; [Byte.x01]; [Byte.x02]; [Byte.x03]; [Byte.x05]])],
             Returned (Ok 1 (Some 6)))) as Hrun
    by (vm_compute; reflexivity).
  split; [exact Hrun|].
  exact (HlsFacts.hls_segmentCount_is_playlist_length resolve netOneRefused noDecrypt
           download 3 sixSegments (v_url hlsVideo) hlsVideo (reversed 3 6) _ 1 (Some 6) Hrun).
Defined.

(** Counterexample to C3 as stated. Of six generated segments only the
    fifth is refused, one failure, far below any budget of five. The
    download saves the first three chunks only: the fourth and the sixth
    segment, whose fetches succeed, are not part of the output. *)
Lemma dash_failed_fetch_drops_other_segments :
  let run := downloadDASHSegments resolve netDash download 3 (inOrder 3 6) 10
                                  mpdRepresentation dashVideo in
  generateSegments resolve 10 dashVideo mpdRepresentation mpdTemplate = Some mpdSegments
  /\ map (fun k => okAt netDash k "") [0; 1; 2; 3; 4; 5]
     = [true; true; true; true; false; true]
  /\ run = ([Progress "v2" 3 6;
             Download (mkDownloadOptions
                         (FromBlob (mkBlob [[Byte.x00]; [Byte.x01]; [Byte.x02]] "video/mp4"))
                         "lecture.mp4" true)],
            Returned (Ok 1 (Some 3)))
  /\ ~ In (bodyAt netDash 3 "") [[Byte.x00]; [Byte.x01]; [Byte.x02]]
  /\ ~ In (bodyAt netDash 5 "") [[Byte.x00]; [Byte.x01]; [Byte.x02]].
Proof.
  cbv zeta. split; [vm_compute; reflexivity|]. split; [reflexivity|].
  split; [vm_compute; reflexivity|].
  split; vm_compute; intros [H|[H|[H|[]]]]; discriminate H.
Qed.

(** The same run satisfies the hypotheses of
    [dash_failure_ends_retrieval], with one whole batch before the
    failing one: its three chunks are saved. *)
Lemma dash_failure_ends_retrieval_witness :
  Dash.segmentTemplate mpdRepresentation = Some mpdTemplate
  /\ falsy (Dash.media mpdTemplate) = false
  /\ generateSegments resolve 10 dashVideo mpdRepresentation mpdTemplate = Some mpdSegments
  /\ everyFetchSettles 3 mpdSegments (inOrder 3 6)
  /\ (forall index url, mpdSegments !! index = Some url -> index < 1 * batchSize 3 ->
                        okAt netDash index url = true)
  /\ (exists index url, mpdSegments !! index = Some url
                        /\ 1 * batchSize 3 <= index < 1 * batchSize 3 + batchSize 3
                        /\ okAt netDash index url = false)
  /\ initChunks resolve netDash dashVideo mpdRepresentation mpdTemplate
     ++ take (1 * batchSize 3) (bodies netDash mpdSegments)
     = [[Byte.x00]; [Byte.x01]; [Byte.x02]]
  /\ exists events,
       Forall isProgress events
       /\ let run := downloadDASHSegments resolve netDash download 3 (inOrder 3 6) 10
                                          mpdRepresentation dashVideo in
          let chunks := initChunks resolve netDash dashVideo mpdRepresentation mpdTemplate
                        ++ take (1 * batchSize 3) (bodies netDash mpdSegments) in
          let opts := mkDownloadOptions (FromBlob (mkBlob chunks "video/mp4"))
                                        (dashFilename dashVideo) true in
          (chunks = [] -> run = (events, Returned (Error "No DASH segments downloaded")))
          /\ (chunks <> [] ->
              run = (events ++ [Download opts],
                     match download opts with
                     | inl downloadId => Returned (Ok downloadId (Some (length chunks)))
                     | inr e => Thrown e
                     end)).
Proof.
  assert (generateSegments resolve 10 dashVideo mpdRepresentation mpdTemplate
          = Some mpdSegments) as Hgen by (vm_compute; reflexivity).
  assert (everyFetchSettles 3 mpdSegments (inOrder 3 6)) as Hset
    by (exact (PromiseFacts.inOrder_settles 3 mpdSegments)).
  assert (forall index url, mpdSegments !! index = Some url -> index < 1 * batchSize 3 ->
                            okAt netDash index url = true) as Hgood.
  { intros index url _ Hlt. destruct index as [|[|[|index]]]; try reflexivity.
    vm_compute in Hlt. lia. }
  assert (exists index url, mpdSegments !! index = Some url
                            /\ 1 * batchSize 3 <= index < 1 * batchSize 3 + batchSize 3
                            /\ okAt netDash index url = false) as Hbad.
  { exists 4, "https://cdn.example/chunk-5.m4s". split; [reflexivity|].
    split; [vm_compute; lia|reflexivity]. }
  split; [reflexivity|]. split; [reflexivity|]. split; [exact Hgen|].
  split; [exact Hset|]. split; [exact Hgood|]. split; [exact Hbad|].
  split; [vm_compute; reflexivity|].
  exact (DashFacts.dash_failure_ends_retrieval resolve netDash download 3 (inOrder 3 6) 10
           mpdRepresentation dashVideo mpdTemplate mpdSegments 1
           eq_refl eq_refl Hgen Hset Hgood Hbad).
Defined.

(** Counterexample to C4 as stated. The MPD has one representation, with
    id [v720]; the requested quality [v1080] matches neither its id nor
    its URL. The DASH download does not fail: it fetches the six segments
    of the default representation and saves them. *)
Lemma dash_unmatched_quality_is_not_an_error :
  let video := withQuality dashVideo "v1080" in
  let run := downloadVideo resolve netOk noDecrypt download (xml mpd) 3
                           (inOrder 3 6) 10 (Some video) in
  map (fun q => (Dash.rep_id q, Dash.rep_url q)) mpdQualities
  = [("v720", "https://cdn.example/manifest.mpd")]
  /\ snd run = Returned (Ok 1 (Some 6))
  /\ snd run <> Returned (Error "Quality not found").
Proof.
  cbv zeta. split; [vm_compute; reflexivity|]. split; [vm_compute; reflexivity|].
  vm_compute. discriminate.
Qed.

(** A master playlist, and an MPD, with a requested quality that nothing
    matches satisfy the hypotheses of [unmatched_quality]. *)
Lemma unmatched_quality_witness :
  let video := withQuality hlsVideo "v1080" in
  selectedQuality video = Some "v1080"
  /\ "v1080" <> ""
  /\ netMaster (ReqManifest (v_url video))
     = Response true 200 (list_byte_of_string Examples.scenarioA)
  /\ downloadHLS resolve netMaster noDecrypt download 3 (inOrder 3 6) video
     = ([], Returned (Error "Quality not found"))
  /\ downloadDASH resolve netMaster download (xml mpd) 3 (inOrder 3 6) 10 video
     = downloadDASH resolve netMaster download (xml mpd) 3 (inOrder 3 6) 10
                    (clearQuality video).
Proof.
  cbv zeta.
  assert ("v1080" <> "") as Hne by discriminate.
  destruct (SelectionFacts.unmatched_quality resolve netMaster noDecrypt download (xml mpd) 3
              (inOrder 3 6) 10 (withQuality hlsVideo "v1080") "v1080" 200
              (list_byte_of_string Examples.scenarioA) eq_refl Hne eq_refl)
    as [Hhls Hdash].
  split; [reflexivity|]. split; [exact Hne|]. split; [reflexivity|]. split.
  - apply Hhls; [vm_compute; discriminate|].
    intros q Hq. apply list_elem_of_In in Hq. vm_compute in Hq.
    destruct Hq as [<-|[<-|[]]]; discriminate.
  - apply Hdash. intros q Hq. apply list_elem_of_In in Hq. vm_compute in Hq.
    destruct Hq as [<-|[]]; split; discriminate.
Defined.

End Scenarios.

(** ** File names, for every name *)

Module NameFacts.
Import JsString Engine Spec Terms StringFacts FilenameFacts.

Lemma singleSpaced_collapse s : forall in_run,
  singleSpaced in_run (collapse in_run s) = true.
Proof.
  induction s as [|c s IH]; intros in_run; [done|]. cbn [collapse].
  destruct (is_space c) eqn:Hc.
  - destruct in_run; [apply IH|]. cbn [singleSpaced].
    change (is_space " ") with true. cbv iota. by rewrite IH.
  - cbn [singleSpaced]. rewrite Hc. apply IH.
Qed.

Lemma singleSpaced_trimStart s : forall b,
  singleSpaced b s = true -> singleSpaced true (trimStart s) = true.
Proof.
  induction s as [|c s IH]; intros b; [done|]. cbn [trimStart singleSpaced].
  destruct (is_space c) eqn:Hc.
  - intros H. apply andb_true_iff in H as [_ H]. by eapply IH.
  - intros H. cbn [singleSpaced]. by rewrite Hc.
Qed.

Lemma singleSpaced_trimEnd s : forall b,
  singleSpaced b s = true -> singleSpaced b (trimEnd s) = true.
Proof.
  induction s as [|c s IH]; intros b; [done|]. cbn [trimEnd singleSpaced].
  destruct (is_space c) eqn:Hc.
  - intros H. apply andb_true_iff in H as [H1 H2].
    destruct (is_empty (trimEnd s)); [done|]. cbn [andb singleSpaced].
    rewrite Hc, H1. by apply IH.
  - intros H. cbn [andb singleSpaced]. rewrite Hc. by apply IH.
Qed.

Lemma singleSpaced_substring_to n : forall s b,
  singleSpaced b s = true -> singleSpaced b (substring_to n s) = true.
Proof.
  induction n as [|n IH]; intros s b; [done|].
  destruct s as [|c s]; [done|]. cbn [substring_to singleSpaced].
  destruct (is_space c).
  - intros H. apply andb_true_iff in H as [H1 H2]. rewrite H1. by apply IH.
  - apply IH.
Qed.

(** X1. Whatever the name, the saved name has at most 200 characters and
    none of the characters that Windows forbids in a file name; it does not
    start with whitespace, and every whitespace left in it is one space
    between two other characters or at the very end. *)
Theorem sanitizeFilename_is_tidy name :
  String.length (sanitizeFilename name) <= 200
  /\ all allowed (sanitizeFilename name) = true
  /\ singleSpaced true (sanitizeFilename name) = true.
Proof.
  split; [apply sanitizeFilename_length|]. split; [apply sanitizeFilename_allowed|].
  unfold sanitizeFilename, trim.
  apply singleSpaced_substring_to, singleSpaced_trimEnd.
  eapply singleSpaced_trimStart. apply (singleSpaced_collapse _ false).
Qed.

Lemma string_length_app (a b : string) : String.length (a +:+ b) = String.length a + String.length b.
Proof. induction a as [|c a IH]; [done|]. rewrite app_cons. simpl. by rewrite IH. Qed.

Lemma replace_forbidden_app a b :
  replace_forbidden (a +:+ b) = replace_forbidden a +:+ replace_forbidden b.
Proof. induction a as [|c a IH]; [done|]. rewrite app_cons. simpl. by rewrite IH. Qed.

Lemma length_replace_forbidden s : String.length (replace_forbidden s) = String.length s.
Proof. induction s as [|c s IH]; [done|]. simpl. by rewrite IH. Qed.

Lemma length_collapse s : forall in_run,
  String.length (collapse in_run s) <= String.length s.
Proof.
  induction s as [|c s IH]; intros in_run; [done|]. cbn [collapse].
  destruct (is_space c); [destruct in_run|]; simpl;
    [specialize (IH true)|specialize (IH true)|specialize (IH false)]; lia.
Qed.

Lemma replace_forbidden_plain s : all plain s = true -> replace_forbidden s = s.
Proof.
  induction s as [|c s IH]; [done|]. rewrite all_cons. intros H.
  apply andb_true_iff in H as [Hc Hs]. simpl. rewrite IH by done.
  unfold plain, allowed in Hc. apply andb_true_iff in Hc as [_ Hc].
  apply negb_true_iff in Hc. by rewrite Hc.
Qed.

Lemma collapse_plain s : forall in_run, all plain s = true -> collapse in_run s = s.
Proof.
  induction s as [|c s IH]; intros in_run; [done|]. rewrite all_cons. intros H.
  apply andb_true_iff in H as [Hc Hs]. cbn [collapse].
  unfold plain in Hc. apply andb_true_iff in Hc as [Hc _].
  apply negb_true_iff in Hc. rewrite Hc. by rewrite IH.
Qed.

Lemma collapse_app a c t : forall in_run,
  is_space c = false ->
  collapse in_run (a +:+ String c t) = collapse in_run a +:+ String c (collapse false t).
Proof.
  intros in_run Hc. revert in_run. induction a as [|x a IH]; intros in_run.
  - simpl. by rewrite Hc.
  - rewrite app_cons. cbn [collapse].
    destruct (is_space x); [destruct in_run|]; rewrite IH; done.
Qed.

Lemma trimEnd_plain s : all plain s = true -> trimEnd s = s.
Proof.
  induction s as [|c s IH]; [done|]. rewrite all_cons. intros H.
  apply andb_true_iff in H as [Hc Hs]. cbn [trimEnd]. rewrite IH by done.
  unfold plain in Hc. apply andb_true_iff in Hc as [Hc _].
  apply negb_true_iff in Hc. by rewrite Hc.
Qed.

Lemma trimStart_app a c t :
  is_space c = false ->
  exists z, trimStart (a +:+ String c t) = z +:+ String c t
            /\ String.length z <= String.length a.
Proof.
  intros Hc. induction a as [|x a IH].
  - exists "". simpl. by rewrite Hc.
  - rewrite app_cons. cbn [trimStart]. destruct (is_space x).
    + destruct IH as (z & -> & Hz). exists z. split; [done|]. simpl. lia.
    + exists (String x a). by rewrite app_cons.
Qed.

Lemma substring_to_all n s : String.length s <= n -> substring_to n s = s.
Proof.
  revert s; induction n as [|n IH]; intros [|c s]; simpl; try done; [lia|].
  intros H. rewrite IH; [done|lia].
Qed.

Lemma endsWith_app a b : endsWith b (a +:+ b) = true.
Proof.
  induction a as [|c a IH].
  - change ("" +:+ b) with b. destruct b; cbn [endsWith]; by rewrite String.eqb_refl.
  - rewrite app_cons. cbn [endsWith]. rewrite IH. apply orb_true_r.
Qed.

(** A suffix of plain characters survives the sanitiser when the whole
    name fits into 200 characters. *)
Lemma sanitizeFilename_suffix base c ext :
  all plain (String c ext) = true ->
  String.length base + String.length (String c ext) <= 200 ->
  exists z, sanitizeFilename (base +:+ String c ext) = z +:+ String c ext.
Proof.
  intros Hplain Hlen.
  pose proof Hplain as Hall. rewrite all_cons in Hall.
  apply andb_true_iff in Hall as [Hc Hext].
  assert (is_space c = false) as Hsp.
  { unfold plain in Hc. apply andb_true_iff in Hc as [Hc _]. by apply negb_true_iff in Hc. }
  unfold sanitizeFilename, trim.
  rewrite replace_forbidden_app, (replace_forbidden_plain _ Hplain).
  rewrite collapse_app, (collapse_plain _ _ Hext) by done.
  destruct (trimStart_app (collapse false (replace_forbidden base)) c ext Hsp)
    as (z & -> & Hz).
  rewrite trimEnd_app_keep, (trimEnd_plain _ Hext) by done.
  exists z. apply substring_to_all.
  rewrite string_length_app.
  pose proof (length_collapse (replace_forbidden base) false) as H1.
  rewrite length_replace_forbidden in H1. lia.
Qed.

Lemma length_strip_suffix suffixes s :
  String.length (strip_suffix suffixes s) <= String.length s.
Proof.
  induction s as [|c s IH]; simpl.
  - by destruct (existsb _ _).
  - destruct (existsb _ _); simpl; lia.
Qed.

Lemma or_default_length (a : option string) d n :
  match a with Some s => String.length s <= n | None => True end ->
  String.length d <= n ->
  String.length (or_default a d) <= n.
Proof. destruct a as [[|c s]|]; simpl; intros; lia. Qed.

(** X2. A name of at most 196 characters keeps the normalised extension:
    the saved name of an HLS download ends with [.ts], that of a DASH
    download with [.mp4]. So does the saved name of a download without a
    name. *)
Theorem short_name_keeps_extension video :
  match v_filename video with Some s => String.length s <= 196 | None => True end ->
  endsWith ".ts" (hlsFilename video) = true
  /\ endsWith ".mp4" (dashFilename video) = true.
Proof.
  intros Hlen.
  pose proof (or_default_length (v_filename video) "video" 196 Hlen) as Hn.
  split.
  - unfold hlsFilename.
    pose proof (length_strip_suffix [".m3u8"; ".m3u"; ".ts"]
                  (or_default (v_filename video) "video")) as Hs.
    destruct (sanitizeFilename_suffix
                (strip_suffix [".m3u8"; ".m3u"; ".ts"] (or_default (v_filename video) "video"))
                "." "ts") as [z ->]; [done|simpl in *; lia|].
    apply endsWith_app.
  - unfold dashFilename.
    pose proof (length_strip_suffix [".mpd"; ".mp4"]
                  (or_default (v_filename video) "video")) as Hs.
    destruct (sanitizeFilename_suffix
                (strip_suffix [".mpd"; ".mp4"] (or_default (v_filename video) "video"))
                "." "mp4") as [z ->]; [done|simpl in *; lia|].
    apply endsWith_app.
Qed.

Lemma toLowerCase_app a b : toLowerCase (a +:+ b) = toLowerCase a +:+ toLowerCase b.
Proof. induction a as [|c a IH]; [done|]. rewrite app_cons. simpl. by rewrite IH. Qed.

Lemma existsb_eqb s l : existsb (String.eqb s) l = true <-> In s l.
Proof.
  rewrite existsb_exists. split.
  - intros (x & Hx & Heq). apply String.eqb_eq in Heq. by subst.
  - intros H. exists s. split; [done|apply String.eqb_refl].
Qed.

(** The pattern removes exactly the extension when the name ends with
    one of the suffixes. *)
Lemma strip_suffix_ext suffixes name ext :
  suffixFree suffixes = true ->
  In (toLowerCase ext) suffixes ->
  strip_suffix suffixes (name +:+ ext) = name.
Proof.
  intros Hfree Hext. induction name as [|c name IH].
  - change ("" +:+ ext) with ext.
    apply existsb_eqb in Hext. destruct ext; cbn [strip_suffix]; by rewrite Hext.
  - rewrite app_cons. cbn [strip_suffix]. rewrite IH.
    destruct (existsb _ suffixes) eqn:Hex; [|done]. exfalso.
    apply existsb_eqb in Hex.
    unfold suffixFree in Hfree. rewrite forallb_forall in Hfree.
    specialize (Hfree _ Hex). rewrite forallb_forall in Hfree.
    specialize (Hfree _ Hext).
    apply orb_true_iff in Hfree as [Heq|Hends].
    + apply String.eqb_eq in Heq. apply (f_equal String.length) in Heq.
      cbn [toLowerCase] in Heq. rewrite toLowerCase_app in Heq.
      simpl in Heq. rewrite string_length_app in Heq. lia.
    + apply negb_true_iff in Hends. cbn [toLowerCase] in Hends.
      rewrite toLowerCase_app in Hends.
      change (String (lower c) (toLowerCase name +:+ toLowerCase ext))
        with (String (lower c) (toLowerCase name) +:+ toLowerCase ext) in Hends.
      by rewrite endsWith_app in Hends.
Qed.

(** X3. A name that ends with a manifest or segment extension, in any
    letter case, has that extension replaced and not doubled: the saved
    name of an HLS download is the sanitised rest of the name with [.ts],
    that of a DASH download the sanitised rest with [.mp4]. *)
Theorem extension_is_replaced video name ext :
  v_filename video = Some (name +:+ ext) ->
  (In (toLowerCase ext) [".m3u8"; ".m3u"; ".ts"] ->
   hlsFilename video = sanitizeFilename (name +:+ ".ts"))
  /\ (In (toLowerCase ext) [".mpd"; ".mp4"] ->
      dashFilename video = sanitizeFilename (name +:+ ".mp4")).
Proof.
  intros Hname.
  assert (forall l, In (toLowerCase ext) l -> In "" l \/ or_default (v_filename video) "video"
                                             = name +:+ ext) as Hdef.
  { intros l Hl. rewrite Hname. destruct (name +:+ ext) eqn:Heq; [|by right].
    left. destruct name; [|done]. change ("" +:+ ext) with ext in Heq. by subst. }
  split; intros Hext.
  - unfold hlsFilename. destruct (Hdef _ Hext) as [Hbad| ->].
    + simpl in Hbad. intuition discriminate.
    + by rewrite strip_suffix_ext.
  - unfold dashFilename. destruct (Hdef _ Hext) as [Hbad| ->].
    + simpl in Hbad. intuition discriminate.
    + by rewrite strip_suffix_ext.
Qed.

End NameFacts.

(** ** Playlists and the choice of a quality *)

Module ParsingFacts.
Import JsString JsNumber Hls Engine Spec Terms StringFacts PlaylistFacts.

Section Parsing.
Variable resolveUrl : string -> string -> string.
Variable baseUrl : string.

Lemma startsWith_trans p q s :
  startsWith p q = true -> startsWith q s = true -> startsWith p s = true.
Proof.
  unfold startsWith. revert q s. induction p as [|a p IH]; intros q s.
  - intros _ _. by destruct s.
  - destruct q as [|b q]; [done|]. destruct s as [|c s]; [done|]. simpl.
    destruct (ascii_dec a b) as [->|]; [|done].
    destruct (ascii_dec b c) as [->|]; [|done].
    apply IH.
Qed.

Lemma extinf_not_uri l : startsWith "#EXTINF:" l = true -> uriLine l = false.
Proof.
  intros H. unfold uriLine.
  rewrite (startsWith_trans "#" "#EXTINF:" l) by done. apply andb_false_r.
Qed.

Lemma segments_from_urls lines : forall d,
  map seg_url (segments_from resolveUrl baseUrl d lines)
  = map (resolveUrl baseUrl) (List.filter uriLine lines).
Proof.
  induction lines as [|l lines IH]; intros d; [done|].
  cbn [segments_from List.filter].
  destruct (startsWith "#EXTINF:" l) eqn:Hinf.
  - rewrite (extinf_not_uri _ Hinf). apply IH.
  - fold (uriLine l). destruct (uriLine l); [|apply IH].
    rewrite !map_cons. cbn [seg_url]. by rewrite IH.
Qed.

(** X4. [parseM3U8Segments] returns one segment for every line of the
    playlist that, once trimmed, is neither empty nor starts with [#], in
    file order, whatever tags stand between them: the segment URLs are
    these lines resolved against the base URL. A playlist without such a
    line has no segment. *)
Theorem parseM3U8Segments_urls content :
  map seg_url (parseM3U8Segments resolveUrl content baseUrl)
  = map (resolveUrl baseUrl) (List.filter uriLine (linesOf content))
  /\ length (parseM3U8Segments resolveUrl content baseUrl)
     = length (List.filter uriLine (linesOf content)).
Proof.
  assert (map seg_url (parseM3U8Segments resolveUrl content baseUrl)
          = map (resolveUrl baseUrl) (List.filter uriLine (linesOf content))) as H
    by apply segments_from_urls.
  split; [done|].
  apply (f_equal length) in H. by rewrite !length_map in H.
Qed.

Lemma stream_infs_none lines :
  Forall (fun l => startsWith "#EXT-X-STREAM-INF:" l = false) lines ->
  stream_infs resolveUrl baseUrl lines = [].
Proof.
  induction 1 as [|l lines Hl _ IH]; [done|]. cbn [stream_infs]. by rewrite Hl.
Qed.

End Parsing.

Section Download.
Variable resolveUrl : string -> string -> string.
Variable net : Request -> FetchOutcome.
Variable subtleDecrypt : bytes -> bytes -> bytes -> option bytes.
Variable startDownload : DownloadOptions -> nat + string.
Variable maxConcurrentDownloads : nat.

Abbreviation segmentsRun :=
  (downloadHLSSegments resolveUrl net subtleDecrypt startDownload maxConcurrentDownloads).
Abbreviation hlsRun :=
  (downloadHLS resolveUrl net subtleDecrypt startDownload maxConcurrentDownloads).

(** X5. A manifest none of whose lines is a stream tag is taken as a media
    playlist: [downloadHLS] fetches nothing more for the choice of a
    quality, ignores a requested quality, and downloads the segments of
    the manifest itself, resolved against the manifest URL. *)
Theorem media_playlist_is_downloaded_directly order video status body :
  net (ReqManifest (v_url video)) = Response true status body ->
  Forall (fun l => startsWith "#EXT-X-STREAM-INF:" l = false) (linesOf (text body)) ->
  hlsRun order video = segmentsRun order (text body) (v_url video) video.
Proof.
  intros Hnet Hlines. unfold downloadHLS. rewrite Hnet. cbn [negb].
  unfold parseM3U8Master. fold (linesOf (text body)).
  by rewrite stream_infs_none.
Qed.

Lemma find_elem {A : Type} (p : A -> bool) (l : list A) x :
  x ∈ l -> p x = true -> exists y, find p l = Some y /\ y ∈ l /\ p y = true.
Proof.
  induction l as [|z l IH]; intros Hx Hp.
  - by apply elem_of_nil in Hx.
  - simpl. destruct (p z) eqn:Hz.
    + exists z. split; [done|]. split; [|done]. apply elem_of_cons. by left.
    + apply elem_of_cons in Hx as [->|Hx]; [congruence|].
      destruct (IH Hx Hp) as (y & Hy & Hin & Hpy). exists y.
      split; [done|]. split; [|done]. apply elem_of_cons. by right.
Qed.

(** X6. A quality that [parseM3U8Master] lists for the manifest, as the
    quality picker offers it, is found again when it is requested by its
    URL: the download never answers [Quality not found], and the media
    playlist it fetches is the one at that URL. *)
Theorem listed_quality_is_found order video status body q :
  net (ReqManifest (v_url video)) = Response true status body ->
  q ∈ parseM3U8Master resolveUrl (text body) (v_url video) ->
  q_url q <> "" ->
  selectedQuality video = Some (q_url q) ->
  hlsRun order video
  = fetchPlaylist net (fun content url => segmentsRun order content url video) (q_url q).
Proof.
  intros Hnet Hq Hne Hsel. unfold downloadHLS. rewrite Hnet. cbn [negb].
  destruct (parseM3U8Master _ _ _) as [|q0 qs] eqn:Hparse; [by apply elem_of_nil in Hq|].
  cbn [length Nat.ltb Nat.leb]. unfold falsy. rewrite Hsel.
  destruct (q_url q) as [|c u] eqn:Hu; [done|]. cbn [is_empty].
  destruct (find_elem (fun x => String.eqb (q_url x) (default "" (Some (String c u))))
              (q0 :: qs) q Hq)
    as (sel & -> & _ & Heq); [by rewrite Hu; apply String.eqb_refl|].
  apply String.eqb_eq in Heq. rewrite Heq.
  change (default "" (Some (String c u))) with (String c u).
  unfold fetchPlaylist.
  destruct (net (ReqPlaylist (String c u))) as [[] st b|e]; done.
Qed.

End Download.

End ParsingFacts.

(** ** The shape of an HLS run *)

Module RunFacts.
Import JsString Engine Spec Terms PromiseFacts HlsFacts.

Section Batch.
Variable net : Request -> FetchOutcome.
Variable subtleDecrypt : bytes -> bytes -> bytes -> option bytes.
Variable keyInfo : option Hls.KeyInfo.
Variable decryptionKey : option bytes.

Lemma arrivals_budget (tasks : list (Task nat (option bytes))) order :
  (forall k t fc, tasks !! k = Some t ->
     match t fc with
     | (fc', inl _) => fc' = fc \/ (fc' = S fc /\ fc' <= 5)
     | (_, inr _) => True
     end) ->
  forall fc slots fc' vs,
    arrivals tasks order fc slots = (fc', Fulfilled vs) -> fc <= 5 -> fc' <= 5.
Proof.
  intros Htasks. induction order as [|k order IH]; intros fc slots fc' vs Harr Hfc.
  - cbn [arrivals] in Harr. by simplify_eq.
  - cbn [arrivals] in Harr.
    destruct (tasks !! k) as [t|] eqn:Ht; [|by eapply IH].
    destruct (slots !! k) as [[v|]|]; [by eapply IH| |by eapply IH].
    specialize (Htasks k t fc Ht).
    destruct (t fc) as [fc1 [v|e]]; [|by simplify_eq].
    eapply IH; [exact Harr|]. lia.
Qed.

Lemma hlsTask_budget batch i k t fc :
  imap (hlsTask net subtleDecrypt keyInfo decryptionKey i) batch !! k = Some t ->
  match t fc with
  | (fc', inl _) => fc' = fc \/ (fc' = S fc /\ fc' <= 5)
  | (_, inr _) => True
  end.
Proof.
  rewrite list_lookup_imap. destruct (batch !! k) as [seg|]; [|done].
  intros H. simpl in H. simplify_eq. unfold hlsTask.
  destruct (net _) as [[] st body|e]; [by left| |done].
  destruct (5 <? S fc)%nat eqn:Hlt; [done|]. apply Nat.ltb_ge in Hlt. by right.
Qed.

Lemma promiseAll_budget batch i order fc fc' vs :
  promiseAll (imap (hlsTask net subtleDecrypt keyInfo decryptionKey i) batch) order fc
  = (fc', Fulfilled vs) ->
  fc <= 5 -> fc' <= 5.
Proof.
  intros H. eapply arrivals_budget; [|exact H].
  intros k t fc0. apply hlsTask_budget.
Qed.
End Batch.

Section Loop.
Variable net : Request -> FetchOutcome.
Variable subtleDecrypt : bytes -> bytes -> bytes -> option bytes.
Variable maxConcurrentDownloads : nat.
Variable keyInfo : option Hls.KeyInfo.
Variable decryptionKey : option bytes.
Variable videoId : string.
Variable segments : list Hls.Segment.
Variable order : nat -> list nat.

Abbreviation b := (batchSize maxConcurrentDownloads).
Abbreviation n := (length segments).
Abbreviation loop :=
  (hlsBatches net subtleDecrypt maxConcurrentDownloads videoId segments keyInfo
              decryptionKey order).
Abbreviation results := (allResults net subtleDecrypt keyInfo decryptionKey segments).

(** Whatever the network does, the loop adds progress messages only. *)
Lemma loop_events fuel : forall i chunks fc events,
  exists events',
    fst (loop fuel i chunks fc events) = events ++ events'
    /\ Forall (reports videoId n) events'.
Proof.
  induction fuel as [|fuel IH]; intros i chunks fc events; cbn [hlsBatches].
  - exists []. rewrite app_nil_r. split; [by destruct (i <? n)%nat|done].
  - destruct (i <? n)%nat; [|exists []; by rewrite app_nil_r].
    destruct (promiseAll _ _ _) as [fc' [vs|e|]];
      [|exists []; by rewrite app_nil_r..].
    edestruct IH as (events' & -> & Hev). eexists (_ :: events').
    rewrite <- app_assoc. split; [done|].
    constructor; [|done]. simpl. repeat split. lia.
Qed.

(** A loop that completes has counted no more than five refusals. *)
Lemma loop_budget fuel : forall i chunks fc events events' chunks',
  loop fuel i chunks fc events = (events', Completes chunks') ->
  fc <= 5 -> fc + nulls (drop i results) <= 5.
Proof.
  assert (forall i, n <= i -> drop i results = []) as Hdrop
    by (intros i Hi; apply drop_ge; unfold allResults; rewrite length_imap; lia).
  induction fuel as [|fuel IH]; intros i chunks fc events events' chunks' Hloop Hfc;
    cbn [hlsBatches] in Hloop; destruct (i <? n)%nat eqn:Hi.
  - by simplify_eq.
  - apply Nat.ltb_ge in Hi. rewrite Hdrop by done. unfold nulls; simpl. lia.
  - destruct (promiseAll _ _ _) as [fc' [vs|e|]] eqn:Hall; [|by simplify_eq..].
    pose proof (promiseAll_budget _ _ _ _ _ _ _ _ _ _ Hall Hfc) as Hfc'.
    apply promiseAll_fulfilled in Hall as (-> & _ & ->).
    apply IH in Hloop; [|done].
    rewrite (results_split net subtleDecrypt maxConcurrentDownloads keyInfo decryptionKey
               segments i), nulls_app.
    rewrite batchResults_window in Hloop. lia.
  - apply Nat.ltb_ge in Hi. rewrite Hdrop by done. unfold nulls; simpl. lia.
Qed.

(** Without a key the loop does not use the decryption service. *)
Lemma loop_no_key (subtleDecrypt' : bytes -> bytes -> bytes -> option bytes) fuel :
  decryptionKey = None ->
  forall i chunks fc events,
    loop fuel i chunks fc events
    = hlsBatches net subtleDecrypt' maxConcurrentDownloads videoId segments keyInfo
                 decryptionKey order fuel i chunks fc events.
Proof.
  intros ->. induction fuel as [|fuel IH]; intros i chunks fc events; cbn [hlsBatches]; [done|].
  destruct (i <? n)%nat; [|done].
  replace (imap (hlsTask net subtleDecrypt keyInfo None i) (take b (drop i segments)))
    with (imap (hlsTask net subtleDecrypt' keyInfo None i) (take b (drop i segments)))
    by (apply imap_ext; done).
  destruct (promiseAll _ _ _) as [fc' [vs|e|]]; [|done..].
  apply IH.
Qed.
End Loop.

Section Download.
Variable resolveUrl : string -> string -> string.
Variable net : Request -> FetchOutcome.
Variable subtleDecrypt : bytes -> bytes -> bytes -> option bytes.
Variable startDownload : DownloadOptions -> nat + string.
Variable maxConcurrentDownloads : nat.
Variables (content baseUrl : string) (video : Video).

Abbreviation segments := (Hls.parseM3U8Segments resolveUrl content baseUrl).
Abbreviation keyInfo := (Hls.parseM3U8Key resolveUrl content baseUrl).
Abbreviation decryptionKey := (decryptionKeyOf net keyInfo).
Abbreviation run :=
  (downloadHLSSegments resolveUrl net subtleDecrypt startDownload maxConcurrentDownloads).
Abbreviation results := (allResults net subtleDecrypt keyInfo decryptionKey segments).

(** X7. Whatever the network answers and in whatever order, a run of
    [downloadHLSSegments] sends progress messages that never report more
    than the number of segments, and hands at most one file to the
    browser: a non-empty blob, as its last act. When the run does not end
    with that save, nothing has been saved and the result is no success. *)
Theorem hls_saves_at_most_once order :
  exists progress,
    Forall (reports (v_id video) (length segments)) progress
    /\ ((fst (run order content baseUrl video) = progress
         /\ isOk (snd (run order content baseUrl video)) = false)
        \/ exists chunks,
             chunks <> []
             /\ run order content baseUrl video
                = save startDownload progress (hlsOptions video chunks)
                       (Some (length segments))).
Proof.
  unfold downloadHLSSegments.
  destruct (length segments =? 0)%nat.
  { exists []. split; [done|]. by left. }
  destruct (loop_events net subtleDecrypt maxConcurrentDownloads keyInfo decryptionKey
              (v_id video) segments order (length segments) 0 [] 0
              [Progress (v_id video) 0 (length segments)]) as (events' & Hev & Hrep).
  destruct (hlsBatches _ _ _ _ _ _ _ _ _ _ _ _ _) as [ev l]. simpl in Hev. subst ev.
  assert (Forall (reports (v_id video) (length segments))
                 ([Progress (v_id video) 0 (length segments)] ++ events')) as Hall.
  { apply Forall_app. split; [|done]. constructor; [|done]. simpl. repeat split. lia. }
  destruct l as [chunks|e|].
  - destruct (length chunks =? 0)%nat eqn:Hlen.
    + eexists. split; [exact Hall|]. by left.
    + eexists. split; [exact Hall|]. right. exists chunks.
      split; [|done]. intros ->. done.
  - eexists. split; [exact Hall|]. by left.
  - eexists. split; [exact Hall|]. by left.
Qed.

(** X8. The answer [No segments downloaded — authentication may have
    expired] is given only for a playlist of at most five segments, every
    fetch of which was answered without [ok]; nothing has been saved
    then. *)
Theorem auth_expired_means_short_playlist order events :
  run order content baseUrl video = (events, Returned (Error noSegmentsDownloaded)) ->
  0 < length segments <= 5
  /\ (forall index seg, segments !! index = Some seg -> fails net index seg = true)
  /\ Forall isProgress events.
Proof.
  unfold downloadHLSSegments.
  destruct (length segments =? 0)%nat eqn:Hn; [intros; simplify_eq|].
  apply Nat.eqb_neq in Hn.
  destruct (loop_events net subtleDecrypt maxConcurrentDownloads keyInfo decryptionKey
              (v_id video) segments order (length segments) 0 [] 0
              [Progress (v_id video) 0 (length segments)]) as (events' & Hev & Hrep).
  destruct (hlsBatches _ _ _ _ _ _ _ _ _ _ _ _ _) as [ev [chunks|e|]] eqn:Hloop;
    [|intros; simplify_eq..].
  destruct (length chunks =? 0)%nat eqn:Hlen.
  2:{ unfold save. destruct (startDownload _); intros; simplify_eq. }
  intros Hrun. apply Nat.eqb_eq in Hlen. simpl in Hev. simplify_eq.
  assert (Forall isProgress ([Progress (v_id video) 0 (length segments)] ++ events'))
    as Hprog.
  { apply Forall_app. split; [by repeat constructor|].
    eapply Forall_impl; [exact Hrep|]. by intros []. }
  pose proof (loop_budget _ _ _ _ _ _ _ _ _ _ _ _ _ _ _ Hloop) as Hbudget.
  apply loop_completes in Hloop as [-> Hresp].
  rewrite drop_0 in *. rewrite app_nil_l in Hlen.
  pose proof (present_nulls results) as Hsum.
  unfold allResults in Hsum at 3. rewrite length_imap in Hsum.
  specialize (Hbudget ltac:(lia)).
  split; [lia|]. split; [|done].
  intros index seg Hseg.
  assert (results !! index = Some None) as Hnone.
  { destruct (results !! index) as [[v|]|] eqn:Hr.
    - exfalso.
      assert (v ∈ present results) as Hin.
      { unfold present. apply list_elem_of_omap. exists (Some v).
        split; [by eapply list_elem_of_lookup_2|done]. }
      destruct (present results); [by apply elem_of_nil in Hin|done].
    - done.
    - apply lookup_ge_None in Hr. unfold allResults in Hr. rewrite length_imap in Hr.
      apply lookup_lt_Some in Hseg. lia. }
  unfold allResults in Hnone. rewrite list_lookup_imap, Hseg in Hnone. simpl in Hnone.
  specialize (Hresp index seg Hseg ltac:(lia)).
  unfold contribution in Hnone. unfold responds in Hresp. unfold fails.
  destruct (net _) as [[] ? ?|]; by simplify_eq.
Qed.

(** X9. When the playlist names no key, or the key cannot be fetched,
    the decryption service plays no part: the run of
    [downloadHLSSegments] is the same for every behaviour of
    [crypto.subtle]. *)
Theorem no_key_no_decryption order
    (subtleDecrypt' : bytes -> bytes -> bytes -> option bytes) :
  decryptionKey = None ->
  run order content baseUrl video
  = downloadHLSSegments resolveUrl net subtleDecrypt' startDownload maxConcurrentDownloads
                        order content baseUrl video.
Proof.
  intros Hkey. unfold downloadHLSSegments.
  destruct (length segments =? 0)%nat; [done|].
  by rewrite (loop_no_key _ _ _ _ _ _ _ _ subtleDecrypt' _ Hkey).
Qed.

End Download.

End RunFacts.

(** ** The initialization vector *)

Module DecryptFacts.
Import JsString Engine Spec Terms.

Lemma to_N_byte_of n : Byte.to_N (byte_of n) = (n mod 256)%N.
Proof.
  unfold byte_of. destruct (Byte.of_N (n mod 256)) as [b|] eqn:Hb.
  - by apply Byte.to_of_N in Hb.
  - apply Byte.of_N_None_iff in Hb.
    pose proof (N.mod_upper_bound n 256 ltac:(done)). lia.
Qed.

Lemma length_hex_pairs_step h :
  length (hex_pairs h) = Nat.div2 (String.length h)
  /\ forall c, length (hex_pairs (String c h)) = Nat.div2 (S (String.length h)).
Proof.
  induction h as [|a h [IH1 IH2]]; [done|]. split; [apply IH2|].
  intros c. cbn [hex_pairs length String.length Nat.div2]. by rewrite IH1.
Qed.

Lemma length_hex_pairs h : length (hex_pairs h) = Nat.div2 (String.length h).
Proof. apply length_hex_pairs_step. Qed.

Lemma hex_value_digit c : is_hex c = true -> hex_value c = hexDigit c /\ (hexDigit c < 16)%N.
Proof.
  destruct c as [[] [] [] [] [] [] [] []]; vm_compute; (discriminate || (intros _; split; reflexivity)).
Qed.

Lemma hex_pairs_number_step h :
  (all is_hex h = true -> Nat.even (String.length h) = true ->
   forall acc,
     fold_left (fun acc b => (256 * acc + Byte.to_N b)%N) (hex_pairs h) acc
     = fold_left (fun acc c => (16 * acc + hexDigit c)%N) (list_ascii_of_string h) acc)
  /\ forall c, is_hex c = true -> all is_hex h = true ->
       Nat.even (S (String.length h)) = true ->
       forall acc,
         fold_left (fun acc b => (256 * acc + Byte.to_N b)%N) (hex_pairs (String c h)) acc
         = fold_left (fun acc c => (16 * acc + hexDigit c)%N)
                     (list_ascii_of_string (String c h)) acc.
Proof.
  induction h as [|a h [IH1 IH2]].
  - split; [done|]. intros c _ _ Hodd. done.
  - split.
    + intros Hall Heven. rewrite StringFacts.all_cons in Hall.
      apply andb_true_iff in Hall as [Ha Hh]. by apply IH2.
    + intros c Hc Hall Heven acc. rewrite StringFacts.all_cons in Hall.
      apply andb_true_iff in Hall as [Ha Hh].
      cbn [hex_pairs list_ascii_of_string fold_left].
      rewrite to_N_byte_of.
      destruct (hex_value_digit c Hc) as [-> Hcl].
      destruct (hex_value_digit a Ha) as [-> Hal].
      rewrite N.mod_small by lia.
      replace (256 * acc + (16 * hexDigit c + hexDigit a))%N
        with (16 * (16 * acc + hexDigit c) + hexDigit a)%N by lia.
      apply IH1; [done|]. cbn [String.length] in Heven.
      by rewrite Nat.even_succ_succ in Heven.
Qed.

Lemma hex_pairs_number h :
  all is_hex h = true -> Nat.even (String.length h) = true ->
  bigEndian (hex_pairs h) = hexNumber h.
Proof. intros Hall Heven. by apply hex_pairs_number_step. Qed.

Section Decrypt.
Variable subtleDecrypt : bytes -> bytes -> bytes -> option bytes.

(** X10. [decryptSegment] hands the encrypted data and the key to
    [crypto.subtle] and returns what it answers, the encrypted data
    unchanged when it throws. Without an explicit IV the IV it hands
    over has 16 bytes: twelve zero bytes, then the segment index modulo
    2^32 as a big-endian number. An explicit IV of an even number of
    hexadecimal digits is handed over as the bytes, one for every two
    digits, of the number that the digits denote, the same for every
    segment. *)
Theorem decryptSegment_passes_the_iv encryptedData keyBuffer index h :
  all is_hex h = true ->
  Nat.even (String.length h) = true ->
  h <> "" ->
  (exists iv,
     length iv = 16
     /\ take 12 iv = replicate 12 Byte.x00
     /\ bigEndian iv = (N.of_nat index mod 2 ^ 32)%N
     /\ decryptSegment subtleDecrypt encryptedData keyBuffer None index
        = default encryptedData (subtleDecrypt keyBuffer iv encryptedData))
  /\ (exists iv,
        length iv = Nat.div2 (String.length h)
        /\ bigEndian iv = hexNumber h
        /\ decryptSegment subtleDecrypt encryptedData keyBuffer (Some h) index
           = default encryptedData (subtleDecrypt keyBuffer iv encryptedData)).
Proof.
  intros Hall Heven Hne. split.
  - eexists. split; [|split; [|split; [|reflexivity]]]; [done|done|].
    unfold bigEndian. cbn [fold_left app replicate].
    rewrite !to_N_byte_of.
    change (Byte.to_N Byte.x00) with 0%N.
    set (i := (N.of_nat index mod 2 ^ 32)%N).
    assert (i < 2 ^ 32)%N as Hi by (apply N.mod_upper_bound; done).
    clearbody i. change (2 ^ 32)%N with 4294967296%N in *.
    change (2 ^ 24)%N with 16777216%N. change (2 ^ 16)%N with 65536%N.
    change (2 ^ 8)%N with 256%N.
    replace (i / 16777216)%N with (i / 256 / 256 / 256)%N
      by (rewrite !N.Div0.div_div; done).
    replace (i / 65536)%N with (i / 256 / 256)%N by (rewrite !N.Div0.div_div; done).
    assert (i / 256 / 256 / 256 < 256)%N as Htop.
    { rewrite !N.Div0.div_div. apply N.Div0.div_lt_upper_bound. simpl. lia. }
    pose proof (N.div_mod' i 256) as H0.
    pose proof (N.div_mod' (i / 256) 256) as H1.
    pose proof (N.div_mod' (i / 256 / 256) 256) as H2.
    rewrite (N.mod_small _ _ Htop).
    lia.
  - exists (hex_pairs h). split; [apply length_hex_pairs|].
    split; [by apply hex_pairs_number|].
    unfold decryptSegment, iv_of.
    destruct h as [|a [|b h]]; [done|done|]. cbn [is_empty]. done.
Qed.

End Decrypt.

End DecryptFacts.

(** ** Division in binary64 *)

Module NumberFacts.
Import JsString JsNumber Terms.
Local Open Scope Q_scope.

Lemma pow2_pos e : 0 < 2 ^ e.
Proof. by apply Qpower_0_lt. Qed.

Lemma pow2_succ e : 2 ^ (e + 1) == 2 * 2 ^ e.
Proof. rewrite Qpower_plus by done. change (2 ^ 1) with 2. ring. Qed.

Lemma pow2_Z (a : Z) : (0 <= a)%Z -> inject_Z (2 ^ a) == 2 ^ a.
Proof. intros Ha. by rewrite Zpower_Qpower. Qed.

Lemma pow2_minus a b : 2 ^ (a - b) * 2 ^ b == 2 ^ a.
Proof. rewrite <- Qpower_plus by done. by replace (a - b + b)%Z with a by lia. Qed.

(** A positive rational lies between the powers of two that its
    numerator and its denominator give. *)
Lemma log2_bounds (n : Z) (d : positive) :
  (0 < n)%Z ->
  2 ^ (Z.log2 n - Z.log2 (Zpos d) - 1) < n # d /\ n # d < 2 ^ (Z.log2 n - Z.log2 (Zpos d) + 1).
Proof.
  intros Hn.
  pose proof (Z.log2_spec n Hn) as [Hn1 Hn2].
  pose proof (Z.log2_spec (Zpos d) ltac:(done)) as [Hd1 Hd2].
  pose proof (Z.log2_nonneg n) as Ha. pose proof (Z.log2_nonneg (Zpos d)) as Hb.
  set (a := Z.log2 n) in *. set (b := Z.log2 (Zpos d)) in *.
  assert ((n # d) * inject_Z (Zpos d) == inject_Z n) as Hq.
  { unfold Qeq, Qmult, inject_Z. simpl. lia. }
  rewrite Zle_Qle, pow2_Z in Hn1 by done.
  rewrite Zlt_Qlt, pow2_Z in Hn2 by lia.
  rewrite Zle_Qle, pow2_Z in Hd1 by done.
  rewrite Zlt_Qlt, pow2_Z in Hd2 by lia.
  unfold Z.succ in *.
  pose proof (pow2_minus (a - b - 1) (- (b + 1))) as H1.
  replace (a - b - 1 - - (b + 1))%Z with a in H1 by lia.
  pose proof (pow2_minus (a - b + 1) (- b)) as H2.
  replace (a - b + 1 - - b)%Z with (a + 1)%Z in H2 by lia.
  pose proof (pow2_minus 0 (b + 1)) as H3. change (2 ^ 0) with 1 in H3.
  pose proof (pow2_minus 0 b) as H4. change (2 ^ 0) with 1 in H4.
  replace (0 - (b + 1))%Z with (- (b + 1))%Z in H3 by lia.
  replace (0 - b)%Z with (- b)%Z in H4 by lia.
  pose proof (pow2_pos (a - b - 1)). pose proof (pow2_pos (a - b + 1)).
  pose proof (pow2_pos (- (b + 1))). pose proof (pow2_pos (- b)).
  pose proof (pow2_pos a). pose proof (pow2_pos b).
  assert (0 < n # d) as Hpos by (unfold Qlt; simpl; lia).
  set (q := n # d) in *. set (dd := inject_Z (Zpos d)) in *. set (nn := inject_Z n) in *.
  clearbody q dd nn. split.
  - (* 2^(a-b-1) * 2^(b+1) = 2^a <= n = q d < q 2^(b+1) *)
    assert (2 ^ (a - b - 1) * 2 ^ (b + 1) == 2 ^ a) as E
      by (rewrite <- Qpower_plus by done; by replace (a - b - 1 + (b + 1))%Z with a by lia).
    pose proof (pow2_pos (b + 1)).
    nra.
  - assert (2 ^ (a - b + 1) * 2 ^ b == 2 ^ (a + 1)) as E
      by (rewrite <- Qpower_plus by done; by replace (a - b + 1 + b)%Z with (a + 1)%Z by lia).
    nra.
Qed.

Lemma exponent2_spec q : 0 < q -> 2 ^ exponent2 q <= q /\ q < 2 ^ (exponent2 q + 1).
Proof.
  intros Hq. destruct q as [n d].
  assert (0 < n)%Z as Hn by (unfold Qlt in Hq; simpl in Hq; lia).
  destruct (log2_bounds n d Hn) as [Hlo Hhi].
  unfold exponent2. cbn [Qnum Qden].
  set (e := (Z.log2 n - Z.log2 (Zpos d))%Z) in *.
  destruct (Qle_bool (2 ^ e) (n # d)) eqn:Hle.
  - apply Qle_bool_iff in Hle. by split.
  - replace (e - 1 + 1)%Z with e by lia. split; [by apply Qlt_le_weak|].
    apply Qnot_le_lt. intros H. apply Qle_bool_iff in H. congruence.
Qed.

Lemma roundEven_near q :
  inject_Z (roundEven q) - q <= 1 # 2 /\ q - inject_Z (roundEven q) <= 1 # 2.
Proof.
  unfold roundEven. pose proof (Qfloor_le q) as Hlo. pose proof (Qlt_floor q) as Hhi.
  rewrite inject_Z_plus in Hhi. change (inject_Z 1) with 1 in Hhi.
  destruct (Qcompare_spec (q - inject_Z (Qfloor q)) (1 # 2)) as [He|Hl|Hg].
  - destruct (Z.even (Qfloor q)); [lra|]. rewrite inject_Z_plus. change (inject_Z 1) with 1. lra.
  - lra.
  - rewrite inject_Z_plus. change (inject_Z 1) with 1. lra.
Qed.

Abbreviation u := unitRoundoff.

Lemma pow2_53 : 2 ^ (-53) == u.
Proof. reflexivity. Qed.

Lemma nearest_error q :
  0 < q -> (-1022 <= exponent2 q)%Z ->
  q * (1 - u) <= nearest q /\ nearest q <= q * (1 + u).
Proof.
  intros Hq He. destruct (exponent2_spec q Hq) as [Hlo Hhi].
  unfold nearest. rewrite Z.max_l by lia. rewrite Qred_correct.
  set (e := exponent2 q) in *.
  pose proof (pow2_pos (e - 52)) as Hulp.
  destruct (roundEven_near (q / 2 ^ (e - 52))) as [H1 H2].
  set (m := inject_Z (roundEven (q / 2 ^ (e - 52)))) in *. clearbody m.
  assert (q / 2 ^ (e - 52) * 2 ^ (e - 52) == q) as Hdiv
    by (field; apply Qnot_eq_sym, Qlt_not_eq, Hulp).
  assert (2 ^ (e - 52) * (1 # 2) == 2 ^ e * u) as Hhalf.
  { rewrite <- pow2_53. rewrite <- Qpower_plus by done.
    replace (e + -53)%Z with (e - 52 + -1)%Z by lia. rewrite Qpower_plus by done.
    reflexivity. }
  set (ulp := 2 ^ (e - 52)) in *. set (x := q / ulp) in *. clearbody x ulp.
  assert (0 < u) by done.
  nra.
Qed.

Lemma Qabs_eq q : 0 < q -> Qabs q = q.
Proof.
  destruct q as [n d]. unfold Qlt, Qabs. simpl. intros H. f_equal. lia.
Qed.

(** In the range of the normal numbers the result is finite, positive and
    within one part in [2^53] of the rational. *)
Lemma binary64_normal q :
  2 ^ (-60) <= q -> q <= 2 ^ 60 ->
  exists v, binary64 false q = Finite v /\ 0 < v
            /\ q * (1 - u) <= v /\ v <= q * (1 + u).
Proof.
  intros Hlo Hhi.
  assert (0 < q) as Hq by (eapply Qlt_le_trans; [apply (pow2_pos (-60))|done]).
  destruct (exponent2_spec q Hq) as [_ Hup].
  assert (-1022 <= exponent2 q)%Z as He.
  { assert (2 ^ (-60) < 2 ^ (exponent2 q + 1)) as H by (eapply Qle_lt_trans; done).
    apply Qpower_lt_compat_l_inv in H; [lia|done]. }
  destruct (nearest_error q Hq He) as [H1 H2].
  exists (nearest q). unfold binary64. cbv zeta.
  assert (0 < nearest q) as Hpos.
  { eapply Qlt_le_trans; [|exact H1]. apply Qmult_lt_0_compat; [done|]. done. }
  assert (nearest q < 2 ^ 1024) as Hfin.
  { eapply Qle_lt_trans; [exact H2|].
    apply Qle_lt_trans with (2 ^ 60 * 2).
    - apply Qmult_le_compat_nonneg; split; [by apply Qlt_le_weak|done|done|done].
    - change (2 ^ 60 * 2) with (2 ^ 60 * 2 ^ 1). rewrite <- Qpower_plus by done.
      by apply Qpower_lt_compat_l. }
  replace (Qle_bool (2 ^ 1024) (nearest q)) with false.
  2:{ symmetry. apply not_true_is_false. intros H. apply Qle_bool_iff in H.
      by apply Qle_not_lt in H. }
  replace (Qnum (nearest q) =? 0)%Z with false.
  2:{ symmetry. apply Z.eqb_neq. unfold Qlt in Hpos. simpl in Hpos. lia. }
  done.
Qed.

Lemma div_positive a b :
  0 < a -> 0 < b -> div (Finite a) (Finite b) = binary64 false (a / b).
Proof.
  intros Ha Hb. unfold div, negative, is_infinite, is_zero, value.
  assert (0 < Qnum a)%Z by (unfold Qlt in Ha; simpl in Ha; lia).
  assert (0 < Qnum b)%Z by (unfold Qlt in Hb; simpl in Hb; lia).
  replace (Qnum a <? 0)%Z with false by lia. replace (Qnum b <? 0)%Z with false by lia.
  replace (Qnum a =? 0)%Z with false by lia. replace (Qnum b =? 0)%Z with false by lia.
  cbn [xorb]. rewrite Qabs_eq; [done|]. by apply Qlt_shift_div_l; [|rewrite Qmult_0_l].
Qed.

Lemma inject_Z_ge1 z : (0 < z)%Z -> 1 <= inject_Z z.
Proof. intros H. change 1 with (inject_Z 1). rewrite <- Zle_Qle. lia. Qed.

(** [Math.ceil(7200 / (d / t))] in binary64, against the exact
    quotient. *)
Lemma two_hours d t :
  (0 < d < 2 ^ 53)%Z -> (0 < t < 2 ^ 53)%Z -> (7200 * t <= 2 ^ 50 * d)%Z ->
  exists c,
    (1 <= c)%Z /\ ((c - 2) * d < 7200 * t <= (c + 1) * d)%Z
    /\ ceil (div (JsNumber.ofN 7200) (div (ofZ d) (ofZ t))) = Finite (inject_Z c).
Proof.
  intros [Hd Hd'] [Ht Ht'] Hmany.
  pose proof (inject_Z_ge1 d Hd) as Hd1. pose proof (inject_Z_ge1 t Ht) as Ht1.
  rewrite Zlt_Qlt in Hd, Hd', Ht, Ht'. rewrite Zle_Qle in Hmany.
  rewrite !inject_Z_mult in Hmany.
  change (inject_Z (2 ^ 53)) with (2 ^ 53) in *. change (inject_Z (2 ^ 50)) with (2 ^ 50) in *.
  change (inject_Z 7200) with 7200 in *. change (inject_Z 0) with 0 in *.
  set (dd := inject_Z d) in *. set (tt := inject_Z t) in *.
  assert (dd / tt * tt == dd) as Hq1 by (field; lra).
  assert (2 ^ (-60) <= dd / tt /\ dd / tt <= 2 ^ 60) as [Hlo1 Hhi1].
  { change (2 ^ 53) with 9007199254740992 in *.
    change (2 ^ (-60)) with (1 # 1152921504606846976).
    change (2 ^ 60) with 1152921504606846976.
    set (q := dd / tt) in *. clearbody q. split; nra. }
  unfold ofZ. fold dd tt. rewrite (div_positive dd tt) by done.
  destruct (binary64_normal (dd / tt) Hlo1 Hhi1) as (x & -> & Hx & Hx1 & Hx2).
  unfold JsNumber.ofN. change (inject_Z (Z.of_N 7200)) with 7200.
  rewrite (div_positive 7200 x) by done.
  assert (7200 / x * x == 7200) as Hq2 by (field; lra).
  assert (0 < dd / tt) as Hq1pos by (eapply Qlt_le_trans; [apply (pow2_pos (-60))|done]).
  assert (0 < 7200 / x) as Hq2pos
    by (apply Qlt_shift_div_l; [done|by rewrite Qmult_0_l]).
  set (q1 := dd / tt) in *. set (q2 := 7200 / x) in *.
  (* the exact count *)
  assert (exists ys, ys * dd == 7200 * tt /\ 0 < ys) as (ys & Hys & Hyspos).
  { exists (7200 * tt / dd). split; [field; lra|].
    apply Qlt_shift_div_l; [done|]. rewrite Qmult_0_l. lra. }
  assert (ys * q1 == 7200) as Hys1.
  { assert (ys * q1 * tt == 7200 * tt) as H by (rewrite <- Hys, <- Hq1 at 1; ring).
    apply (Qmult_inj_r _ _ tt); [lra|done]. }
  assert (ys <= 2 ^ 50) as Hys50.
  { change (2 ^ 50) with 1125899906842624 in *. clearbody q1 q2 dd tt. nra. }
  assert (7200 # 9007199254740992 <= ys) as Hyslo.
  { change (2 ^ 53) with 9007199254740992 in *.
    clearbody q1 q2 dd tt. nra. }
  assert (0 < u) as Hu by done. assert (u < 1) as Hu1 by done.
  assert (q2 * (1 - u) <= ys) as A1 by (clearbody q1 q2 dd tt; nra).
  assert (ys <= q2 * (1 + u)) as A2 by (clearbody q1 q2 dd tt; nra).
  assert (2 ^ (-60) <= q2 /\ q2 <= 2 ^ 60) as [Hlo2 Hhi2].
  { change (2 ^ (-60)) with (1 # 1152921504606846976).
    change (2 ^ 60) with 1152921504606846976.
    change (2 ^ 50) with 1125899906842624 in *.
    change u with (1 # 9007199254740992) in *. clearbody q1 q2 dd tt. split; lra. }
  destruct (binary64_normal q2 Hlo2 Hhi2) as (y & -> & Hy & Hy1 & Hy2).
  assert (y - ys <= 3 # 8 /\ ys - y <= 3 # 8) as [B1 B2].
  { assert (y * (1 - u) <= ys * (1 + u)) as A3 by (clearbody q1 q2 dd tt; nra).
    assert (ys * (1 - u) <= y * (1 + u)) as A4 by (clearbody q1 q2 dd tt; nra).
    change (2 ^ 50) with 1125899906842624 in *.
    change u with (1 # 9007199254740992) in *. clearbody q1 q2 dd tt. split; lra. }
  exists (Qceiling y).
  pose proof (Qle_ceiling y) as C1. pose proof (Qceiling_lt y) as C2.
  assert (1 <= Qceiling y)%Z as Hc.
  { assert (0 < inject_Z (Qceiling y)) as H by lra.
    change 0 with (inject_Z 0) in H. rewrite <- Zlt_Qlt in H. lia. }
  split; [done|]. split.
  - replace (Qceiling y - 1)%Z with (Qceiling y + -1)%Z in C2 by lia.
    rewrite inject_Z_plus in C2. change (inject_Z (-1)) with (-1 # 1) in C2.
    assert (inject_Z (Qceiling y) + (-2 # 1) < ys) as D1 by (clear -C1 C2 B1 B2; lra).
    assert (ys <= inject_Z (Qceiling y) + 1) as D2 by (clear -C1 C2 B1 B2; lra).
    split.
    + replace (Qceiling y - 2)%Z with (Qceiling y + -2)%Z by lia.
      rewrite Zlt_Qlt, !inject_Z_mult, inject_Z_plus.
      change (inject_Z (-2)) with (-2 # 1). change (inject_Z 7200) with 7200.
      fold dd tt. rewrite <- Hys. by apply Qmult_lt_compat_r.
    + rewrite Zle_Qle, !inject_Z_mult, inject_Z_plus.
      change (inject_Z 1) with 1. change (inject_Z 7200) with 7200.
      fold dd tt. rewrite <- Hys. apply Qmult_le_compat_r; [done|lra].
  - unfold ceil.
    replace (Qceiling y =? 0)%Z with false by lia. done.
Qed.

End NumberFacts.

(** ** Generated DASH segments *)

Module TemplateFacts.
Import JsString JsNumber Engine Spec PromiseFacts DashFacts NumberFacts.

Lemma lt_ofZ a b : JsNumber.lt (ofZ a) (Finite (inject_Z b)) = (a <? b)%Z.
Proof.
  unfold JsNumber.lt, ofZ, value, Qcompare. simpl. rewrite !Z.mul_1_r.
  unfold Z.ltb. by destruct (a ?= b)%Z.
Qed.

Section Generation.
Variable resolveUrl : string -> string -> string.

(** With a finite bound the loop exits, and has pushed one URL for every
    number from [num] up to the bound. *)
Lemma generate_finite video mediaTemplate id hi fuel : forall num,
  (hi - num <= Z.of_nat fuel)%Z ->
  generate resolveUrl video mediaTemplate id (Finite (inject_Z hi)) fuel num
  = Some (map (fun k => segmentUrl resolveUrl video mediaTemplate id (num + Z.of_nat k))
              (seq 0 (Z.to_nat (hi - num)))).
Proof.
  induction fuel as [|fuel IH]; intros num Hfuel; cbn [generate]; rewrite lt_ofZ.
  - replace (num <? hi)%Z with false by lia.
    by replace (Z.to_nat (hi - num)) with 0 by lia.
  - destruct (num <? hi)%Z eqn:Hlt.
    + apply Z.ltb_lt in Hlt. rewrite IH by lia.
      replace (Z.to_nat (hi - num)) with (S (Z.to_nat (hi - (num + 1)))) by lia.
      cbn [seq map]. rewrite Z.add_0_r. do 2 f_equal.
      rewrite <- seq_shift, map_map. apply map_ext. intros k. f_equal. lia.
    + apply Z.ltb_ge in Hlt. by replace (Z.to_nat (hi - num)) with 0 by lia.
Qed.

(** X11. For a segment template whose duration and timescale are
    positive integers below [2^53], with no more than [2^50] segments in
    two hours, and whose start number is below [2^52] in magnitude, the
    generation of segment URLs ends. It pushes [c] URLs, numbered from
    the start number on without a gap, where [c] is the value of
    [Math.ceil(7200 / (duration / timescale))] in binary64 arithmetic: at
    least 1, and at most one away from 7200 seconds divided by the
    segment duration and rounded up. *)
Theorem dash_generation_counts_two_hours video representation tmpl s d t :
  Dash.startNumber tmpl = Int s ->
  Dash.timescale tmpl = Int t ->
  Dash.duration tmpl = Int d ->
  (0 < d < 2 ^ 53)%Z -> (0 < t < 2 ^ 53)%Z ->
  (7200 * t <= 2 ^ 50 * d)%Z ->
  (- 2 ^ 52 < s < 2 ^ 52)%Z ->
  exists c,
    (1 <= c)%Z
    /\ ((c - 2) * d < 7200 * t <= (c + 1) * d)%Z
    /\ maxSegments tmpl = Finite (inject_Z c)
    /\ forall fuel, Z.to_nat c <= fuel ->
         generateSegments resolveUrl fuel video representation tmpl
         = Some (map (fun k => segmentUrl resolveUrl video
                                 (default "" (Dash.media tmpl))
                                 (Dash.rep_id representation) (s + Z.of_nat k))
                     (seq 0 (Z.to_nat c))).
Proof.
  intros Hs Ht Hd Hdr Htr Hmany _.
  destruct (two_hours d t Hdr Htr Hmany) as (c & Hc & Hnear & Hceil).
  assert (maxSegments tmpl = Finite (inject_Z c)) as Hmax
    by (unfold maxSegments; rewrite Ht, Hd; exact Hceil).
  exists c. split; [done|]. split; [done|]. split; [done|].
  intros fuel Hfuel. unfold generateSegments. rewrite Hs, Hmax.
  change (JsNumber.add (ofInteger (Int s)) (Finite (inject_Z c)))
    with (Finite (inject_Z s + inject_Z c)).
  replace (inject_Z s + inject_Z c)%Q with (inject_Z (s + c)).
  2:{ unfold inject_Z, Qplus. cbn. f_equal. lia. }
  rewrite generate_finite by lia.
  by replace (s + c - s)%Z with c by lia.
Qed.
End Generation.

Section Loop.
Variable net : Request -> FetchOutcome.
Variable maxConcurrentDownloads : nat.
Variable videoId : string.
Variable segments : list string.
Variable order : nat -> list nat.

Abbreviation b := (batchSize maxConcurrentDownloads).
Abbreviation n := (length segments).

(** Every batch is fetched when every fetch from [i] on succeeds. *)
Lemma dash_loop_all fuel : forall i chunks downloadedCount events,
  everyFetchSettles maxConcurrentDownloads segments order ->
  n - i <= fuel ->
  (forall index url, segments !! index = Some url -> i <= index ->
                     okAt net index url = true) ->
  exists events',
    dashBatches net maxConcurrentDownloads videoId segments order fuel i chunks
                downloadedCount events
    = (events ++ events', Completes (chunks ++ drop i (bodies net segments)))
    /\ Forall isProgress events'.
Proof.
  assert (forall i, n <= i -> drop i (bodies net segments) = []) as Hdrop
    by (intros i Hi; apply drop_ge; unfold bodies; rewrite length_imap; lia).
  induction fuel as [|fuel IH]; intros i chunks dc events Hset Hfuel Hok;
    cbn [dashBatches]; destruct (i <? n)%nat eqn:Hi.
  - apply Nat.ltb_lt in Hi. lia.
  - apply Nat.ltb_ge in Hi. exists []. rewrite Hdrop, !app_nil_r by done. by split.
  - apply Nat.ltb_lt in Hi.
    pose proof (batchSize_pos maxConcurrentDownloads) as Hb.
    rewrite dash_promiseAll_ok; [|by apply Hset|].
    2:{ intros k url Hk. apply lookup_take_Some in Hk as [Hk _].
        rewrite lookup_drop in Hk. apply Hok; [done|lia]. }
    rewrite dash_window.
    edestruct (IH (i + b)) as (events' & -> & Hev); [done|lia| |].
    { intros index url Hurl Hle. apply Hok; [done|lia]. }
    eexists (_ :: events'). rewrite <- !app_assoc. split.
    + do 2 f_equal. f_equal.
      rewrite <- (drop_drop (bodies net segments) b i). apply take_drop.
    + constructor; [exact I|done].
  - apply Nat.ltb_ge in Hi. exists []. rewrite Hdrop, !app_nil_r by done. by split.
Qed.
End Loop.

Section Download.
Variable resolveUrl : string -> string -> string.
Variable net : Request -> FetchOutcome.
Variable startDownload : DownloadOptions -> nat + string.
Variable maxConcurrentDownloads : nat.

(** X12. When every generated segment URL is served, a DASH template
    download saves the initialization chunk, if there is one, followed by
    the bodies of all segments in the order of generation, whatever the
    order in which the fetches of a batch settle; the [segmentCount] of
    the result is the number of saved chunks, the initialization chunk
    included. *)
Theorem dash_all_segments_served order genFuel representation video tmpl segments :
  Dash.segmentTemplate representation = Some tmpl ->
  falsy (Dash.media tmpl) = false ->
  generateSegments resolveUrl genFuel video representation tmpl = Some segments ->
  segments <> [] ->
  everyFetchSettles maxConcurrentDownloads segments order ->
  (forall index url, segments !! index = Some url -> okAt net index url = true) ->
  exists events,
    downloadDASHSegments resolveUrl net startDownload maxConcurrentDownloads
                         order genFuel representation video
    = save startDownload events
        (mkDownloadOptions
           (FromBlob (mkBlob (initChunks resolveUrl net video representation tmpl
                              ++ bodies net segments) "video/mp4"))
           (dashFilename video) true)
        (Some (length (initChunks resolveUrl net video representation tmpl)
               + length segments))
    /\ Forall isProgress events.
Proof.
  intros Htmpl Hmedia Hgen Hne Hset Hok.
  unfold downloadDASHSegments. rewrite Htmpl, Hmedia, Hgen.
  destruct (dash_loop_all net maxConcurrentDownloads (v_id video) segments order
              (length segments) 0 (initChunks resolveUrl net video representation tmpl)
              0 []) as (events & -> & Hev); [done|lia| |].
  { intros index url Hurl _. by apply Hok. }
  exists events. rewrite drop_0. split; [|done].
  unfold finishDASH. rewrite length_app.
  replace (length (bodies net segments)) with (length segments)
    by (unfold bodies; by rewrite length_imap).
  destruct segments; [done|].
  by replace (_ =? 0)%nat with false by (symmetry; apply Nat.eqb_neq; simpl; lia).
Qed.
End Download.

End TemplateFacts.

(** ** Captured headers and authenticated requests *)

Module HeaderFacts.
Import JsString Auth Engine Session Spec Terms.

Section Listener.
Variable urlOrigin : string -> option string.

Lemma capture_header_fields c h :
  let name := toLowerCase (h_name h) in
  cookie (capture_header c h)
  = (if String.eqb name "cookie" then Some (h_value h) else cookie c)
  /\ authorization (capture_header c h)
     = (if String.eqb name "authorization" then Some (h_value h) else authorization c)
  /\ referer (capture_header c h)
     = (if String.eqb name "referer" then Some (h_value h) else referer c)
  /\ origin (capture_header c h)
     = (if String.eqb name "origin" then Some (h_value h) else origin c)
  /\ custom (capture_header c h)
     = (if customName (h_name h)
        then Some (<[h_name h := h_value h]> (default ∅ (custom c))) else custom c).
Proof.
  cbv zeta. unfold capture_header, customName.
  destruct (String.eqb (toLowerCase (h_name h)) "cookie");
    destruct (String.eqb (toLowerCase (h_name h)) "authorization");
    destruct (String.eqb (toLowerCase (h_name h)) "referer");
    destruct (String.eqb (toLowerCase (h_name h)) "origin");
    destruct (startsWith "x-" (toLowerCase (h_name h))
              || String.eqb (toLowerCase (h_name h)) "range");
    done.
Qed.

Lemma fold_field (f : Captured -> option string) (name : string) hs : forall c,
  (forall c h, f (capture_header c h)
               = if String.eqb (toLowerCase (h_name h)) name
                 then Some (h_value h) else f c) ->
  f (fold_left capture_header hs c)
  = match lastHeader name hs with Some v => Some v | None => f c end.
Proof.
  intros c Hstep. unfold lastHeader.
  revert c. induction hs as [|h hs IH] using rev_ind; intros c; [done|].
  rewrite !fold_left_app. cbn [fold_left]. rewrite Hstep.
  destruct (String.eqb (toLowerCase (h_name h)) name); [done|apply IH].
Qed.

(** The captured object of a request: each standard field is the value
    of the last header of that name, when there is one. *)
Lemma captured_fields c hs :
  cookie (fold_left capture_header hs c)
  = match lastHeader "cookie" hs with Some v => Some v | None => cookie c end
  /\ authorization (fold_left capture_header hs c)
     = match lastHeader "authorization" hs with Some v => Some v | None => authorization c end
  /\ referer (fold_left capture_header hs c)
     = match lastHeader "referer" hs with Some v => Some v | None => referer c end
  /\ origin (fold_left capture_header hs c)
     = match lastHeader "origin" hs with Some v => Some v | None => origin c end.
Proof.
  repeat split; apply fold_field; intros c' h; apply (capture_header_fields c' h).
Qed.

Lemma capture_custom hs : forall c, customOnly c -> customOnly (fold_left capture_header hs c).
Proof.
  induction hs as [|h hs IH]; intros c Hc; [done|]. cbn [fold_left]. apply IH.
  intros m k v Hm Hk.
  destruct (capture_header_fields c h) as (_ & _ & _ & _ & Hcustom).
  rewrite Hcustom in Hm. destruct (customName (h_name h)) eqn:Hname; [|by eapply Hc].
  simplify_eq. destruct (decide (k = h_name h)) as [->|Hne]; [done|].
  rewrite lookup_insert_ne in Hk by done.
  destruct (custom c) as [m|] eqn:Hm; [by eapply Hc|]. simpl in Hk.
  by rewrite lookup_empty in Hk.
Qed.

Lemma customOnly_empty : customOnly Auth.empty.
Proof. intros m k v Hm. done. Qed.

Lemma capture_customOnly details : customOnly (capture urlOrigin details).
Proof.
  unfold capture.
  assert (customOnly (match requestHeaders details with
                      | Some hs => fold_left capture_header hs Auth.empty
                      | None => Auth.empty
                      end)) as H.
  { destruct (requestHeaders details); [|apply customOnly_empty].
    apply capture_custom, customOnly_empty. }
  destruct (Auth.falsy _); [|done]. destruct (urlOrigin _); [|done].
  intros m k v Hm Hk. cbn [custom] in Hm. by eapply H.
Qed.

Lemma spread_customOnly existing captured :
  customOnly existing -> customOnly captured -> customOnly (spread existing captured).
Proof.
  intros He Hc m k v Hm Hk. unfold spread, over in Hm. cbn [custom] in Hm.
  destruct (custom captured) eqn:Hcap; simplify_eq; [by eapply Hc|by eapply He].
Qed.

(** The listener stores under [custom] only headers whose name starts
    with [x-] or is [range]. *)
Lemma listener_customOnly details store :
  map_Forall (fun _ c => customOnly c) store ->
  map_Forall (fun _ c => customOnly c) (onBeforeSendHeaders urlOrigin details store).
Proof.
  intros Hstore. unfold onBeforeSendHeaders.
  destruct (tabId details <? 0)%Z; [done|]. destruct (negb _); [done|].
  apply map_Forall_insert_2; [|done].
  apply spread_customOnly; [|apply capture_customOnly].
  destruct (store !! tabId details) as [c|] eqn:Hc; [by eapply Hstore|apply customOnly_empty].
Qed.

(** The entry that the listener stores for the tab of a stream request. *)
Lemma listener_stores details store :
  (0 <= tabId details)%Z -> isStream (d_url details) = true ->
  onBeforeSendHeaders urlOrigin details store !! tabId details
  = Some (spread (default Auth.empty (store !! tabId details)) (capture urlOrigin details)).
Proof.
  intros Htab Hstream. unfold onBeforeSendHeaders.
  replace (tabId details <? 0)%Z with false by lia. rewrite Hstream. cbn [negb].
  apply lookup_insert_eq.
Qed.

Lemma listener_other_tabs details store t :
  t <> tabId details ->
  onBeforeSendHeaders urlOrigin details store !! t = store !! t.
Proof.
  intros Hne. unfold onBeforeSendHeaders.
  destruct (tabId details <? 0)%Z; [done|]. destruct (negb _); [done|].
  by apply lookup_insert_ne.
Qed.

Lemma capture_fields details :
  let hs := default [] (requestHeaders details) in
  cookie (capture urlOrigin details) = lastHeader "cookie" hs
  /\ authorization (capture urlOrigin details) = lastHeader "authorization" hs
  /\ origin (capture urlOrigin details) = lastHeader "origin" hs
  /\ referer (capture urlOrigin details)
     = if Auth.falsy (lastHeader "referer" hs)
       then match urlOrigin (d_url details) with
            | Some o => Some (o +:+ "/")
            | None => lastHeader "referer" hs
            end
       else lastHeader "referer" hs.
Proof.
  cbv zeta. unfold capture.
  set (captured := match requestHeaders details with
                   | Some hs => fold_left capture_header hs Auth.empty
                   | None => Auth.empty
                   end).
  assert (cookie captured = lastHeader "cookie" (default [] (requestHeaders details))
          /\ authorization captured
             = lastHeader "authorization" (default [] (requestHeaders details))
          /\ referer captured = lastHeader "referer" (default [] (requestHeaders details))
          /\ origin captured = lastHeader "origin" (default [] (requestHeaders details)))
    as (Hc & Ha & Hr & Ho).
  { subst captured. destruct (requestHeaders details) as [hs|]; [|done].
    destruct (captured_fields Auth.empty hs) as (-> & -> & -> & ->). simpl.
    repeat split; by destruct (lastHeader _ hs). }
  rewrite <- Hr, <- Hc, <- Ha, <- Ho.
  destruct (Auth.falsy (referer captured)); [|done].
  by destruct (urlOrigin (d_url details)).
Qed.

(** X13. For a stream request of a tab, the listener replaces the stored
    cookie, authorization and origin exactly when the request carries a
    header of that name, by the value of the last such header, even an
    empty one; a field whose header the request lacks keeps its stored
    value. The entries of all other tabs are left as they are. *)
Theorem captured_field_replaces_iff_present details store :
  (0 <= tabId details)%Z ->
  isStream (d_url details) = true ->
  let hs := default [] (requestHeaders details) in
  let before := default Auth.empty (store !! tabId details) in
  let after := onBeforeSendHeaders urlOrigin details store in
  (exists c,
     after !! tabId details = Some c
     /\ cookie c = match lastHeader "cookie" hs with Some v => Some v | None => cookie before end
     /\ authorization c = match lastHeader "authorization" hs with
                          | Some v => Some v
                          | None => authorization before
                          end
     /\ origin c = match lastHeader "origin" hs with Some v => Some v | None => origin before end)
  /\ forall t, t <> tabId details -> after !! t = store !! t.
Proof.
  intros Htab Hstream. cbv zeta. split.
  - eexists. split; [by apply listener_stores|].
    destruct (capture_fields details) as (Hc & Ha & Ho & _).
    unfold spread, over. cbn [cookie authorization origin]. rewrite Hc, Ha, Ho.
    split; [by destruct (lastHeader "cookie" _)|].
    split; [by destruct (lastHeader "authorization" _)|by destruct (lastHeader "origin" _)].
  - intros t Ht. by apply listener_other_tabs.
Qed.

(** X14. When a stream request carries no Referer header, or an empty one,
    and its URL has an origin, the listener stores that origin followed by
    a slash as the referer of the tab, in place of whatever referer was
    stored before; a non-empty Referer header is stored as it is. *)
Theorem referer_falls_back_to_origin details store :
  (0 <= tabId details)%Z ->
  isStream (d_url details) = true ->
  let hs := default [] (requestHeaders details) in
  let after := onBeforeSendHeaders urlOrigin details store in
  exists c,
    after !! tabId details = Some c
    /\ (Auth.falsy (lastHeader "referer" hs) = false -> referer c = lastHeader "referer" hs)
    /\ (forall o, Auth.falsy (lastHeader "referer" hs) = true ->
                  urlOrigin (d_url details) = Some o -> referer c = Some (o +:+ "/")).
Proof.
  intros Htab Hstream. cbv zeta.
  eexists. split; [by apply listener_stores|].
  destruct (capture_fields details) as (_ & _ & _ & Hr).
  unfold spread, over. cbn [referer]. rewrite Hr. split.
  - intros Hf. rewrite Hf. unfold Auth.falsy in Hf.
    by destruct (lastHeader "referer" _).
  - intros o Hf Ho. by rewrite Hf, Ho.
Qed.

Lemma field_elem (name : string) (v : option string) (x : string) :
  v = Some x -> x <> "" ->
  (if Auth.falsy v then [] else [(name, default "" v)]) = [(name, x)].
Proof. intros -> Hx. simpl. by destruct x. Qed.

Lemma stored_cookie_is_forwarded tab store c v :
  store !! tab = Some c -> cookie c = Some v -> v <> "" ->
  ("Cookie", v) ∈ buildAuthHeaders tab store.
Proof.
  intros Hc Hv Hne. unfold buildAuthHeaders. rewrite Hc. cbn [default from_option id].
  rewrite (field_elem "Cookie" _ v Hv Hne). apply elem_of_cons. by left.
Qed.

Lemma stored_authorization_is_forwarded tab store c v :
  store !! tab = Some c -> authorization c = Some v -> v <> "" ->
  ("Authorization", v) ∈ buildAuthHeaders tab store.
Proof.
  intros Hc Hv Hne. unfold buildAuthHeaders. rewrite Hc. cbn [default from_option id].
  rewrite (field_elem "Authorization" _ v Hv Hne).
  apply elem_of_app. right. apply elem_of_cons. by left.
Qed.

(** X15. A non-empty Cookie or Authorization header of a stream request
    is among the headers that [buildAuthHeaders] forwards for the tab
    afterwards: the value of the last header of that name. *)
Theorem captured_credentials_are_forwarded details store :
  (0 <= tabId details)%Z ->
  isStream (d_url details) = true ->
  let hs := default [] (requestHeaders details) in
  let forwarded :=
    buildAuthHeaders (tabId details) (onBeforeSendHeaders urlOrigin details store) in
  (forall v, lastHeader "cookie" hs = Some v -> v <> "" -> ("Cookie", v) ∈ forwarded)
  /\ (forall v, lastHeader "authorization" hs = Some v -> v <> "" ->
                ("Authorization", v) ∈ forwarded).
Proof.
  intros Htab Hstream. cbv zeta.
  pose proof (listener_stores details store Htab Hstream) as Hst.
  destruct (capture_fields details) as (Hc & Ha & _ & _).
  split; intros v Hv Hne.
  - eapply stored_cookie_is_forwarded; [exact Hst| |done].
    unfold spread, over. cbn [cookie]. by rewrite Hc, Hv.
  - eapply stored_authorization_is_forwarded; [exact Hst| |done].
    unfold spread, over. cbn [authorization]. by rewrite Ha, Hv.
Qed.

End Listener.

Section Forwarding.

Lemma field_names (name : string) (v : option string) :
  map fst (if Auth.falsy v then [] else [(name, default "" v)])
  = if Auth.falsy v then [] else [name].
Proof. by destruct (Auth.falsy v). Qed.

Lemma standard_names (a b c d : bool) :
  NoDup ((if a then [] else ["Cookie"]) ++ (if b then [] else ["Authorization"])
         ++ (if c then [] else ["Referer"]) ++ (if d then [] else ["Origin"]))
  /\ Forall (fun k => customName k = false)
            ((if a then [] else ["Cookie"]) ++ (if b then [] else ["Authorization"])
             ++ (if c then [] else ["Referer"]) ++ (if d then [] else ["Origin"])).
Proof.
  split.
  - destruct a, b, c, d; cbn [app]; repeat constructor;
      rewrite ?elem_of_cons, ?elem_of_nil; intuition discriminate.
  - destruct a, b, c, d; cbn [app]; repeat constructor.
Qed.

Lemma NoDup_fst_filter {A B : Type} (p : A * B -> Prop) `{!forall x, Decision (p x)}
    (l : list (A * B)) :
  NoDup (map fst l) -> NoDup (map fst (filter p l)).
Proof.
  induction l as [|x l IH]; [done|]. rewrite map_cons. intros Hnd.
  apply NoDup_cons in Hnd as [Hx Hnd]. rewrite filter_cons.
  destruct (decide (p x)); [|by apply IH]. rewrite map_cons. apply NoDup_cons.
  split; [|by apply IH]. intros Hin. apply Hx.
  apply list_elem_of_fmap in Hin as (y & -> & Hy). apply list_elem_of_fmap.
  exists y. split; [done|]. by apply list_elem_of_filter in Hy as [_ Hy].
Qed.

(** The headers forwarded for a captured object whose custom headers are
    custom headers. *)
Lemma forwarded_well_formed tab store :
  (forall c, store !! tab = Some c -> customOnly c) ->
  NoDup (map fst (buildAuthHeaders tab store))
  /\ Forall (fun kv => toLowerCase (fst kv) <> "range") (buildAuthHeaders tab store).
Proof.
  intros Hinv. unfold buildAuthHeaders.
  set (c := default Auth.empty (store !! tab)).
  assert (customOnly c) as Hc.
  { subst c. destruct (store !! tab) eqn:Hs; [by apply Hinv|]. intros m k v Hm. done. }
  clearbody c. split.
  - rewrite !map_app, !field_names.
    destruct (standard_names (Auth.falsy (cookie c)) (Auth.falsy (authorization c))
                             (Auth.falsy (referer c)) (Auth.falsy (origin c)))
      as [Hnd Hstd].
    rewrite !app_assoc. rewrite !app_assoc in Hnd, Hstd.
    apply NoDup_app. split; [exact Hnd|]. split.
    + intros k Hk Hin. rewrite Forall_forall in Hstd. specialize (Hstd k Hk).
      destruct (custom c) as [m|] eqn:Hm; [|by apply elem_of_nil in Hin].
      apply list_elem_of_fmap in Hin as ([k' v] & -> & Hin).
      apply list_elem_of_filter in Hin as [_ Hin]. apply elem_of_map_to_list in Hin.
      specialize (Hc m k' v Hm Hin). simpl in Hstd. congruence.
    + destruct (custom c) as [m|]; [|constructor].
      apply NoDup_fst_filter, NoDup_fst_map_to_list.
  - rewrite !Forall_app. repeat split;
      try (destruct (Auth.falsy _); repeat constructor; done).
    destruct (custom c) as [m|]; [|constructor].
    apply Forall_forall. intros kv Hkv. by apply list_elem_of_filter in Hkv as [Hkv _].
Qed.

End Forwarding.

Section Ensure.
Variable cookiesGetAll : string -> option (list (string * string)).
Variable tabUrl : Z -> option string.

Abbreviation ensure := (ensureAuthHeaders cookiesGetAll tabUrl).

(** What [ensureAuthHeaders] may change in an entry. *)
Lemma ensure_entry tab url store t :
  match ensure tab url store !! t, store !! t with
  | Some c', Some c =>
      authorization c' = authorization c /\ origin c' = origin c /\ custom c' = custom c
      /\ (Auth.falsy (cookie c) = false -> c' = c)
      /\ (Auth.falsy (referer c) = false -> referer c' = referer c)
      /\ (t <> tab -> c' = c)
  | Some c', None => t = tab /\ authorization c' = None /\ origin c' = None /\ custom c' = None
  | None, Some _ => False
  | None, None => True
  end.
Proof.
  unfold ensureAuthHeaders.
  destruct (store !! tab) as [e|] eqn:He; cbn [mbind option_bind].
  - destruct (Auth.falsy (cookie e)) eqn:Hcookie; cbn [negb].
    2:{ destruct (store !! t) as [c|] eqn:Hc; [|done]. repeat split; done. }
    set (store1 := match getCookiesForUrl cookiesGetAll url with
                   | Some cookieStr =>
                       if is_empty cookieStr then store
                       else <[tab := withCookie (default Auth.empty (Some e)) cookieStr]> store
                   | None => store
                   end).
    assert (exists e1, store1 !! tab = Some e1
                       /\ authorization e1 = authorization e /\ origin e1 = origin e
                       /\ custom e1 = custom e /\ referer e1 = referer e
                       /\ forall t, t <> tab -> store1 !! t = store !! t) as
      (e1 & He1 & Ha1 & Ho1 & Hc1 & Hr1 & Hother1).
    { subst store1. destruct (getCookiesForUrl _ _) as [cs|]; [|by exists e].
      destruct (is_empty cs); [by exists e|].
      eexists. rewrite lookup_insert_eq. split; [done|]. repeat split.
      intros t' Ht'. by rewrite lookup_insert_ne. }
    clearbody store1.
    destruct (Auth.falsy (referer e)) eqn:Href; cbn [negb].
    + assert (exists e2, match tabUrl tab with
                         | Some u => if is_empty u then store1
                                     else <[tab := withReferer
                                                     (default Auth.empty (store1 !! tab)) u]>
                                            store1
                         | None => store1
                         end !! tab = Some e2
                         /\ authorization e2 = authorization e /\ origin e2 = origin e
                         /\ custom e2 = custom e) as (e2 & He2 & Ha2 & Ho2 & Hc2).
      { destruct (tabUrl tab) as [u|]; [|by exists e1].
        destruct (is_empty u); [by exists e1|].
        eexists. rewrite lookup_insert_eq, He1. split; [done|]. by repeat split. }
      destruct (decide (t = tab)) as [->|Hne].
      * rewrite He2, He. repeat split; try done; congruence.
      * assert (match tabUrl tab with
                | Some u => if is_empty u then store1
                            else <[tab := withReferer (default Auth.empty (store1 !! tab)) u]>
                                   store1
                | None => store1
                end !! t = store !! t) as ->.
        { destruct (tabUrl tab) as [u|]; [|by apply Hother1].
          destruct (is_empty u); [by apply Hother1|].
          rewrite lookup_insert_ne by done. by apply Hother1. }
        destruct (store !! t); [|done]. by repeat split.
    + destruct (decide (t = tab)) as [->|Hne].
      * rewrite He1, He. repeat split; try done; congruence.
      * rewrite Hother1 by done. destruct (store !! t); [|done]. by repeat split.
  - cbn [Auth.falsy negb].
    set (store1 := match getCookiesForUrl cookiesGetAll url with
                   | Some cookieStr =>
                       if is_empty cookieStr then store
                       else <[tab := withCookie (default Auth.empty None) cookieStr]> store
                   | None => store
                   end).
    assert ((forall t, t <> tab -> store1 !! t = store !! t)
            /\ match store1 !! tab with
               | Some e1 => authorization e1 = None /\ origin e1 = None /\ custom e1 = None
               | None => True
               end) as (Hother1 & Hown1).
    { subst store1. destruct (getCookiesForUrl _ _) as [cs|]; [|by rewrite He].
      destruct (is_empty cs); [by rewrite He|].
      rewrite lookup_insert_eq. split; [|done].
      intros t' Ht'. by rewrite lookup_insert_ne. }
    clearbody store1.
    set (store2 := match tabUrl tab with
                   | Some u => if is_empty u then store1
                               else <[tab := withReferer (default Auth.empty (store1 !! tab)) u]>
                                      store1
                   | None => store1
                   end).
    assert ((forall t, t <> tab -> store2 !! t = store !! t)
            /\ match store2 !! tab with
               | Some e2 => authorization e2 = None /\ origin e2 = None /\ custom e2 = None
               | None => True
               end) as (Hother2 & Hown2).
    { subst store2. destruct (tabUrl tab) as [u|]; [|done].
      destruct (is_empty u); [done|].
      rewrite lookup_insert_eq. split.
      - intros t' Ht'. rewrite lookup_insert_ne by done. by apply Hother1.
      - destruct (store1 !! tab); [|done]. done. }
    clearbody store2.
    destruct (decide (t = tab)) as [->|Hne].
    + rewrite He. destruct (store2 !! tab); [|done]. by split.
    + rewrite Hother2 by done. destruct (store !! t); [|done]. by repeat split.
Qed.

(** X17. [ensureAuthHeaders] is additive: it removes no entry, changes
    only the entry of its tab, leaves an entry with a non-empty cookie as
    it is, never replaces a non-empty referer, and never touches the
    stored authorization, origin and custom headers. *)
Theorem ensureAuthHeaders_keeps_what_is_stored tab url store t c :
  store !! t = Some c ->
  exists c',
    ensure tab url store !! t = Some c'
    /\ authorization c' = authorization c /\ origin c' = origin c /\ custom c' = custom c
    /\ (Auth.falsy (cookie c) = false -> c' = c)
    /\ (Auth.falsy (referer c) = false -> referer c' = referer c)
    /\ (t <> tab -> c' = c).
Proof.
  intros Hc. pose proof (ensure_entry tab url store t) as H. rewrite Hc in H.
  destruct (ensure tab url store !! t) as [c'|]; [|done]. by exists c'.
Qed.

Lemma joinWith_nonempty sep x l : x <> "" -> joinWith sep (x :: l) <> "".
Proof. intros Hx. destruct x; [done|]. by destruct l. Qed.

(** X18. When nothing usable is stored as the cookie of a tab and the
    cookie store of the browser holds cookies for the URL,
    [ensureAuthHeaders] makes [buildAuthHeaders] forward them: the Cookie
    header is the list of [name=value] pairs, joined by a semicolon and a
    space, in the order of the cookie store. *)
Theorem cookies_of_the_browser_are_forwarded tab url store cookies :
  Auth.falsy (store !! tab ≫= cookie) = true ->
  cookiesGetAll url = Some cookies ->
  cookies <> [] ->
  ("Cookie", joinWith "; " (map (fun c => fst c +:+ "=" +:+ snd c) cookies))
  ∈ buildAuthHeaders tab (ensure tab url store).
Proof.
  intros Hfalsy Hget Hne.
  set (cookieStr := joinWith "; " (map (fun c => fst c +:+ "=" +:+ snd c) cookies)).
  assert (cookieStr <> "") as Hstr.
  { subst cookieStr. destruct cookies as [|[k v] cs]; [done|]. rewrite map_cons.
    apply joinWith_nonempty. simpl. by destruct k. }
  assert (exists c, ensure tab url store !! tab = Some c /\ cookie c = Some cookieStr)
    as (c & Hc & Hcookie).
  { unfold ensureAuthHeaders, getCookiesForUrl. rewrite Hfalsy, Hget. cbn [negb].
    destruct cookies as [|c0 cs]; [done|]. cbn [is_nil]. fold cookieStr.
    destruct (is_empty cookieStr) eqn:Hemp; [by destruct cookieStr|].
    destruct (negb _).
    - eexists. by rewrite lookup_insert_eq.
    - destruct (tabUrl tab) as [u|].
      + destruct (is_empty u).
        * eexists. by rewrite lookup_insert_eq.
        * eexists. rewrite !lookup_insert_eq. split; [done|]. reflexivity.
      + eexists. by rewrite lookup_insert_eq. }
  by eapply stored_cookie_is_forwarded.
Qed.

Lemma ensure_customOnly tab url store :
  map_Forall (fun _ c => customOnly c) store ->
  map_Forall (fun _ c => customOnly c) (ensure tab url store).
Proof.
  intros Hinv t c' Hc'. pose proof (ensure_entry tab url store t) as H.
  rewrite Hc' in H. destruct (store !! t) as [c|] eqn:Hc.
  - destruct H as (_ & _ & Hcustom & _). intros m k v Hm. rewrite Hcustom in Hm.
    by eapply (Hinv t c Hc).
  - destruct H as (_ & _ & _ & Hcustom). intros m k v Hm. congruence.
Qed.

Variable urlOrigin : string -> option string.

Lemma reachable_customOnly store :
  reachable urlOrigin cookiesGetAll tabUrl store ->
  map_Forall (fun _ c => customOnly c) store.
Proof.
  induction 1 as [|details store _ IH|tab url store _ IH|tab store _ IH].
  - apply map_Forall_empty.
  - by apply listener_customOnly.
  - by apply ensure_customOnly.
  - by apply map_Forall_delete.
Qed.

(** X16. Whatever requests the listener has seen, the headers that
    [buildAuthHeaders] forwards for a tab have pairwise distinct names, so
    that the list stands for an object, and none of them is a Range
    header, in any letter case. *)
Theorem forwarded_headers_are_an_object tab store :
  reachable urlOrigin cookiesGetAll tabUrl store ->
  NoDup (map fst (buildAuthHeaders tab store))
  /\ Forall (fun kv => toLowerCase (fst kv) <> "range") (buildAuthHeaders tab store).
Proof.
  intros Hreach. apply forwarded_well_formed.
  intros c Hc. by eapply (reachable_customOnly store Hreach).
Qed.

End Ensure.

Section Fetch.
Variable fetch : nat -> string -> list (string * string) -> FetchOutcome.

(** X19. [authenticatedFetch] falls back to a request without the captured
    headers: if that request is answered [ok] whenever it is made, the
    result is an [ok] response, unless the request with the captured
    headers was refused with a status other than 401 and 403. With
    nothing captured for the tab, the result is that of the one request
    made. *)
Theorem authenticatedFetch_falls_back store url tab :
  (buildAuthHeaders tab store = [] ->
   authenticatedFetch fetch store url tab = fetch 0 url [])
  /\ ((forall k, exists status body, fetch k url [] = Response true status body) ->
      match fetch 0 url (buildAuthHeaders tab store) with
      | Response false status _ => status = 401%N \/ status = 403%N
      | _ => True
      end ->
      exists status body, authenticatedFetch fetch store url tab = Response true status body).
Proof.
  unfold authenticatedFetch. split.
  - intros ->. cbn [is_nil negb andb]. by destruct (fetch 0 url []) as [[] ? ?|].
  - intros Hplain Hfirst.
    destruct (buildAuthHeaders tab store) as [|h hs] eqn:Hauth; cbn [is_nil negb andb].
    + destruct (Hplain 0) as (st & body & ->). by exists st, body.
    + destruct (fetch 0 url (h :: hs)) as [[] st body|e].
      * by exists st, body.
      * replace ((st =? 403)%N || (st =? 401)%N) with true
          by (destruct Hfirst as [->| ->]; done).
        destruct (Hplain 1) as (st1 & body1 & ->). by exists st1, body1.
      * apply Hplain.
Qed.

End Fetch.

End HeaderFacts.

(** ** The registry of detected videos *)

Module RegistryFacts.
Import JsString JsNumber Auth Engine Session Registry Terms.

Lemma mapSet_elem entry videos y : y ∈ mapSet entry videos -> y = entry \/ y ∈ videos.
Proof.
  induction videos as [|x r IH]; cbn [mapSet].
  - intros H. apply list_elem_of_singleton in H. by left.
  - destruct (String.eqb (ve_id x) (ve_id entry)).
    + intros H. apply elem_of_cons in H as [->|H]; [by left|].
      right. apply elem_of_cons. by right.
    + intros H. apply elem_of_cons in H as [->|H].
      * right. apply elem_of_cons. by left.
      * destruct (IH H) as [->|Hy]; [by left|]. right. apply elem_of_cons. by right.
Qed.

Lemma mapSet_has entry videos : entry ∈ mapSet entry videos.
Proof.
  induction videos as [|x r IH]; cbn [mapSet].
  - apply elem_of_cons. by left.
  - destruct (String.eqb (ve_id x) (ve_id entry)); apply elem_of_cons; [by left|by right].
Qed.

Lemma mapSet_ids entry videos :
  NoDup (map ve_id videos) -> NoDup (map ve_id (mapSet entry videos)).
Proof.
  induction videos as [|x r IH]; cbn [mapSet map].
  - intros _. apply NoDup_singleton.
  - intros Hnd. apply NoDup_cons in Hnd as [Hx Hnd].
    destruct (String.eqb (ve_id x) (ve_id entry)) eqn:Heq; cbn [map].
    + apply String.eqb_eq in Heq. rewrite <- Heq. by apply NoDup_cons.
    + apply String.eqb_neq in Heq. apply NoDup_cons. split; [|by apply IH].
      intros Hin. apply list_elem_of_fmap in Hin as (y & Hy & Hin).
      destruct (mapSet_elem _ _ _ Hin) as [->|Hr]; [done|].
      apply Hx. rewrite Hy. apply list_elem_of_fmap. by exists y.
Qed.

Lemma mapSet_fresh {K : Type} (f : VideoEntry -> K) entry videos :
  NoDup (map f videos) -> f entry ∉ map f videos -> NoDup (map f (mapSet entry videos)).
Proof.
  induction videos as [|x r IH]; cbn [mapSet map].
  - intros _ _. apply NoDup_singleton.
  - intros Hnd Hfresh. apply NoDup_cons in Hnd as [Hx Hnd].
    apply not_elem_of_cons in Hfresh as [Hne Hfresh].
    destruct (String.eqb (ve_id x) (ve_id entry)); cbn [map].
    + by apply NoDup_cons.
    + apply NoDup_cons. split; [|by apply IH].
      intros Hin. apply list_elem_of_fmap in Hin as (y & Hy & Hin).
      destruct (mapSet_elem _ _ _ Hin) as [->|Hr]; [congruence|].
      apply Hx. rewrite Hy. apply list_elem_of_fmap. by exists y.
Qed.

Lemma existsb_false_not_in (f : VideoEntry -> string) (u : string) videos :
  existsb (fun e => String.eqb (f e) u) videos = false -> u ∉ map f videos.
Proof.
  intros Hex Hin. apply list_elem_of_fmap in Hin as (y & -> & Hy).
  assert (existsb (fun e => String.eqb (f e) (f y)) videos = true) as Ht.
  { apply existsb_exists. exists y. split; [by apply list_elem_of_In|apply String.eqb_refl]. }
  congruence.
Qed.

Lemma insertNewest_elem x l y : y ∈ insertNewest x l -> y = x \/ y ∈ l.
Proof.
  induction l as [|z l IH]; cbn [insertNewest].
  - intros H. apply list_elem_of_singleton in H. by left.
  - destruct (ve_timestamp z <=? ve_timestamp x)%Z.
    + intros H. apply elem_of_cons in H. tauto.
    + intros H. apply elem_of_cons in H as [->|H].
      * right. apply elem_of_cons. by left.
      * destruct (IH H) as [->|Hy]; [by left|]. right. apply elem_of_cons. by right.
Qed.

Lemma insertNewest_sorted x l :
  StronglySorted newerFirst l -> StronglySorted newerFirst (insertNewest x l).
Proof.
  induction 1 as [|z l Hs IH Hall]; cbn [insertNewest].
  - repeat constructor.
  - destruct (ve_timestamp z <=? ve_timestamp x)%Z eqn:Hle.
    + apply Z.leb_le in Hle. constructor; [by constructor|].
      constructor; [done|]. eapply Forall_impl; [exact Hall|].
      unfold newerFirst. intros; lia.
    + apply Z.leb_gt in Hle. constructor; [done|].
      apply Forall_forall. intros y Hy.
      destruct (insertNewest_elem _ _ _ Hy) as [->|Hin]; [unfold newerFirst; lia|].
      by eapply Forall_forall in Hall.
Qed.

Lemma sortNewest_sorted l : StronglySorted newerFirst (sortNewest l).
Proof.
  induction l as [|x l IH]; cbn [sortNewest foldr]; [constructor|].
  by apply insertNewest_sorted.
Qed.

Lemma insertNewest_perm x l : insertNewest x l ≡ₚ x :: l.
Proof.
  induction l as [|z l IH]; cbn [insertNewest]; [done|].
  destruct (ve_timestamp z <=? ve_timestamp x)%Z; [done|]. rewrite IH. apply perm_swap.
Qed.

Lemma sortNewest_perm l : sortNewest l ≡ₚ l.
Proof.
  induction l as [|x l IH]; cbn [sortNewest foldr]; [done|].
  fold (sortNewest l). rewrite insertNewest_perm. by rewrite IH.
Qed.

(** An entry goes to the front of entries that are not newer. *)
Lemma insertNewest_front x l :
  Forall (fun y => (ve_timestamp y <= ve_timestamp x)%Z) l -> insertNewest x l = x :: l.
Proof.
  destruct 1 as [|y l Hy _]; [done|]. cbn [insertNewest].
  by replace (ve_timestamp y <=? ve_timestamp x)%Z with true by lia.
Qed.

Lemma insertNewest_filter (p : VideoEntry -> bool) x l :
  StronglySorted newerFirst l ->
  List.filter p (insertNewest x l)
  = if p x then insertNewest x (List.filter p l) else List.filter p l.
Proof.
  induction 1 as [|y l Hs IH Hall]; cbn [insertNewest List.filter].
  - by destruct (p x).
  - destruct (ve_timestamp y <=? ve_timestamp x)%Z eqn:Hle; cbn [List.filter].
    + destruct (p x) eqn:Hx; [|done]. destruct (p y); cbn [insertNewest].
      * by rewrite Hle.
      * symmetry. apply insertNewest_front. apply Z.leb_le in Hle.
        apply Forall_forall. intros z Hz. apply list_elem_of_In, filter_In in Hz as [Hz _].
        apply list_elem_of_In in Hz. eapply Forall_forall in Hall; [|exact Hz].
        unfold newerFirst in Hall. lia.
    + rewrite IH. destruct (p x), (p y); cbn [insertNewest]; by rewrite ?Hle.
Qed.

Lemma sortNewest_filter (p : VideoEntry -> bool) l :
  List.filter p (sortNewest l) = sortNewest (List.filter p l).
Proof.
  induction l as [|x l IH]; [done|].
  cbn [sortNewest foldr List.filter]. fold (sortNewest l).
  rewrite insertNewest_filter by apply sortNewest_sorted.
  rewrite IH. by destruct (p x).
Qed.

(** Entries of one timestamp keep their order. *)
Lemma sortNewest_stable z l :
  List.filter (fun e => (ve_timestamp e =? z)%Z) (sortNewest l)
  = List.filter (fun e => (ve_timestamp e =? z)%Z) l.
Proof.
  rewrite sortNewest_filter.
  induction l as [|x l IH]; [done|]. cbn [List.filter].
  destruct (ve_timestamp x =? z)%Z eqn:Hx; [|done].
  cbn [sortNewest foldr]. fold (sortNewest (List.filter (fun e => (ve_timestamp e =? z)%Z) l)).
  rewrite IH. apply insertNewest_front.
  apply Forall_forall. intros y Hy. apply list_elem_of_In, filter_In in Hy as [_ Hy]. lia.
Qed.

(** X23. [getVideos] answers with the entries of the tab, each once, the
    newest first; entries of the same timestamp stand in the order of
    their detection. A tab without entries gets the empty list. *)
Theorem getVideos_newest_first tab (st : gmap Z (list VideoEntry)) :
  getVideos tab st ≡ₚ default [] (st !! tab)
  /\ StronglySorted newerFirst (getVideos tab st)
  /\ forall z, List.filter (fun e => (ve_timestamp e =? z)%Z) (getVideos tab st)
               = List.filter (fun e => (ve_timestamp e =? z)%Z) (default [] (st !! tab)).
Proof.
  unfold getVideos. destruct (st !! tab) as [videos|]; cbn [default from_option id].
  - split; [apply sortNewest_perm|]. split; [apply sortNewest_sorted|].
    intros z. apply sortNewest_stable.
  - split; [done|]. split; [constructor|done].
Qed.

(** X24. After [removeVideo] the list that [getVideos] answers for the tab
    is the former one without the entry of that id, in the same order,
    and the lists of the other tabs are the former ones. After
    [clearVideos] the list of the tab is empty. *)
Theorem removeVideo_then_getVideos tab videoId (st : gmap Z (list VideoEntry)) :
  getVideos tab (fst (removeVideo tab videoId st))
  = List.filter (fun e => negb (String.eqb (ve_id e) videoId)) (getVideos tab st)
  /\ (forall t, t <> tab -> getVideos t (fst (removeVideo tab videoId st)) = getVideos t st)
  /\ getVideos tab (fst (clearVideos tab st)) = [].
Proof.
  unfold removeVideo, clearVideos, getVideos. cbn [fst]. split; [|split].
  - destruct (st !! tab) as [videos|] eqn:Hv; cbn [fst].
    + rewrite lookup_insert_eq. unfold mapDelete. symmetry. apply sortNewest_filter.
    + by rewrite Hv.
  - intros t Ht. destruct (st !! tab) as [videos|]; cbn [fst]; [|done].
    by rewrite lookup_insert_ne.
  - by rewrite lookup_delete_eq.
Qed.

Section WithPlatform.
Variable hostname : string -> option string.
Variable pathname : string -> option string.
Variable decodeURIComponent : string -> option string.
Variable stringify : list (string * string) -> string.

Abbreviation register := (registerVideo hostname pathname decodeURIComponent stringify).
Abbreviation entry := (entryOf pathname decodeURIComponent stringify).

Lemma entry_normalized vid now info t :
  vi_type info = Some t -> t <> "" ->
  normalized (entry vid now info) = normalize t (vi_url info).
Proof.
  intros Ht Hne. unfold normalized, entryOf. cbn [ve_type ve_url]. rewrite Ht.
  by destruct t.
Qed.

Lemma distinct_default (st : gmap Z (list VideoEntry)) tab :
  map_Forall (fun _ vs => distinct vs) st -> distinct (default [] (st !! tab)).
Proof.
  intros Hinv. destruct (st !! tab) as [vs|] eqn:Hvs; [by eapply Hinv|].
  split; constructor.
Qed.

(** X21. [registerVideo] keeps the registry free of duplicates: when the
    detected video comes with its type, as every caller gives it, the
    entries of every tab still have pairwise distinct ids and pairwise
    distinct URLs afterwards, manifests being compared without their
    query string. *)
Theorem registerVideo_keeps_urls_distinct settings vid now tab info st t :
  vi_type info = Some t -> t <> "" ->
  map_Forall (fun _ vs => distinct vs) st ->
  map_Forall (fun _ vs => distinct vs) (fst (register settings vid now tab info st)).
Proof.
  intros Ht Hne Hinv. unfold registerVideo.
  destruct (negb (autoDetect settings)); [done|].
  destruct (isBlacklisted _ _ _); [done|].
  pose proof (distinct_default st tab Hinv) as Hvs.
  destruct (existsb _ _) eqn:Hdup; cbn [fst].
  - by apply map_Forall_insert_2.
  - apply map_Forall_insert_2; [|by apply map_Forall_insert_2].
    destruct Hvs as [Hids Hurls]. split; [by apply mapSet_ids|].
    apply mapSet_fresh; [done|].
    rewrite (entry_normalized _ _ _ t) by done.
    rewrite Ht in Hdup. cbn [default from_option id] in Hdup.
    by apply existsb_false_not_in in Hdup.
Qed.

(** X22. Detecting a video again changes nothing: after a video with its
    type has been handed to [registerVideo], a second registration of the
    same URL and type, or for a manifest of a URL of the same host that
    differs in the query string only, leaves the registry as it is and
    tells the browser nothing. *)
Theorem registerVideo_again_is_silent settings vid now vid' now' tab info info' st t :
  vi_type info = Some t -> t <> "" ->
  vi_type info' = Some t ->
  normalize t (vi_url info') = normalize t (vi_url info) ->
  hostname (vi_url info') = hostname (vi_url info) ->
  register settings vid' now' tab info' (fst (register settings vid now tab info st))
  = (fst (register settings vid now tab info st), []).
Proof.
  intros Ht Hne Ht' Hurl Hhost. unfold registerVideo.
  destruct (negb (autoDetect settings)) eqn:Hauto; cbn [fst]; [done|].
  assert (isBlacklisted hostname settings (vi_url info')
          = isBlacklisted hostname settings (vi_url info)) as ->
    by (unfold isBlacklisted; by rewrite Hhost).
  destruct (isBlacklisted _ settings (vi_url info)) eqn:Hblack; cbn [fst]; [done|].
  rewrite Ht, Ht'. cbn [default from_option id]. rewrite Hurl.
  destruct (existsb _ (from_option id [] (st !! tab))) eqn:Hdup; cbn [fst].
  - rewrite lookup_insert_eq. cbn [from_option id]. rewrite Hdup.
    by rewrite insert_insert_eq.
  - rewrite lookup_insert_eq. cbn [from_option id].
    assert (existsb (fun existing => String.eqb (normalize (ve_type existing) (ve_url existing))
                                                (normalize t (vi_url info)))
                    (mapSet (entry vid now info) (from_option id [] (st !! tab))) = true)
      as ->.
    { apply existsb_exists. exists (entry vid now info).
      split; [apply list_elem_of_In, mapSet_has|].
      fold (normalized (entry vid now info)).
      rewrite (entry_normalized _ _ _ t) by done. apply String.eqb_refl. }
    by rewrite insert_insert_eq.
Qed.

Lemma updateBadge_detects_nothing tab (st : gmap Z (list VideoEntry)) t e :
  VideoDetected t e ∉ updateBadge tab st.
Proof.
  unfold updateBadge. destruct (0 <? _)%nat;
    rewrite !elem_of_cons, elem_of_nil; intuition discriminate.
Qed.

(** The only video that a call of [registerVideo] announces is the entry
    it has built, for its tab. *)
Lemma register_announces settings vid now tab info st t e :
  VideoDetected t e ∈ snd (register settings vid now tab info st) ->
  t = tab /\ e = entry vid now info.
Proof.
  unfold registerVideo.
  destruct (negb (autoDetect settings)); [by intros ?%elem_of_nil|].
  destruct (isBlacklisted _ _ _); [by intros ?%elem_of_nil|].
  destruct (existsb _ _); [by intros ?%elem_of_nil|]. cbn [snd].
  rewrite !elem_of_app. intros [H|[H|H]].
  - by apply updateBadge_detects_nothing in H.
  - apply list_elem_of_singleton in H. by simplify_eq.
  - destruct (_ && _); [|by apply elem_of_nil in H].
    apply list_elem_of_singleton in H. discriminate.
Qed.

(** X25. Every video that the listener of responses registers is a
    response of a tab, not of its main frame, and not of an advertising or
    tracking URL; its type is the one [classifyType] gives for its URL and
    content type; and unless it is a manifest, its declared length is not
    a positive one below the minimum size of the settings. *)
Theorem registered_responses_pass_the_filters settings vid now details st t e :
  VideoDetected t e
  ∈ snd (onHeadersReceived hostname pathname decodeURIComponent stringify
                           settings vid now details st) ->
  t = r_tabId details /\ (0 <= t)%Z
  /\ r_type details <> "main_frame"
  /\ test_any adPatterns (r_url details) = false
  /\ ve_url e = r_url details
  /\ ve_type e = classifyType (ve_url e) (ve_contentType e)
  /\ (isManifestType (ve_type e) = false ->
      (ve_size e <= 0)%Z \/ (minSize settings <= ve_size e)%Z).
Proof.
  unfold onHeadersReceived.
  destruct (r_tabId details <? 0)%Z eqn:Htab; [by intros ?%elem_of_nil|].
  destruct (String.eqb (r_type details) "main_frame") eqn:Hmain; [by intros ?%elem_of_nil|].
  destruct (fold_left _ _ _) as [[headers contentType] contentLength].
  destruct (_ && negb (isAudioResource _ _)); [by intros ?%elem_of_nil|].
  destruct (negb (isHlsResource _ _) && _ && _ && _) eqn:Hsmall; [by intros ?%elem_of_nil|].
  destruct (test_any adPatterns _) eqn:Had; [by intros ?%elem_of_nil|].
  intros H. apply register_announces in H as [-> ->].
  split; [done|]. split; [lia|]. split; [by apply String.eqb_neq|]. split; [done|].
  split; [done|].
  unfold entryOf. cbn [ve_type ve_url ve_contentType ve_size vi_type vi_url vi_contentType vi_size].
  unfold classifyType.
  assert (Registry.or_default (Some contentType) "" = contentType) as ->
    by (by destruct contentType).
  split.
  - destruct (isHlsResource _ _); [done|]. destruct (isDashResource _ _); [done|].
    by destruct (isAudioResource _ _).
  - destruct (isHlsResource _ _); [done|]. destruct (isDashResource _ _); [done|].
    intros _. cbn [negb andb] in Hsmall.
    apply andb_false_iff in Hsmall as [Hlen|Hlen]; lia.
Qed.

End WithPlatform.

(** X20. When a tab is closed or starts to load a page, the service worker
    forgets it: no header captured for it is forwarded any more and its
    list of videos is empty, while the other tabs keep theirs; on a load
    the badge of the tab is cleared. *)
Theorem closed_tab_is_forgotten tab (s : Stores) :
  buildAuthHeaders tab (tabRequestHeaders (onRemoved tab s)) = []
  /\ getVideos tab (tabVideos (onRemoved tab s)) = []
  /\ (forall t, t <> tab ->
        buildAuthHeaders t (tabRequestHeaders (onRemoved tab s))
        = buildAuthHeaders t (tabRequestHeaders s)
        /\ getVideos t (tabVideos (onRemoved tab s)) = getVideos t (tabVideos s))
  /\ onUpdated tab true s
     = (onRemoved tab s,
        [SetBadgeText tab ""; SetTitle tab "VideoMancer - No videos detected"])
  /\ onUpdated tab false s = (s, []).
Proof.
  unfold onUpdated, onRemoved, buildAuthHeaders, getVideos, updateBadge.
  cbn [tabRequestHeaders tabVideos]. rewrite !lookup_delete_eq.
  split; [done|]. split; [done|]. split; [|done].
  intros t Ht. by rewrite !lookup_delete_ne.
Qed.

Lemma threshold0 b : Qle_bool 1024 (scaled b 0) = (1024 <=? b)%Z.
Proof. unfold scaled, Qle_bool. cbn. f_equal; lia. Qed.

Lemma threshold1 b : Qle_bool 1024 (scaled b 1) = (1024 ^ 2 <=? b)%Z.
Proof.
  unfold scaled, Qle_bool, Qdiv, Qmult, Qinv. cbn. f_equal; lia.
Qed.

Lemma threshold2 b : Qle_bool 1024 (scaled b 2) = (1024 ^ 3 <=? b)%Z.
Proof.
  unfold scaled, Qle_bool, Qdiv, Qmult, Qinv. cbn. f_equal; lia.
Qed.

(** X26. [formatSize] answers [Unknown size] for a size that is not
    positive. A positive size is shown in the largest of the units B, KB,
    MB and GB that it reaches, never in a unit beyond GB, as the exact
    quotient rounded to one decimal place. *)
Theorem formatSize_picks_the_unit bytes :
  ((bytes <= 0)%Z -> formatSize bytes = "Unknown size")
  /\ ((0 < bytes)%Z ->
      exists k,
        k <= 3
        /\ formatSize bytes
           = toFixed1 (scaled bytes k) +:+ " " +:+ default "" (units !! k)
        /\ (1024 ^ Z.of_nat k <= bytes)%Z
        /\ (k < 3 -> (bytes < 1024 ^ Z.of_nat (S k))%Z)).
Proof.
  unfold formatSize. split.
  - intros H. by replace (bytes <=? 0)%Z with true by lia.
  - intros H. replace (bytes <=? 0)%Z with false by lia.
    change (inject_Z bytes) with (scaled bytes 0).
    cbn [shrink]. rewrite threshold0.
    destruct (1024 <=? bytes)%Z eqn:H0; cbn [andb Nat.ltb Nat.leb].
    2:{ exists 0. split; [lia|]. split; [done|]. split; [simpl; lia|]. intros _.
        change (1024 ^ Z.of_nat 1)%Z with 1024%Z. lia. }
    change (scaled bytes 0 / 1024)%Q with (scaled bytes 1). rewrite threshold1.
    destruct (1024 ^ 2 <=? bytes)%Z eqn:H1; cbn [andb Nat.ltb Nat.leb].
    2:{ exists 1. split; [lia|]. split; [done|].
        change (1024 ^ Z.of_nat 1)%Z with 1024%Z.
        change (1024 ^ Z.of_nat 2)%Z with (1024 ^ 2)%Z. lia. }
    change (scaled bytes 1 / 1024)%Q with (scaled bytes 2). rewrite threshold2.
    destruct (1024 ^ 3 <=? bytes)%Z eqn:H2; cbn [andb Nat.ltb Nat.leb].
    2:{ exists 2. split; [lia|]. split; [done|].
        change (1024 ^ Z.of_nat 2)%Z with (1024 ^ 2)%Z.
        change (1024 ^ Z.of_nat 3)%Z with (1024 ^ 3)%Z. lia. }
    exists 3. split; [lia|]. split; [done|].
    change (1024 ^ Z.of_nat 3)%Z with (1024 ^ 3)%Z. lia.
Qed.

End RegistryFacts.

(** ** The options page *)

Module OptionsFacts.
Import JsString JsNumber Registry Options Terms.

Lemma trimEnd_idem s : trimEnd (trimEnd s) = trimEnd s.
Proof.
  induction s as [|c r IH]; [done|]. cbn [trimEnd].
  destruct (is_space c && is_empty (trimEnd r)) eqn:Hc; [done|].
  cbn [trimEnd]. by rewrite IH, Hc.
Qed.

Lemma trimStart_trimEnd_head c r :
  is_space c = false -> trimStart (trimEnd (String c r)) = trimEnd (String c r).
Proof. intros Hc. cbn [trimEnd]. rewrite Hc. cbn [andb trimStart]. by rewrite Hc. Qed.

Lemma trimStart_head s :
  trimStart s = "" \/ exists c r, trimStart s = String c r /\ is_space c = false.
Proof.
  induction s as [|c r IH]; [by left|]. cbn [trimStart].
  destruct (is_space c) eqn:Hc; [done|]. right. by exists c, r.
Qed.

Lemma trim_idem s : trim (trim s) = trim s.
Proof.
  unfold trim. destruct (trimStart_head s) as [->|(c & r & -> & Hc)]; [done|].
  by rewrite trimStart_trimEnd_head, trimEnd_idem.
Qed.

Lemma nonempty_length d : (0 <? String.length d)%nat = true <-> d <> "".
Proof. destruct d; cbn; split; intros; done. Qed.

Section WithPlatform.
Variable hostname : string -> option string.

(** X27. After [saveSettings], a URL is blacklisted exactly when its host
    name contains the trimmed text of a line of the blacklist field that
    is not blank, so that a blank line blacklists nothing; every stored
    domain is trimmed and not empty, and the stored minimum size is a
    multiple of 1024 other than 0. *)
Theorem saved_blacklist_ignores_blank_lines form :
  (forall url,
     isBlacklisted hostname (saveSettings form) url = true
     <-> exists h line, hostname url = Some h
                        /\ line ∈ split "010" (blacklist_value form)
                        /\ trim line <> ""
                        /\ includes (trim line) h = true)
  /\ Forall (fun d => d <> "" /\ trim d = d) (blacklistedDomains (saveSettings form))
  /\ (minSize (saveSettings form) <> 0 /\ (1024 | minSize (saveSettings form)))%Z.
Proof.
  split; [|split].
  - intros url. unfold isBlacklisted. cbn [saveSettings blacklistedDomains].
    destruct (hostname url) as [h|]; [|split; [done|by intros (? & ? & ? & _)]].
    rewrite existsb_exists. split.
    + intros (d & Hd & Hinc). apply filter_In in Hd as [Hd Hne].
      apply in_map_iff in Hd as (line & <- & Hline).
      exists h, line. split; [done|]. split; [by apply list_elem_of_In|].
      split; [|done]. by apply nonempty_length.
    + intros (h' & line & [= <-] & Hline & Hne & Hinc). exists (trim line).
      split; [|done]. apply filter_In.
      split; [|by apply nonempty_length]. apply in_map_iff. exists line.
      split; [done|]. by apply list_elem_of_In.
  - cbn [saveSettings blacklistedDomains]. apply Forall_forall. intros d Hd.
    apply list_elem_of_In, filter_In in Hd as [Hd Hne].
    apply in_map_iff in Hd as (line & <- & _).
    split; [by apply nonempty_length|]. apply trim_idem.
  - cbn [saveSettings minSize]. split.
    + destruct (parseInt _) as [z| |]; [|lia..]. destruct (z =? 0)%Z eqn:Hz; lia.
    + apply Z.divide_factor_r.
Qed.

End WithPlatform.

End OptionsFacts.

(** ** The badge *)

Module BadgeFacts.
Import JsString JsNumber Registry Terms.

Lemma updateBadge_follows tab (st : gmap Z (list VideoEntry)) :
  SetBadgeText tab (badgeText (videoCount tab st)) ∈ updateBadge tab st
  /\ forall t text, SetBadgeText t text ∈ updateBadge tab st ->
                    t = tab /\ text = badgeText (videoCount tab st).
Proof.
  unfold updateBadge, badgeText, videoCount.
  assert (match st !! tab with Some videos => length videos | None => 0 end
          = length (default [] (st !! tab))) as -> by (by destruct (st !! tab)).
  destruct (0 <? _)%nat.
  - split; [apply elem_of_cons; by left|]. intros t text.
    rewrite !elem_of_cons, elem_of_nil. intros [H|[H|[H|[]]]]; by simplify_eq.
  - split; [apply elem_of_cons; by left|]. intros t text.
    rewrite !elem_of_cons, elem_of_nil. intros [H|[H|[]]]; by simplify_eq.
Qed.

Section WithPlatform.
Variable hostname : string -> option string.
Variable pathname : string -> option string.
Variable decodeURIComponent : string -> option string.
Variable stringify : list (string * string) -> string.

(** X28. The badge of a tab follows its registry: [registerVideo],
    [removeVideo] and [clearVideos] either tell the browser nothing and
    leave the number of videos of the tab as it was, or set the badge
    text of that tab, and of no other, to the new number of its videos,
    the empty text for none. *)
Theorem badge_follows_registry settings vid now tab info videoId
    (st : gmap Z (list VideoEntry)) :
  badgeFollows tab st
    (registerVideo hostname pathname decodeURIComponent stringify settings vid now tab info st)
  /\ badgeFollows tab st (removeVideo tab videoId st)
  /\ badgeFollows tab st (clearVideos tab st).
Proof.
  split; [|split].
  - unfold registerVideo.
    destruct (negb (autoDetect settings)); [by left|].
    destruct (isBlacklisted _ _ _); [by left|].
    destruct (existsb _ _).
    + left. split; [done|]. cbn [fst]. unfold videoCount.
      by rewrite lookup_insert_eq.
    + right. cbn [fst snd].
      match goal with |- context [updateBadge tab ?s] =>
        destruct (updateBadge_follows tab s) as [Hin Honly] end.
      split; [apply elem_of_app; by left|].
      intros t text. rewrite !elem_of_app. intros [H|[H|H]].
      * by apply Honly.
      * apply list_elem_of_singleton in H. discriminate.
      * destruct (_ && _); [|by apply elem_of_nil in H].
        apply list_elem_of_singleton in H. discriminate.
  - unfold removeVideo. destruct (st !! tab) as [videos|] eqn:Hvs; [|by left].
    right. cbn [fst snd]. apply updateBadge_follows.
  - unfold clearVideos. right. cbn [fst snd]. apply updateBadge_follows.
Qed.

End WithPlatform.

End BadgeFacts.

(** ** Master playlists *)

Module MasterFacts.
Import JsString JsNumber Hls Terms PlaylistFacts.

Section Parsing.
Variable resolveUrl : string -> string -> string.
Variable baseUrl : string.

Lemma next_uri_found rest :
  next_uri rest <> "" ->
  exists skipped later : list string,
    rest = (skipped ++ next_uri rest :: later)%list
    /\ Forall (fun l => uriLine l = false) skipped
    /\ uriLine (next_uri rest) = true.
Proof.
  induction rest as [|l rest IH]; [done|]. cbn [next_uri]. fold (uriLine l).
  destruct (uriLine l) eqn:Hl.
  - intros _. by exists [], rest.
  - intros Hne. destruct (IH Hne) as (skipped & later & Hrest & Hskip & Huri).
    exists (l :: skipped), later. split; [by rewrite Hrest at 1|].
    split; [by constructor|done].
Qed.

Lemma stream_infs_found lines q :
  q ∈ stream_infs resolveUrl baseUrl lines ->
  exists (before : list string) tag (skipped : list string) uri later,
    lines = (before ++ tag :: skipped ++ uri :: later)%list
    /\ startsWith "#EXT-X-STREAM-INF:" tag = true
    /\ Forall (fun l => uriLine l = false) skipped
    /\ uriLine uri = true
    /\ q = quality_of resolveUrl baseUrl (substring_from 18 tag) uri.
Proof.
  induction lines as [|line rest IH]; [by intros ?%elem_of_nil|].
  cbn [stream_infs].
  assert (q ∈ stream_infs resolveUrl baseUrl rest ->
          exists (before : list string) tag (skipped : list string) uri later,
            line :: rest = (before ++ tag :: skipped ++ uri :: later)%list
            /\ startsWith "#EXT-X-STREAM-INF:" tag = true
            /\ Forall (fun l => uriLine l = false) skipped
            /\ uriLine uri = true
            /\ q = quality_of resolveUrl baseUrl (substring_from 18 tag) uri) as Hrest.
  { intros H. destruct (IH H) as (before & tag & skipped & uri & later & -> & Hrest).
    by exists (line :: before), tag, skipped, uri, later. }
  destruct (startsWith "#EXT-X-STREAM-INF:" line) eqn:Htag; [|done].
  destruct (is_empty (next_uri rest)) eqn:Hempty; [done|].
  intros [->|H]%elem_of_cons; [|by apply Hrest].
  destruct (next_uri_found rest) as (skipped & later & Hr & Hskip & Huri);
    [by destruct (next_uri rest)|].
  exists [], line, skipped, (next_uri rest), later.
  split; [cbn [app]; by rewrite <- Hr|done].
Qed.

(** X29. Every quality that [parseM3U8Master] lists comes from a stream
    tag of the playlist: its URL is the first line after the tag that is
    neither empty nor starts with [#], resolved against the base URL, and
    its bandwidth, resolution and label are read from the attributes of
    that tag. *)
Theorem listed_quality_follows_its_tag content q :
  q ∈ parseM3U8Master resolveUrl content baseUrl ->
  exists (before : list string) tag (skipped : list string) uri later,
    linesOf content = (before ++ tag :: skipped ++ uri :: later)%list
    /\ startsWith "#EXT-X-STREAM-INF:" tag = true
    /\ Forall (fun l => uriLine l = false) skipped
    /\ uriLine uri = true
    /\ q = quality_of resolveUrl baseUrl (substring_from 18 tag) uri
    /\ q_url q = resolveUrl baseUrl uri.
Proof.
  unfold parseM3U8Master. rewrite sort_desc_perm. intros H.
  destruct (stream_infs_found _ _ H)
    as (before & tag & skipped & uri & later & Hl & Htag & Hskip & Huri & ->).
  by exists before, tag, skipped, uri, later.
Qed.

End Parsing.

End MasterFacts.

(** ** The further properties on concrete inputs *)

Module Instances.
Import JsString JsNumber Auth Engine Session Registry Spec Terms Examples Cases.

(** The name of the example download satisfies the hypothesis of
    [short_name_keeps_extension]. *)
Lemma short_name_keeps_extension_witness :
  match v_filename hlsVideo with Some s => String.length s <= 196 | None => True end
  /\ endsWith ".ts" (hlsFilename hlsVideo) = true
  /\ endsWith ".mp4" (dashFilename hlsVideo) = true.
Proof.
  assert (match v_filename hlsVideo with Some s => String.length s <= 196 | None => True end)
    as Hlen by (simpl; lia).
  split; [exact Hlen|].
  exact (NameFacts.short_name_keeps_extension hlsVideo Hlen).
Defined.

(** The name [lecture.m3u8] satisfies the hypothesis of
    [extension_is_replaced]. *)
Lemma extension_is_replaced_witness :
  v_filename hlsVideo = Some ("lecture" +:+ ".m3u8")
  /\ (In (toLowerCase ".m3u8") [".m3u8"; ".m3u"; ".ts"] ->
      hlsFilename hlsVideo = sanitizeFilename ("lecture" +:+ ".ts"))
  /\ (In (toLowerCase ".m3u8") [".mpd"; ".mp4"] ->
      dashFilename hlsVideo = sanitizeFilename ("lecture" +:+ ".mp4")).
Proof.
  assert (v_filename hlsVideo = Some ("lecture" +:+ ".m3u8")) as Hname by reflexivity.
  split; [exact Hname|].
  exact (NameFacts.extension_is_replaced hlsVideo "lecture" ".m3u8" Hname).
Defined.

(** The playlist of six segments, served as the manifest, satisfies the
    hypotheses of [media_playlist_is_downloaded_directly]. *)
Lemma media_playlist_is_downloaded_directly_witness :
  let body := list_byte_of_string sixSegments in
  netOneRefused (ReqManifest (v_url hlsVideo)) = Response true 200 body
  /\ Forall (fun l => startsWith "#EXT-X-STREAM-INF:" l = false) (linesOf (text body))
  /\ downloadHLS resolve netOneRefused noDecrypt download 3 (inOrder 3 6) hlsVideo
     = downloadHLSSegments resolve netOneRefused noDecrypt download 3 (inOrder 3 6)
                           (text body) (v_url hlsVideo) hlsVideo.
Proof.
  cbv zeta.
  assert (netOneRefused (ReqManifest (v_url hlsVideo))
          = Response true 200 (list_byte_of_string sixSegments)) as Hnet by reflexivity.
  assert (Forall (fun l => startsWith "#EXT-X-STREAM-INF:" l = false)
                 (linesOf (text (list_byte_of_string sixSegments)))) as Hlines
    by (vm_compute; repeat constructor).
  split; [exact Hnet|]. split; [exact Hlines|].
  exact (ParsingFacts.media_playlist_is_downloaded_directly resolve netOneRefused noDecrypt
           download 3 (inOrder 3 6) hlsVideo 200 _ Hnet Hlines).
Defined.

(** The first variant of Scenario A, requested by its URL, satisfies the
    hypotheses of [listed_quality_is_found]. *)
Lemma listed_quality_is_found_witness :
  let body := list_byte_of_string scenarioA in
  netMaster (ReqManifest (v_url masterVideo)) = Response true 200 body
  /\ highQuality ∈ Hls.parseM3U8Master resolve (text body) (v_url masterVideo)
  /\ Hls.q_url highQuality <> ""
  /\ selectedQuality masterVideo = Some (Hls.q_url highQuality)
  /\ downloadHLS resolve netMaster noDecrypt download 3 (inOrder 3 6) masterVideo
     = fetchPlaylist netMaster
         (fun content url =>
            downloadHLSSegments resolve netMaster noDecrypt download 3 (inOrder 3 6)
                                content url masterVideo)
         (Hls.q_url highQuality).
Proof.
  cbv zeta.
  assert (netMaster (ReqManifest (v_url masterVideo))
          = Response true 200 (list_byte_of_string scenarioA)) as Hnet by reflexivity.
  assert (highQuality ∈ Hls.parseM3U8Master resolve (text (list_byte_of_string scenarioA))
                                            (v_url masterVideo)) as Hq.
  { replace (Hls.parseM3U8Master resolve (text (list_byte_of_string scenarioA))
                                 (v_url masterVideo))
      with [highQuality;
            Hls.mkQuality "https://cdn.example/low/index.m3u8" 1200000 (Some "640x360") 360
                          "360p"]
      by (vm_compute; reflexivity).
    apply elem_of_cons. by left. }
  assert (Hls.q_url highQuality <> "") as Hne by discriminate.
  assert (selectedQuality masterVideo = Some (Hls.q_url highQuality)) as Hsel by reflexivity.
  split; [exact Hnet|]. split; [exact Hq|]. split; [exact Hne|]. split; [exact Hsel|].
  exact (ParsingFacts.listed_quality_is_found resolve netMaster noDecrypt download 3
           (inOrder 3 6) masterVideo 200 _ highQuality Hnet Hq Hne Hsel).
Defined.

(** The two segments of Scenario B, both refused, satisfy the hypothesis
    of [auth_expired_means_short_playlist]. *)
Lemma auth_expired_means_short_playlist_witness :
  let segments := Hls.parseM3U8Segments resolve scenarioB baseB in
  let events := [Progress "v1" 0 2; Progress "v1" 2 2] in
  downloadHLSSegments resolve netAllRefused noDecrypt download 3 (inOrder 3 2)
                      scenarioB baseB hlsVideo
  = (events, Returned (Error noSegmentsDownloaded))
  /\ 0 < length segments <= 5
  /\ (forall index seg, segments !! index = Some seg -> fails netAllRefused index seg = true)
  /\ Forall isProgress events.
Proof.
  cbv zeta.
  assert (downloadHLSSegments resolve netAllRefused noDecrypt download 3 (inOrder 3 2)
                              scenarioB baseB hlsVideo
          = ([Progress "v1" 0 2; Progress "v1" 2 2], Returned (Error noSegmentsDownloaded)))
    as Hrun by (vm_compute; reflexivity).
  split; [exact Hrun|].
  exact (RunFacts.auth_expired_means_short_playlist resolve netAllRefused noDecrypt download 3
           scenarioB baseB hlsVideo (inOrder 3 2) _ Hrun).
Defined.

(** The playlist of six segments names no key: it satisfies the
    hypothesis of [no_key_no_decryption]. *)
Lemma no_key_no_decryption_witness :
  decryptionKeyOf netOneRefused (Hls.parseM3U8Key resolve sixSegments (v_url hlsVideo)) = None
  /\ downloadHLSSegments resolve netOneRefused noDecrypt download 3 (inOrder 3 6)
                         sixSegments (v_url hlsVideo) hlsVideo
     = downloadHLSSegments resolve netOneRefused decryptAll download 3 (inOrder 3 6)
                           sixSegments (v_url hlsVideo) hlsVideo.
Proof.
  assert (decryptionKeyOf netOneRefused
            (Hls.parseM3U8Key resolve sixSegments (v_url hlsVideo)) = None) as Hkey
    by (vm_compute; reflexivity).
  split; [exact Hkey|].
  exact (RunFacts.no_key_no_decryption resolve netOneRefused noDecrypt download 3
           sixSegments (v_url hlsVideo) hlsVideo (inOrder 3 6) decryptAll Hkey).
Defined.

(** The audio template satisfies the hypotheses of
    [dash_generation_counts_two_hours]: the rounded quotients give 876
    segments, one more than the exact count of 875. *)
Lemma dash_generation_counts_two_hours_witness :
  Dash.startNumber audioTemplate = Int 1
  /\ Dash.timescale audioTemplate = Int 44100
  /\ Dash.duration audioTemplate = Int 362880
  /\ (0 < 362880 < 2 ^ 53)%Z /\ (0 < 44100 < 2 ^ 53)%Z
  /\ (7200 * 44100 <= 2 ^ 50 * 362880)%Z
  /\ (- 2 ^ 52 < 1 < 2 ^ 52)%Z
  /\ (7200 * 44100 = 875 * 362880)%Z
  /\ maxSegments audioTemplate = Finite (inject_Z 876)
  /\ exists c,
       (1 <= c)%Z
       /\ ((c - 2) * 362880 < 7200 * 44100 <= (c + 1) * 362880)%Z
       /\ maxSegments audioTemplate = Finite (inject_Z c)
       /\ forall fuel, Z.to_nat c <= fuel ->
            generateSegments resolve fuel dashVideo mpdRepresentation audioTemplate
            = Some (map (fun k => segmentUrl resolve dashVideo
                                    (default "" (Dash.media audioTemplate))
                                    (Dash.rep_id mpdRepresentation) (1 + Z.of_nat k))
                        (seq 0 (Z.to_nat c))).
Proof.
  assert (0 < 362880 < 2 ^ 53)%Z as Hd by lia.
  assert (0 < 44100 < 2 ^ 53)%Z as Ht by lia.
  assert (7200 * 44100 <= 2 ^ 50 * 362880)%Z as Hmany by lia.
  assert (- 2 ^ 52 < 1 < 2 ^ 52)%Z as Hs by lia.
  split; [reflexivity|]. split; [reflexivity|]. split; [reflexivity|].
  split; [exact Hd|]. split; [exact Ht|]. split; [exact Hmany|]. split; [exact Hs|].
  split; [reflexivity|]. split; [vm_compute; reflexivity|].
  exact (TemplateFacts.dash_generation_counts_two_hours resolve dashVideo mpdRepresentation
           audioTemplate 1 362880 44100 eq_refl eq_refl eq_refl Hd Ht Hmany Hs).
Defined.

(** The six generated segments of the example manifest, all served,
    satisfy the hypotheses of [dash_all_segments_served]. *)
Lemma dash_all_segments_served_witness :
  Dash.segmentTemplate mpdRepresentation = Some mpdTemplate
  /\ Engine.falsy (Dash.media mpdTemplate) = false
  /\ generateSegments resolve 6 dashVideo mpdRepresentation mpdTemplate = Some mpdSegments
  /\ mpdSegments <> []
  /\ everyFetchSettles 3 mpdSegments (reversed 3 6)
  /\ (forall index url, mpdSegments !! index = Some url -> okAt netOk index url = true)
  /\ exists events,
       downloadDASHSegments resolve netOk download 3 (reversed 3 6) 6
                            mpdRepresentation dashVideo
       = save download events
           (mkDownloadOptions
              (FromBlob (mkBlob (initChunks resolve netOk dashVideo mpdRepresentation
                                            mpdTemplate
                                 ++ bodies netOk mpdSegments) "video/mp4"))
              (dashFilename dashVideo) true)
           (Some (length (initChunks resolve netOk dashVideo mpdRepresentation mpdTemplate)
                  + length mpdSegments))
       /\ Forall isProgress events.
Proof.
  assert (generateSegments resolve 6 dashVideo mpdRepresentation mpdTemplate
          = Some mpdSegments) as Hgen by (vm_compute; reflexivity).
  assert (mpdSegments <> []) as Hne by discriminate.
  assert (everyFetchSettles 3 mpdSegments (reversed 3 6)) as Hset
    by (exact (PromiseFacts.reversed_settles 3 mpdSegments)).
  assert (forall index url, mpdSegments !! index = Some url -> okAt netOk index url = true)
    as Hok by (intros index url _; reflexivity).
  split; [reflexivity|]. split; [reflexivity|]. split; [exact Hgen|]. split; [exact Hne|].
  split; [exact Hset|]. split; [exact Hok|].
  exact (TemplateFacts.dash_all_segments_served resolve netOk download 3 (reversed 3 6) 6
           mpdRepresentation dashVideo mpdTemplate mpdSegments
           eq_refl eq_refl Hgen Hne Hset Hok).
Defined.

(** The later request of tab 7 satisfies the hypotheses of
    [captured_field_replaces_iff_present]. *)
Lemma captured_field_replaces_iff_present_witness :
  let hs := default [] (requestHeaders laterRequest) in
  let before := default Auth.empty (capturedStore !! tabId laterRequest) in
  let after := onBeforeSendHeaders noOrigin laterRequest capturedStore in
  (0 <= tabId laterRequest)%Z
  /\ isStream (d_url laterRequest) = true
  /\ (exists c,
        after !! tabId laterRequest = Some c
        /\ cookie c = match lastHeader "cookie" hs with
                      | Some v => Some v
                      | None => cookie before
                      end
        /\ authorization c = match lastHeader "authorization" hs with
                             | Some v => Some v
                             | None => authorization before
                             end
        /\ origin c = match lastHeader "origin" hs with
                      | Some v => Some v
                      | None => origin before
                      end)
  /\ forall t, t <> tabId laterRequest -> after !! t = capturedStore !! t.
Proof.
  cbv zeta.
  assert (0 <= tabId laterRequest)%Z as Htab by (simpl; lia).
  assert (isStream (d_url laterRequest) = true) as Hstream by reflexivity.
  split; [exact Htab|]. split; [exact Hstream|].
  exact (HeaderFacts.captured_field_replaces_iff_present noOrigin laterRequest capturedStore
           Htab Hstream).
Defined.

(** A request without a Referer header, whose URL has an origin, and a
    request with a Referer header satisfy the hypotheses of
    [referer_falls_back_to_origin]: the origin of the first and the
    header of the second are stored, in place of the referer stored
    before. *)
Lemma referer_falls_back_to_origin_witness :
  ((0 <= tabId laterRequest)%Z
   /\ isStream (d_url laterRequest) = true
   /\ Auth.falsy (lastHeader "referer" (default [] (requestHeaders laterRequest))) = true
   /\ cdnOrigin (d_url laterRequest) = Some "https://cdn.example"
   /\ exists c,
        onBeforeSendHeaders cdnOrigin laterRequest capturedStore !! tabId laterRequest
        = Some c
        /\ referer c = Some "https://cdn.example/")
  /\ ((0 <= tabId refererRequest)%Z
      /\ isStream (d_url refererRequest) = true
      /\ Auth.falsy (lastHeader "referer" (default [] (requestHeaders refererRequest)))
         = false
      /\ exists c,
           onBeforeSendHeaders cdnOrigin refererRequest capturedStore
             !! tabId refererRequest = Some c
           /\ referer c = Some "https://site.example/lesson/2").
Proof.
  assert (0 <= 7)%Z as Htab by lia.
  split.
  - split; [exact Htab|]. split; [reflexivity|]. split; [reflexivity|].
    split; [reflexivity|].
    destruct (HeaderFacts.referer_falls_back_to_origin cdnOrigin laterRequest capturedStore
                Htab eq_refl) as (c & Hc & _ & Hfallback).
    exists c. split; [exact Hc|].
    exact (Hfallback "https://cdn.example" eq_refl eq_refl).
  - split; [exact Htab|]. split; [reflexivity|]. split; [reflexivity|].
    destruct (HeaderFacts.referer_falls_back_to_origin cdnOrigin refererRequest
                capturedStore Htab eq_refl) as (c & Hc & Hkept & _).
    exists c. split; [exact Hc|]. exact (Hkept eq_refl).
Defined.

(** A request with credentials satisfies the hypotheses of
    [captured_credentials_are_forwarded]. *)
Lemma captured_credentials_are_forwarded_witness :
  let hs := default [] (requestHeaders signedRequest) in
  let forwarded :=
    buildAuthHeaders (tabId signedRequest)
                     (onBeforeSendHeaders noOrigin signedRequest capturedStore) in
  (0 <= tabId signedRequest)%Z
  /\ isStream (d_url signedRequest) = true
  /\ (forall v, lastHeader "cookie" hs = Some v -> v <> "" -> ("Cookie", v) ∈ forwarded)
  /\ (forall v, lastHeader "authorization" hs = Some v -> v <> "" ->
                ("Authorization", v) ∈ forwarded).
Proof.
  cbv zeta.
  assert (0 <= tabId signedRequest)%Z as Htab by (simpl; lia).
  assert (isStream (d_url signedRequest) = true) as Hstream by reflexivity.
  split; [exact Htab|]. split; [exact Hstream|].
  exact (HeaderFacts.captured_credentials_are_forwarded noOrigin signedRequest capturedStore
           Htab Hstream).
Defined.

(** The store after a request with credentials and a call of
    [ensureAuthHeaders] satisfies the hypothesis of
    [forwarded_headers_are_an_object]. *)
Lemma forwarded_headers_are_an_object_witness :
  let store := ensureAuthHeaders browserCookies noTabUrl 7 "https://cdn.example/v/index.m3u8"
                 (onBeforeSendHeaders noOrigin signedRequest ∅) in
  reachable noOrigin browserCookies noTabUrl store
  /\ NoDup (map fst (buildAuthHeaders 7 store))
  /\ Forall (fun kv => toLowerCase (fst kv) <> "range") (buildAuthHeaders 7 store).
Proof.
  cbv zeta.
  assert (reachable noOrigin browserCookies noTabUrl
            (ensureAuthHeaders browserCookies noTabUrl 7 "https://cdn.example/v/index.m3u8"
               (onBeforeSendHeaders noOrigin signedRequest ∅))) as Hreach
    by (apply reach_ensure, reach_request, reach_empty).
  split; [exact Hreach|].
  exact (HeaderFacts.forwarded_headers_are_an_object browserCookies noTabUrl noOrigin 7 _
           Hreach).
Defined.

(** The stored entry of tab 7 satisfies the hypothesis of
    [ensureAuthHeaders_keeps_what_is_stored]. *)
Lemma ensureAuthHeaders_keeps_what_is_stored_witness :
  let after := ensureAuthHeaders browserCookies noTabUrl 7 "https://cdn.example/v/index.m3u8"
                 capturedStore in
  capturedStore !! 7%Z = Some stored
  /\ exists c',
       after !! 7%Z = Some c'
       /\ authorization c' = authorization stored /\ origin c' = origin stored
       /\ custom c' = custom stored
       /\ (Auth.falsy (cookie stored) = false -> c' = stored)
       /\ (Auth.falsy (referer stored) = false -> referer c' = referer stored)
       /\ (7%Z <> 7%Z -> c' = stored).
Proof.
  cbv zeta.
  assert (capturedStore !! 7%Z = Some stored) as Hc by reflexivity.
  split; [exact Hc|].
  exact (HeaderFacts.ensureAuthHeaders_keeps_what_is_stored browserCookies noTabUrl 7
           "https://cdn.example/v/index.m3u8" capturedStore 7 stored Hc).
Defined.

(** A tab without captured headers and a browser with two cookies satisfy
    the hypotheses of [cookies_of_the_browser_are_forwarded]. *)
Lemma cookies_of_the_browser_are_forwarded_witness :
  let url := "https://cdn.example/v/index.m3u8" in
  let cookies := [("session", "abc"); ("theme", "dark")] in
  Auth.falsy ((∅ : gmap Z Captured) !! 7%Z ≫= cookie) = true
  /\ browserCookies url = Some cookies
  /\ cookies <> []
  /\ ("Cookie", "session=abc; theme=dark")
     ∈ buildAuthHeaders 7 (ensureAuthHeaders browserCookies noTabUrl 7 url ∅).
Proof.
  cbv zeta.
  assert (Auth.falsy ((∅ : gmap Z Captured) !! 7%Z ≫= cookie) = true) as Hfalsy
    by reflexivity.
  assert ([("session", "abc"); ("theme", "dark")] <> ([] : list (string * string))) as Hne
    by discriminate.
  split; [exact Hfalsy|]. split; [reflexivity|]. split; [exact Hne|].
  exact (HeaderFacts.cookies_of_the_browser_are_forwarded browserCookies noTabUrl 7
           "https://cdn.example/v/index.m3u8" ∅ _ Hfalsy eq_refl Hne).
Defined.

(** A server that refuses the captured headers with 403 and serves the
    plain request: [authenticatedFetch] is answered [ok]. *)
Lemma authenticatedFetch_falls_back_witness :
  let url := "https://cdn.example/v/seg1.ts" in
  buildAuthHeaders 7 capturedStore <> []
  /\ (forall k, exists status body, refusesHeaders k url [] = Response true status body)
  /\ refusesHeaders 0 url (buildAuthHeaders 7 capturedStore) = Response false 403 []
  /\ exists status body,
       authenticatedFetch refusesHeaders capturedStore url 7 = Response true status body.
Proof.
  cbv zeta.
  assert (forall k, exists status body,
            refusesHeaders k "https://cdn.example/v/seg1.ts" [] = Response true status body)
    as Hplain by (intros k; by exists 200%N, [Byte.x01]).
  assert (refusesHeaders 0 "https://cdn.example/v/seg1.ts" (buildAuthHeaders 7 capturedStore)
          = Response false 403 []) as Hfirst by (vm_compute; reflexivity).
  split; [vm_compute; discriminate|]. split; [exact Hplain|]. split; [exact Hfirst|].
  apply (proj2 (HeaderFacts.authenticatedFetch_falls_back refusesHeaders capturedStore
                  "https://cdn.example/v/seg1.ts" 7) Hplain).
  rewrite Hfirst. by right.
Defined.

(** A registry that holds a manifest, and a media file detected in the
    same tab, satisfy the hypotheses of
    [registerVideo_keeps_urls_distinct]: the tab has two entries
    afterwards, and they are distinct. *)
Lemma registerVideo_keeps_urls_distinct_witness :
  let st := fst (registerVideo host path decode printed detecting "id1" 100 5
                               manifestInfo ∅) in
  let st' := fst (registerVideo host path decode printed detecting "id2" 200 5
                                mediaInfo st) in
  vi_type mediaInfo = Some "direct"
  /\ "direct" <> ""
  /\ map_Forall (fun _ vs => distinct vs) st
  /\ option_map (map ve_url) (st !! 5%Z) = Some ["https://cdn.example/v/index.m3u8?tok=1"]
  /\ option_map (map ve_url) (st' !! 5%Z)
     = Some ["https://cdn.example/v/index.m3u8?tok=1"; "https://cdn.example/v/clip.mp4"]
  /\ map_Forall (fun _ vs => distinct vs) st'.
Proof.
  cbv zeta.
  assert ("direct" <> "") as Hne by discriminate.
  assert (map_Forall (fun _ vs => distinct vs)
            (fst (registerVideo host path decode printed detecting "id1" 100 5
                                manifestInfo ∅))) as Hinv.
  { apply map_Forall_insert_2; [|apply map_Forall_insert_2; [|apply map_Forall_empty]].
    - split; apply NoDup_singleton.
    - split; apply NoDup_nil_2. }
  split; [reflexivity|]. split; [exact Hne|]. split; [exact Hinv|].
  split; [vm_compute; reflexivity|]. split; [vm_compute; reflexivity|].
  exact (RegistryFacts.registerVideo_keeps_urls_distinct host path decode printed detecting
           "id2" 200 5 mediaInfo _ "direct" eq_refl Hne Hinv).
Defined.

(** The same manifest detected with another token satisfies the
    hypotheses of [registerVideo_again_is_silent]. *)
Lemma registerVideo_again_is_silent_witness :
  let st := fst (registerVideo host path decode printed detecting "id1" 100 5
                               manifestInfo ∅) in
  vi_type manifestInfo = Some "hls"
  /\ "hls" <> ""
  /\ vi_type manifestAgain = Some "hls"
  /\ normalize "hls" (vi_url manifestAgain) = normalize "hls" (vi_url manifestInfo)
  /\ host (vi_url manifestAgain) = host (vi_url manifestInfo)
  /\ registerVideo host path decode printed detecting "id2" 200 5 manifestAgain st
     = (st, []).
Proof.
  cbv zeta.
  assert ("hls" <> "") as Hne by discriminate.
  assert (normalize "hls" (vi_url manifestAgain) = normalize "hls" (vi_url manifestInfo))
    as Hurl by (vm_compute; reflexivity).
  split; [reflexivity|]. split; [exact Hne|]. split; [reflexivity|]. split; [exact Hurl|].
  split; [reflexivity|].
  exact (RegistryFacts.registerVideo_again_is_silent host path decode printed detecting
           "id1" 100 "id2" 200 5 manifestInfo manifestAgain ∅ "hls"
           eq_refl Hne eq_refl Hurl eq_refl).
Defined.

(** The response of a media file of 2,000,000 bytes is registered: it
    satisfies the hypothesis of [registered_responses_pass_the_filters]. *)
Lemma registered_responses_pass_the_filters_witness :
  let e := entryOf path decode printed "id1" 100 mediaInfo in
  VideoDetected 5 e
  ∈ snd (onHeadersReceived host path decode printed detecting "id1" 100 mediaResponse ∅)
  /\ 5%Z = r_tabId mediaResponse /\ (0 <= 5)%Z
  /\ r_type mediaResponse <> "main_frame"
  /\ test_any adPatterns (r_url mediaResponse) = false
  /\ ve_url e = r_url mediaResponse
  /\ ve_type e = classifyType (ve_url e) (ve_contentType e)
  /\ (isManifestType (ve_type e) = false ->
      (ve_size e <= 0)%Z \/ (minSize detecting <= ve_size e)%Z).
Proof.
  cbv zeta.
  assert (VideoDetected 5 (entryOf path decode printed "id1" 100 mediaInfo)
          ∈ snd (onHeadersReceived host path decode printed detecting "id1" 100
                                   mediaResponse ∅)) as Hin.
  { replace (snd (onHeadersReceived host path decode printed detecting "id1" 100
                                    mediaResponse ∅))
      with ([SetBadgeText 5 "1"; SetBadgeBackgroundColor 5 "#e53935";
             SetTitle 5 "VideoMancer - 1 video(s) detected";
             VideoDetected 5 (entryOf path decode printed "id1" 100 mediaInfo);
             Notification "vm-5" "Video detected: clip.mp4"])
      by (vm_compute; reflexivity).
    rewrite !elem_of_cons. tauto. }
  split; [exact Hin|].
  exact (RegistryFacts.registered_responses_pass_the_filters host path decode printed
           detecting "id1" 100 mediaResponse ∅ 5 _ Hin).
Defined.

(** The first variant of Scenario A is listed for the master playlist, as
    [listed_quality_follows_its_tag] requires. *)
Lemma listed_quality_follows_its_tag_witness :
  highQuality ∈ Hls.parseM3U8Master resolve scenarioA "https://cdn.example/master.m3u8"
  /\ exists (before : list string) tag (skipped : list string) uri later,
       linesOf scenarioA = (before ++ tag :: skipped ++ uri :: later)%list
       /\ startsWith "#EXT-X-STREAM-INF:" tag = true
       /\ Forall (fun l => uriLine l = false) skipped
       /\ uriLine uri = true
       /\ highQuality
          = Hls.quality_of resolve "https://cdn.example/master.m3u8" (substring_from 18 tag) uri
       /\ Hls.q_url highQuality = resolve "https://cdn.example/master.m3u8" uri.
Proof.
  assert (highQuality
          ∈ Hls.parseM3U8Master resolve scenarioA "https://cdn.example/master.m3u8") as Hq.
  { replace (Hls.parseM3U8Master resolve scenarioA "https://cdn.example/master.m3u8")
      with [highQuality;
            Hls.mkQuality "https://cdn.example/low/index.m3u8" 1200000 (Some "640x360") 360
                          "360p"]
      by (vm_compute; reflexivity).
    apply elem_of_cons. by left. }
  split; [exact Hq|].
  exact (MasterFacts.listed_quality_follows_its_tag resolve "https://cdn.example/master.m3u8"
           scenarioA highQuality Hq).
Defined.

(** An IV of 32 hexadecimal digits of both letter cases satisfies the
    hypotheses of [decryptSegment_passes_the_iv]; a service that answers
    with the IV it is given shows the two IVs. *)
Lemma decryptSegment_passes_the_iv_witness :
  let h := "000102030405060708090A0b0C0d0E0f" in
  all is_hex h = true
  /\ Nat.even (String.length h) = true
  /\ h <> ""
  /\ decryptSegment echoIv [Byte.x2a] [Byte.x01] None 258
     = replicate 12 Byte.x00 ++ [Byte.x00; Byte.x00; Byte.x01; Byte.x02]
  /\ decryptSegment echoIv [Byte.x2a] [Byte.x01] (Some h) 258
     = [Byte.x00; Byte.x01; Byte.x02; Byte.x03; Byte.x04; Byte.x05; Byte.x06; Byte.x07;
        Byte.x08; Byte.x09; Byte.x0a; Byte.x0b; Byte.x0c; Byte.x0d; Byte.x0e; Byte.x0f]
  /\ (exists iv,
        length iv = 16
        /\ take 12 iv = replicate 12 Byte.x00
        /\ bigEndian iv = (N.of_nat 258 mod 2 ^ 32)%N
        /\ decryptSegment echoIv [Byte.x2a] [Byte.x01] None 258
           = default [Byte.x2a] (echoIv [Byte.x01] iv [Byte.x2a]))
  /\ (exists iv,
        length iv = Nat.div2 (String.length h)
        /\ bigEndian iv = hexNumber h
        /\ decryptSegment echoIv [Byte.x2a] [Byte.x01] (Some h) 258
           = default [Byte.x2a] (echoIv [Byte.x01] iv [Byte.x2a])).
Proof.
  cbv zeta.
  assert ("000102030405060708090A0b0C0d0E0f" <> "") as Hne by discriminate.
  split; [reflexivity|]. split; [reflexivity|]. split; [exact Hne|].
  split; [reflexivity|]. split; [reflexivity|].
  exact (DecryptFacts.decryptSegment_passes_the_iv echoIv [Byte.x2a] [Byte.x01] 258
           "000102030405060708090A0b0C0d0E0f" eq_refl eq_refl Hne).
Defined.

End Instances.
